(** * zfbv: a framebuffer image viewer

    A shallow embedding of [main.c] (the blit, the nearest-neighbour
    resampler, the interactive scale loop, and the calls that acquire and
    release the device, the images and the terminal), the properties of it
    that the design document states, and further properties read off the
    code.

    Conventions of the embedding.
    - A C [int] is a [Z]; arithmetic on it goes through [int_add], [int_sub],
      [int_mul], which wrap to 32 bits in two's complement.  (Signed overflow
      is undefined in C; the statements below say when the sizes fit.)
    - A C [float] is an IEEE-754 binary32 value, a [spec_float] operated on at
      precision 24 and maximal exponent 128 with round-to-nearest-even, i.e.
      every [float] expression is evaluated in single precision.
    - A byte buffer is a [list Z]; [load] and [store] index it with a [Z].
      An access outside the buffer is undefined in C: [load] then yields 0 and
      [store] leaves the buffer as it is, and the statements give the index
      bounds separately.
    - [malloc] is driven by the environment: it fails, or it yields a buffer
      of the requested size with arbitrary content.  So are [open], [ioctl],
      [mmap] and [stbi_load]; what the program acquires and releases is
      recorded as a list of [sys] calls. *)

From Stdlib Require Import ZArith QArith Qpower Qround Lia Lqa List Bool Ascii.
From Stdlib Require Import Floats.SpecFloat.
From stdpp Require Import base list.

Local Open Scope Z_scope.

(* ================================================================== *)
(** * Part I: the program                                              *)
(* ================================================================== *)

(** ** C integers *)

Definition INT_MIN : Z := -2147483648.
Definition INT_MAX : Z := 2147483647.

Definition wrap32 (z : Z) : Z := (z + 2 ^ 31) mod 2 ^ 32 - 2 ^ 31.

Definition int_add (a b : Z) : Z := wrap32 (a + b).
Definition int_sub (a b : Z) : Z := wrap32 (a - b).
Definition int_mul (a b : Z) : Z := wrap32 (a * b).
(** C division truncates toward zero. *)
Definition int_div (a b : Z) : Z := wrap32 (Z.quot a b).

(** ** C floats (binary32) *)

Definition f32 : Type := spec_float.

Definition f32_prec : Z := 24.
Definition f32_emax : Z := 128.

(** [(float) n] *)
Definition f32_of_int (n : Z) : f32 := binary_normalize f32_prec f32_emax n 0 false.

Definition f32_mul : f32 -> f32 -> f32 := SFmul f32_prec f32_emax.
Definition f32_div : f32 -> f32 -> f32 := SFdiv f32_prec f32_emax.
Definition f32_lt : f32 -> f32 -> bool := SFltb.
Definition f32_eq : f32 -> f32 -> bool := SFeqb.

(** [(int) f]: truncation toward zero.  A value that does not fit an [int]
    (or an infinity, or a NaN) is undefined in C; the model returns
    [INT_MIN], which is what the x86 conversion instruction yields. *)
Definition int_of_f32 (f : f32) : Z :=
  match f with
  | S754_zero _ => 0
  | S754_finite s m e =>
      let t := cond_Zopp s (Z.shiftl (Zpos m) e) in
      if (INT_MIN <=? t) && (t <=? INT_MAX) then t else INT_MIN
  | _ => INT_MIN
  end.

(** The literals of the source, each the binary32 value nearest to the
    decimal: 0.8f = 0x3F4CCCCD, 1.2f = 0x3F99999A, 0.1f = 0x3DCCCCCD,
    5.0f = 0x40A00000. *)
Definition f32_0_8 : f32 := S754_finite false 13421773 (-24).
Definition f32_1_2 : f32 := S754_finite false 10066330 (-23).
Definition f32_0_1 : f32 := S754_finite false 13421773 (-27).
Definition f32_5_0 : f32 := S754_finite false 10485760 (-21).

(** ** Byte buffers *)

(** A byte is a [Z] in [0, 256); the program only copies bytes. *)

Definition load (l : list Z) (i : Z) : Z :=
  if 0 <=? i then default 0 (l !! Z.to_nat i) else 0.

Definition store (l : list Z) (i : Z) (v : Z) : list Z :=
  if 0 <=? i then <[Z.to_nat i := v]> l else l.

(** [malloc]: [None] when the allocation fails, otherwise [n] bytes whose
    content [junk] is whatever the allocator left there.  A negative [int]
    converts to a [size_t] no allocator satisfies. *)
Definition malloc (a : option (Z -> Z)) (n : Z) : option (list Z) :=
  match a with
  | Some junk => if 0 <=? n then Some (map junk (seqZ 0 n)) else None
  | None => None
  end.

(** ** Counted loops *)

(** [n] iterations of [body], the counter starting at [i] and advancing by
    [step]. *)
Fixpoint for_loop {S : Type} (n : nat) (i step : Z) (body : Z -> S -> S) (s : S) : S :=
  match n with
  | O => s
  | Datatypes.S n' => for_loop n' (i + step) step body (body i s)
  end.

(** [for (int i = lo; i < hi; i++) body] *)
Definition for_range {S : Type} (lo hi : Z) (body : Z -> S -> S) (s : S) : S :=
  for_loop (Z.to_nat (hi - lo)) lo 1 body s.

(** [for (int i = lo; i < hi; i += step) body], for [step > 0] *)
Definition for_step {S : Type} (lo hi step : Z) (body : Z -> S -> S) (s : S) : S :=
  for_loop (Z.to_nat ((hi - lo + step - 1) / step)) lo step body s.

(** ** The two structures *)

(** [fd] is left out; [fbp] is the device mapping and [buffer] the shadow
    buffer, both non-null once [framebuffer_create] has returned one. *)
Record framebuffer : Type := {
  fbp : list Z;
  buffer : list Z;
  fb_width : Z;
  fb_height : Z;
  fb_bpp : Z
}.

Record Image : Type := {
  img_width : Z;
  img_height : Z;
  img_bpp : Z;
  img_stride : Z;
  img_data : list Z
}.

Definition set_buffer (fb : framebuffer) (b : list Z) : framebuffer :=
  {| fbp := fbp fb; buffer := b;
     fb_width := fb_width fb; fb_height := fb_height fb; fb_bpp := fb_bpp fb |}.

(** ** [framebuffer_update] *)

Definition copy_bytes (dst src : list Z) (n : Z) : list Z :=
  for_range 0 n (fun i d => store d i (load src i)) dst.

Definition framebuffer_update (fb : option framebuffer) : option framebuffer :=
  match fb with
  | None => None
  | Some fb =>
      let screensize := int_mul (int_mul (fb_width fb) (fb_height fb)) (fb_bpp fb) in
      Some {| fbp := copy_bytes (fbp fb) (buffer fb) screensize; buffer := buffer fb;
              fb_width := fb_width fb; fb_height := fb_height fb; fb_bpp := fb_bpp fb |}
  end.

(** ** [framebuffer_clear_color] *)

Definition framebuffer_clear_color (fb : option framebuffer) (r g b : Z)
  : option framebuffer :=
  match fb with
  | None => None
  | Some fb =>
      let screensize := int_mul (int_mul (fb_width fb) (fb_height fb)) (fb_bpp fb) in
      let bpp := fb_bpp fb in
      if bpp <? 3 then Some fb
      else
        Some (set_buffer fb
          (for_step 0 screensize (fb_bpp fb)
             (fun i buf =>
                let buf := store buf i b in
                let buf := store buf (int_add i 1) g in
                store buf (int_add i 2) r)
             (buffer fb)))
  end.

(** ** [framebuffer_draw_image] *)

Definition screen_x_start (x_offset : Z) : Z := if x_offset <? 0 then 0 else x_offset.
Definition screen_y_start (y_offset : Z) : Z := if y_offset <? 0 then 0 else y_offset.
Definition screen_x_end (fb : framebuffer) (x_offset : Z) (img : Image) : Z :=
  if int_add x_offset (img_width img) >? fb_width fb
  then fb_width fb else int_add x_offset (img_width img).
Definition screen_y_end (fb : framebuffer) (y_offset : Z) (img : Image) : Z :=
  if int_add y_offset (img_height img) >? fb_height fb
  then fb_height fb else int_add y_offset (img_height img).

Definition fb_index (fb : framebuffer) (x y : Z) : Z :=
  let fb_row_offset := int_mul (int_mul y (fb_width fb)) (fb_bpp fb) in
  int_add fb_row_offset (int_mul x (fb_bpp fb)).

Definition img_index (img : Image) (x_offset y_offset x y : Z) : Z :=
  let img_y := int_sub y y_offset in
  let img_row_offset := int_mul (int_mul img_y (img_width img)) (img_bpp img) in
  let img_x := int_sub x x_offset in
  int_add img_row_offset (int_mul img_x (img_bpp img)).

Definition draw_rows (fb : framebuffer) (x_offset y_offset : Z) (img : Image)
  : list Z :=
  for_range (screen_y_start y_offset) (screen_y_end fb y_offset img)
    (fun y buf =>
       for_range (screen_x_start x_offset) (screen_x_end fb x_offset img)
         (fun x buf =>
            let fb_idx := fb_index fb x y in
            let img_idx := img_index img x_offset y_offset x y in
            for_range 0 (img_bpp img)
              (fun c buf =>
                 store buf (int_add fb_idx c)
                   (load (img_data img)
                      (int_sub (int_sub (int_add img_idx (img_bpp img)) 1) c)))
              buf)
         buf)
    (buffer fb).

Definition framebuffer_draw_image (fb : option framebuffer) (x_offset y_offset : Z)
    (img : option Image) : option framebuffer :=
  match fb, img with
  | Some fb, Some img =>
      if (screen_x_start x_offset >=? screen_x_end fb x_offset img)
         || (screen_y_start y_offset >=? screen_y_end fb y_offset img)
      then Some fb
      else if fb_bpp fb <? 3 then Some fb
      else Some (set_buffer fb (draw_rows fb x_offset y_offset img))
  | _, _ => fb
  end.

(** What [framebuffer_draw_image] prints: the line of [printf] at line 246,
    with the value of [bpp * 8] it shows. *)
Inductive message : Type :=
  | Unsupported_bits_per_pixel (bits : Z).

(** [framebuffer_draw_image] with its output: the lines printed, in order,
    and the device.  The function returns nothing; what it prints is all it
    reports. *)
Definition framebuffer_draw_image_io (fb : option framebuffer) (x_offset y_offset : Z)
    (img : option Image) : list message * option framebuffer :=
  match fb, img with
  | Some fb, Some img =>
      if (screen_x_start x_offset >=? screen_x_end fb x_offset img)
         || (screen_y_start y_offset >=? screen_y_end fb y_offset img)
      then ([], Some fb)
      else
        let bpp := fb_bpp fb in
        if bpp <? 3 then ([Unsupported_bits_per_pixel (int_mul bpp 8)], Some fb)
        else ([], Some (set_buffer fb (draw_rows fb x_offset y_offset img)))
  | _, _ => ([], fb)
  end.

(** ** [Image_resize_linear] *)

Definition x_ratio (src : Image) (new_width : Z) : f32 :=
  f32_div (f32_of_int (img_width src)) (f32_of_int new_width).
Definition y_ratio (src : Image) (new_height : Z) : f32 :=
  f32_div (f32_of_int (img_height src)) (f32_of_int new_height).

Definition src_x (src : Image) (new_width x : Z) : Z :=
  int_of_f32 (f32_mul (f32_of_int x) (x_ratio src new_width)).
Definition src_y (src : Image) (new_height y : Z) : Z :=
  int_of_f32 (f32_mul (f32_of_int y) (y_ratio src new_height)).

Definition src_index (src : Image) (new_width new_height x y : Z) : Z :=
  int_add (int_mul (src_y src new_height y) (img_stride src))
          (int_mul (src_x src new_width x) (img_bpp src)).

Definition dst_index (stride bpp x y : Z) : Z :=
  int_add (int_mul y stride) (int_mul x bpp).

Definition resize_rows (src : Image) (new_width new_height stride : Z)
    (data : list Z) : list Z :=
  for_range 0 new_height
    (fun y data =>
       for_range 0 new_width
         (fun x data =>
            let src_index := src_index src new_width new_height x y in
            let dst_index := dst_index stride (img_bpp src) x y in
            for_range 0 (img_bpp src)
              (fun c data =>
                 store data (int_add dst_index c)
                   (load (img_data src) (int_add src_index c)))
              data)
         data)
    data.

(** [a_struct] and [a_data] are the outcomes of the two [malloc] calls. *)
Definition Image_resize_linear (a_struct : bool) (a_data : option (Z -> Z))
    (src : Image) (new_width new_height : Z) : option Image :=
  if negb a_struct then None
  else
    let width := new_width in
    let height := new_height in
    let bpp := img_bpp src in
    let stride := int_mul width bpp in
    match malloc a_data (int_mul height stride) with
    | None => None
    | Some data =>
        Some {| img_width := width; img_height := height; img_bpp := bpp;
                img_stride := stride;
                img_data := resize_rows src new_width new_height stride data |}
    end.

(** ** [main]: the interaction loop *)

(** What [main] calls, in order. *)
Inductive event : Type :=
  | EvClear
  | EvDraw (x y : Z) (img : Image)
  | EvUpdate
  | EvGetchar (ch : ascii)
  | EvResize (w h : Z)
  | EvFree (img : Image).

(** The variables of [main] that live across iterations. *)
Record main_state : Type := {
  fb : framebuffer;
  img : Image;
  resized : Image;
  default_scale : f32;
  scale : f32;
  prev_scale : f32
}.

(** One keystroke and the outcome of the allocations it may trigger. *)
Record input : Type := {
  key : ascii;
  alloc_struct : bool;
  alloc_data : option (Z -> Z)
}.

Definition fit_scale (fb : framebuffer) (img : Image) : f32 :=
  let scale_w := f32_div (f32_of_int (fb_width fb)) (f32_of_int (img_width img)) in
  let scale_h := f32_div (f32_of_int (fb_height fb)) (f32_of_int (img_height img)) in
  if f32_lt scale_w scale_h then scale_w else scale_h.

Definition resized_width (img : Image) (scale : f32) : Z :=
  int_of_f32 (f32_mul (f32_of_int (img_width img)) scale).
Definition resized_height (img : Image) (scale : f32) : Z :=
  int_of_f32 (f32_mul (f32_of_int (img_height img)) scale).

(** Lines 66-84: [None] is the [return 1] after a failed first resize. *)
Definition main_init (fb : framebuffer) (img : Image)
    (a_struct : bool) (a_data : option (Z -> Z)) : option main_state :=
  let scale := fit_scale fb img in
  let default_scale := f32_mul scale f32_0_8 in
  let scale := default_scale in
  match Image_resize_linear a_struct a_data img
          (resized_width img scale) (resized_height img scale) with
  | None => None
  | Some resized =>
      Some {| fb := fb; img := img; resized := resized;
              default_scale := default_scale; scale := scale; prev_scale := scale |}
  end.

Definition pos_x (st : main_state) : Z :=
  int_div (int_sub (fb_width (fb st)) (img_width (resized st))) 2.
Definition pos_y (st : main_state) : Z :=
  int_div (int_sub (fb_height (fb st)) (img_height (resized st))) 2.

Definition with_fb (st : main_state) (f : framebuffer) : main_state :=
  {| fb := f; img := img st; resized := resized st;
     default_scale := default_scale st; scale := scale st;
     prev_scale := prev_scale st |}.

(** Lines 98-103: clear, draw, flush. *)
Definition draw_frame (st : main_state) : list event * main_state :=
  let f := framebuffer_clear_color (Some (fb st)) 0 0 0 in
  let f := framebuffer_draw_image f (pos_x st) (pos_y st) (Some (resized st)) in
  let f := framebuffer_update f in
  ([EvClear; EvDraw (pos_x st) (pos_y st) (resized st); EvUpdate],
   with_fb st (default (fb st) f)).

(** Lines 108-119: the effect of the key on [scale]; [None] is [break]. *)
Definition key_scale (st : main_state) (ch : ascii) : option f32 :=
  if Ascii.eqb ch "r" then Some (default_scale st)
  else if Ascii.eqb ch "+" then Some (f32_mul (scale st) f32_1_2)
  else if Ascii.eqb ch "-" then Some (f32_div (scale st) f32_1_2)
  else if Ascii.eqb ch "q" then None
  else Some (scale st).

(** Lines 124-125. *)
Definition clamp_scale (s : f32) : f32 :=
  let s := if f32_lt s f32_0_1 then f32_0_1 else s in
  if f32_lt f32_5_0 s then f32_5_0 else s.

(** Lines 106-138: from the return of [getchar] to the end of the loop body.
    The events are those after the read; [None] is [break]. *)
Definition handle_key (st : main_state) (i : input) : list event * option main_state :=
  match key_scale st (key i) with
  | None => ([], None)
  | Some s =>
      let s := clamp_scale s in
      if f32_eq s (prev_scale st)
      then ([], Some {| fb := fb st; img := img st; resized := resized st;
                        default_scale := default_scale st; scale := s;
                        prev_scale := prev_scale st |})
      else
        let w := resized_width (img st) s in
        let h := resized_height (img st) s in
        match Image_resize_linear (alloc_struct i) (alloc_data i) (img st) w h with
        | Some new_resized =>
            ([EvResize w h; EvFree (resized st)],
             Some {| fb := fb st; img := img st; resized := new_resized;
                     default_scale := default_scale st; scale := s; prev_scale := s |})
        | None =>
            ([EvResize w h],
             Some {| fb := fb st; img := img st; resized := resized st;
                     default_scale := default_scale st; scale := s; prev_scale := s |})
        end
  end.

(** One turn of [while (1)]: the events and the state at the end of the
    body, or [None] after [break]. *)
Definition loop_body (st : main_state) (i : input) : list event * option main_state :=
  let '(ev1, st1) := draw_frame st in
  let '(ev2, st2) := handle_key st1 i in
  (ev1 ++ [EvGetchar (key i)] ++ ev2, st2).

(** The loop on a finite supply of keystrokes.  When the supply runs out the
    program has drawn its frame and is blocked in [getchar]; after [q] the
    cleanup frees both images. *)
Fixpoint main_loop (ins : list input) (st : main_state) : list event * main_state :=
  match ins with
  | [] => draw_frame st
  | i :: ins' =>
      match loop_body st i with
      | (ev, Some st') =>
          let '(ev', st'') := main_loop ins' st' in (ev ++ ev', st'')
      | (ev, None) =>
          let st' := snd (draw_frame st) in
          (ev ++ [EvFree (img st'); EvFree (resized st')], st')
      end
  end.

(** ** What the program asks of the system *)

(** The heap blocks, named after the call that yields them: the two
    [malloc]s of [framebuffer_create], the [malloc] and the [stbi_load] of
    [Image_load], the two [malloc]s of [Image_resize_linear].  The first
    four are allocated once.  [Image_resize_linear] is called many times:
    its calls are numbered from 0, and the structure and the pixel buffer
    the call number [n] allocates are [BlkResized n] and
    [BlkResizedData n]. *)
Inductive block : Type :=
  | BlkFb
  | BlkBuffer
  | BlkImage
  | BlkImageData
  | BlkResized (n : nat)
  | BlkResizedData (n : nat).

Inductive resource : Type :=
  | Heap (b : block)
  | Descriptor (fd : Z)
  | Mapping (len : Z).

(** The calls that take or give back a resource, and the one that sets the
    terminal; [printf] is left out. *)
Inductive sys : Type :=
  | Acquire (r : resource)
  | Release (r : resource)
  | Tcsetattr (lflag : Z).

(** The fields of [struct fb_var_screeninfo] that are read, each a [__u32]. *)
Record fb_var_screeninfo : Type := {
  xres : Z;
  yres : Z;
  bits_per_pixel : Z
}.

(** The answers of the system to [framebuffer_create]: the first [malloc],
    [open] ([None] for -1), the [ioctl] ([None] for -1), [mmap] ([None] for
    [MAP_FAILED], otherwise the bytes of the device) and the second
    [malloc]. *)
Record device : Type := {
  dev_alloc : bool;
  dev_open : option Z;
  dev_vinfo : option fb_var_screeninfo;
  dev_mmap : option (Z -> Z);
  dev_alloc_buffer : option (Z -> Z)
}.

(** [mmap (0, n, ...)]: a negative [int] converts to a length no mapping
    satisfies. *)
Definition mmap (a : option (Z -> Z)) (n : Z) : option (list Z) := malloc a n.

(** ** [framebuffer_create] and [framebuffer_destroy] *)

(** The descriptor [fd] comes with the structure. *)
Definition framebuffer_create (d : device) : list sys * option (Z * framebuffer) :=
  if negb (dev_alloc d) then ([], None)
  else
    match dev_open d with
    | None => ([Acquire (Heap BlkFb); Release (Heap BlkFb)], None)
    | Some fd =>
        match dev_vinfo d with
        | None =>
            ([Acquire (Heap BlkFb); Acquire (Descriptor fd);
              Release (Descriptor fd); Release (Heap BlkFb)], None)
        | Some vinfo =>
            let width := wrap32 (xres vinfo) in
            let height := wrap32 (yres vinfo) in
            let bpp := wrap32 (bits_per_pixel vinfo / 8) in
            let screensize := int_mul (int_mul width height) bpp in
            match mmap (dev_mmap d) screensize with
            | None =>
                ([Acquire (Heap BlkFb); Acquire (Descriptor fd);
                  Release (Descriptor fd); Release (Heap BlkFb)], None)
            | Some mapped =>
                match malloc (dev_alloc_buffer d) screensize with
                | None =>
                    ([Acquire (Heap BlkFb); Acquire (Descriptor fd);
                      Acquire (Mapping screensize);
                      Release (Mapping screensize); Release (Descriptor fd);
                      Release (Heap BlkFb)], None)
                | Some buf =>
                    ([Acquire (Heap BlkFb); Acquire (Descriptor fd);
                      Acquire (Mapping screensize); Acquire (Heap BlkBuffer)],
                     Some (fd, {| fbp := mapped; buffer := buf; fb_width := width;
                                  fb_height := height; fb_bpp := bpp |}))
                end
            end
        end
    end.

Definition framebuffer_destroy (f : option (Z * framebuffer)) : list sys :=
  match f with
  | None => []
  | Some (fd, fb) =>
      let screensize := int_mul (int_mul (fb_width fb) (fb_height fb)) (fb_bpp fb) in
      [Release (Mapping screensize); Release (Descriptor fd);
       Release (Heap BlkBuffer); Release (Heap BlkFb)]
  end.

(** ** [Image_load] and [Image_free] *)

(** [decoded] is the answer of [stbi_load] asked for three channels: the
    width, the height and the pixels, or [None] for [NULL]. *)
Definition Image_load (a_struct : bool) (decoded : option (Z * Z * list Z))
  : list sys * option Image :=
  if negb a_struct then ([], None)
  else
    match decoded with
    | None => ([Acquire (Heap BlkImage); Release (Heap BlkImage)], None)
    | Some (width, height, data) =>
        ([Acquire (Heap BlkImage); Acquire (Heap BlkImageData)],
         Some {| img_width := width; img_height := height; img_bpp := 3;
                 img_stride := int_mul width 3; img_data := data |})
    end.

(** [b_struct] and [b_data] are the blocks the image occupies; its pixel
    buffer is never null. *)
Definition Image_free (b_struct b_data : block) (img : option Image) : list sys :=
  match img with
  | None => []
  | Some _ => [Release (Heap b_data); Release (Heap b_struct)]
  end.

(** The allocator calls of the call number [n] of [Image_resize_linear]. *)
Definition Image_resize_linear_sys (n : nat) (a_struct : bool) (a_data : option (Z -> Z))
    (src : Image) (new_width new_height : Z) : list sys :=
  if negb a_struct then []
  else
    match malloc a_data (int_mul new_height (int_mul new_width (img_bpp src))) with
    | None => [Acquire (Heap (BlkResized n)); Release (Heap (BlkResized n))]
    | Some _ => [Acquire (Heap (BlkResized n)); Acquire (Heap (BlkResizedData n))]
    end.

(** ** [main], from its arguments to its return *)

(** The two flags of [c_lflag] the program clears, with their Linux values. *)
Definition ICANON : Z := 2.
Definition ECHO : Z := 8.

(** [newt.c_lflag &= ~(ICANON | ECHO)] *)
Definition raw_lflag (lflag : Z) : Z := Z.land lflag (Z.lnot (Z.lor ICANON ECHO)).

(** All that [main] gets from outside: the argument count, the answers to
    [framebuffer_create], to [Image_load] and to the first resize, the
    terminal flags [tcgetattr] reports, and the keystrokes. *)
Record world : Type := {
  argc : Z;
  w_device : device;
  w_alloc_image : bool;
  w_decoded : option (Z * Z * list Z);
  w_alloc_struct : bool;
  w_alloc_data : option (Z -> Z);
  w_lflag : Z;
  w_keys : list input
}.

(** Lines 108-138 on the heap, for a key other than [q].  A pointer to a
    resampled image is the number of the call of [Image_resize_linear] that
    returned it: [ptr] is the pointer in the variable [resized] and [calls]
    the number of calls made so far.  The result is the allocator calls of
    the turn, the pointer in [resized] at its end and the number of calls
    made by then: a resize that returns an image is followed by
    [Image_free (resized)] and [resized = new_resized]. *)
Definition turn_sys (st : main_state) (i : input) (ptr calls : nat)
  : list sys * (nat * nat) :=
  match key_scale st (key i) with
  | None => ([], (ptr, calls))
  | Some s =>
      let s := clamp_scale s in
      if f32_eq s (prev_scale st) then ([], (ptr, calls))
      else
        let w := resized_width (img st) s in
        let h := resized_height (img st) s in
        let new_resized := calls in
        let t :=
          Image_resize_linear_sys new_resized (alloc_struct i) (alloc_data i) (img st) w h in
        match Image_resize_linear (alloc_struct i) (alloc_data i) (img st) w h with
        | Some _ =>
            (t ++ Image_free (BlkResized ptr) (BlkResizedData ptr) (Some (resized st)),
             (new_resized, S calls))
        | None => (t, (ptr, S calls))
        end
  end.

(** The system calls of the loop, with the state and the pointer in
    [resized] at [break]; [None] when the keystrokes run out and the program
    waits in [getchar]. *)
Fixpoint main_loop_sys (ins : list input) (st : main_state) (ptr calls : nat)
  : list sys * option (main_state * nat) :=
  match ins with
  | [] => ([], None)
  | i :: ins' =>
      match loop_body st i with
      | (_, Some st') =>
          let '(t, (ptr', calls')) := turn_sys (snd (draw_frame st)) i ptr calls in
          let '(t', r) := main_loop_sys ins' st' ptr' calls' in (t ++ t', r)
      | (_, None) => ([], Some (snd (draw_frame st), ptr))
      end
  end.

(** [main]: the system calls and the value returned, [None] while the
    program waits for a key.  The resize before the loop is call number 0
    of [Image_resize_linear]. *)
Definition main (w : world) : list sys * option Z :=
  if argc w <? 3 then ([], Some 1)
  else
    match framebuffer_create (w_device w) with
    | (t1, None) => (t1, Some 1)
    | (t1, Some (fd, fb0)) =>
        match Image_load (w_alloc_image w) (w_decoded w) with
        | (t2, None) => (t1 ++ t2 ++ framebuffer_destroy (Some (fd, fb0)), Some 1)
        | (t2, Some img0) =>
            let scale := f32_mul (fit_scale fb0 img0) f32_0_8 in
            let t3 :=
              Image_resize_linear_sys 0 (w_alloc_struct w) (w_alloc_data w) img0
                (resized_width img0 scale) (resized_height img0 scale) in
            match main_init fb0 img0 (w_alloc_struct w) (w_alloc_data w) with
            | None =>
                (t1 ++ t2 ++ t3 ++ Image_free BlkImage BlkImageData (Some img0)
                 ++ framebuffer_destroy (Some (fd, fb0)), Some 1)
            | Some st0 =>
                let t4 := [Tcsetattr (raw_lflag (w_lflag w))] in
                match main_loop_sys (w_keys w) st0 0 1 with
                | (t5, None) => (t1 ++ t2 ++ t3 ++ t4 ++ t5, None)
                | (t5, Some (st, ptr)) =>
                    (t1 ++ t2 ++ t3 ++ t4 ++ t5
                     ++ Image_free BlkImage BlkImageData (Some (img st))
                     ++ Image_free (BlkResized ptr) (BlkResizedData ptr) (Some (resized st))
                     ++ framebuffer_destroy (Some (fd, fb st))
                     ++ [Tcsetattr (w_lflag w)], Some 0)
                end
            end
        end
    end.

(* ================================================================== *)
(** * Part II: the vocabulary of the statements                        *)
(* ================================================================== *)

(** ** Values of binary32 floats, as rationals *)

(** [2^e] as a rational, for any integer [e]. *)
Definition pow2 (e : Z) : Q := (2 ^ e)%Q.

(** Where [v] lies in the interval [[m * 2^e, (m + 1) * 2^e)], as
    [SpecFloat] records it: on the lower end, below, at or above the middle. *)
Definition located (m e : Z) (l : location) (v : Q) : Prop :=
  match l with
  | loc_Exact => (v == inject_Z m * pow2 e)%Q
  | loc_Inexact Lt =>
      (inject_Z m * pow2 e < v /\ v < (inject_Z m + (1 # 2)) * pow2 e)%Q
  | loc_Inexact Eq => (v == (inject_Z m + (1 # 2)) * pow2 e)%Q
  | loc_Inexact Gt =>
      ((inject_Z m + (1 # 2)) * pow2 e < v /\ v < (inject_Z m + 1) * pow2 e)%Q
  end.

(** [f] carries the sign [sx] and the magnitude [q]; an infinity stands for
    a magnitude of at least [2^emax]. *)
Definition has_value (emax : Z) (sx : bool) (q : Q) (f : spec_float) : Prop :=
  match f with
  | S754_zero s => s = sx /\ (q == 0)%Q
  | S754_finite s m e => s = sx /\ (q == inject_Z (Zpos m) * pow2 e)%Q
  | S754_infinity s => s = sx /\ (pow2 emax <= q)%Q
  | S754_nan => False
  end.

(** The value of a finite float (0 for the others). *)
Definition F2Q (f : spec_float) : Q :=
  match f with
  | S754_finite s m e => (inject_Z (cond_Zopp s (Zpos m)) * pow2 e)%Q
  | _ => 0%Q
  end.

Definition is_nan (f : spec_float) : bool :=
  match f with S754_nan => true | _ => false end.

Definition is_pos_finite (f : spec_float) : bool :=
  match f with S754_finite false _ _ => true | _ => false end.

(** [f] is the round-to-nearest-even image, with sign [sx], of the
    magnitude [v >= 0]: some integer [mr] at the exponent [e'] of the
    format is within half a unit of [v], and [f] carries [mr * 2^e']. *)
Definition rounded (prec emax : Z) (sx : bool) (v : Q) (f : spec_float) : Prop :=
  exists mr e' : Z,
    emin prec emax <= e'
    /\ 0 <= mr <= 2 ^ prec
    /\ (v - (1 # 2) * pow2 e' <= inject_Z mr * pow2 e')%Q
    /\ (inject_Z mr * pow2 e' <= v + (1 # 2) * pow2 e')%Q
    /\ ((pow2 (prec - 1 + e') <= v)%Q \/ e' = emin prec emax)
    /\ (0 <= v)%Q
    /\ valid_binary prec emax f = true
    /\ has_value emax sx (inject_Z mr * pow2 e') f.

(** A well-formed binary32 float: canonical mantissa, exponent in range. *)
Definition valid32 (f : f32) : Prop := valid_binary f32_prec f32_emax f = true.

(** Neither a NaN nor a malformed float. *)
Definition good (f : f32) : Prop := valid32 f /\ is_nan f = false.

(** A positive finite binary32 value between the two scale bounds. *)
Definition in_scale_range (f : f32) : Prop :=
  valid32 f /\ is_pos_finite f = true
  /\ (F2Q f32_0_1 <= F2Q f)%Q /\ (F2Q f <= F2Q f32_5_0)%Q.

(** ** Buffers and their layout *)

(** The three nested loops both blits share: every cell [(x, y, c)] of the
    rectangle receives [val x y c] at [idx x y c]. *)
Definition blit (idx : Z -> Z -> Z -> Z) (val : Z -> Z -> Z -> Z)
    (ys ye xs xe nc : Z) (buf : list Z) : list Z :=
  for_range ys ye
    (fun y buf =>
       for_range xs xe
         (fun x buf =>
            for_range 0 nc (fun c buf => store buf (idx x y c) (val x y c)) buf)
         buf)
    buf.

(** Row-major position of channel [c] of pixel [(x, y)]. *)
Definition cell (W B x y c : Z) : Z := (y * W + x) * B + c.

(** [z] is the value of a C [int]. *)
Definition in_int (z : Z) : Prop := INT_MIN <= z <= INT_MAX.

(** [(x, y, c)] is a cell of the rectangle the loops range over. *)
Definition in_rect (ys ye xs xe nc x y c : Z) : Prop :=
  ys <= y < ye /\ xs <= x < xe /\ 0 <= c < nc.

(** [(x, y, c)] is visited before the loops reach [(x0, y0, c0)]. *)
Definition visited (y0 x0 c0 x y c : Z) : Prop :=
  y < y0 \/ (y = y0 /\ (x < x0 \/ (x = x0 /\ c < c0))).

(** The loop invariant of [blit]: the visited cells hold their value, the
    bytes outside the rectangle are those of the initial buffer. *)
Definition blit_inv (val : Z -> Z -> Z -> Z) (W B ys ye xs xe nc : Z)
    (buf : list Z) (y0 x0 c0 : Z) (b : list Z) : Prop :=
  length b = length buf
  /\ (forall x y c, in_rect ys ye xs xe nc x y c -> visited y0 x0 c0 x y c ->
        load b (cell W B x y c) = val x y c)
  /\ (forall j, (forall x y c, in_rect ys ye xs xe nc x y c -> j <> cell W B x y c) ->
        load b j = load buf j).

(** What [framebuffer_create] establishes: a shadow buffer of
    [width * height * bpp] bytes, a size that fits an [int]. *)
Definition fb_wf (fb : framebuffer) : Prop :=
  0 <= fb_width fb /\ 0 <= fb_height fb /\ 0 <= fb_bpp fb
  /\ fb_width fb * fb_height fb * fb_bpp fb <= INT_MAX
  /\ Z.of_nat (length (buffer fb)) = fb_height fb * fb_width fb * fb_bpp fb.

(** What [Image_load] establishes: positive dimensions, 3 channels, rows
    of [width * 3] bytes, [height * stride] bytes in all. *)
Definition img_wf (img : Image) : Prop :=
  0 < img_width img /\ 0 < img_height img /\ img_bpp img = 3
  /\ img_stride img = img_width img * img_bpp img
  /\ img_width img * img_height img * img_bpp img <= INT_MAX
  /\ Z.of_nat (length (img_data img)) = img_height img * img_width img * img_bpp img.

(** The offsets are [int]s and placing the image does not overflow. *)
Definition placed (img : Image) (x_offset y_offset : Z) : Prop :=
  in_int x_offset /\ in_int y_offset
  /\ in_int (x_offset + img_width img) /\ in_int (y_offset + img_height img).

(** [(x, y)] is a device pixel the placed image covers. *)
Definition visible (fb : framebuffer) (img : Image) (x_offset y_offset x y : Z) : Prop :=
  Z.max 0 x_offset <= x < Z.min (fb_width fb) (x_offset + img_width img)
  /\ Z.max 0 y_offset <= y < Z.min (fb_height fb) (y_offset + img_height img).

(** Byte [c] of device pixel [(x, y)] and channel [c] of image pixel [(x, y)]. *)
Definition fb_byte (fb : framebuffer) (x y c : Z) : Z :=
  load (buffer fb) (cell (fb_width fb) (fb_bpp fb) x y c).
Definition img_channel (img : Image) (x y c : Z) : Z :=
  load (img_data img) (cell (img_width img) (img_bpp img) x y c).

(** A 14x1 image whose pixel [i] is the grey level [i]. *)
Definition ramp14 : Image :=
  {| img_width := 14; img_height := 1; img_bpp := 3; img_stride := 42;
     img_data :=
       [0; 0; 0; 1; 1; 1; 2; 2; 2; 3; 3; 3; 4; 4; 4; 5; 5; 5; 6; 6; 6; 7;
        7; 7; 8; 8; 8; 9; 9; 9; 10; 10; 10; 11; 11; 11; 12; 12;
        12; 13; 13; 13] |}.

(** One row of [2^24 + 4] pixels: black up to column [2^24], white from
    column [2^24 + 1] on. *)
Definition wide_row : Image :=
  {| img_width := 16777220; img_height := 1; img_bpp := 3;
     img_stride := 50331660;
     img_data := map (fun j => if j <? 50331651 then 0 else 255) (seqZ 0 50331660) |}.

(** ** The loop *)

(** The states the loop passes through, one turn at a time. *)
Inductive reachable (st0 : main_state) : main_state -> Prop :=
  | reach_init : reachable st0 st0
  | reach_step st i ev st' :
      reachable st0 st -> loop_body st i = (ev, Some st') -> reachable st0 st'.

(** Neither scale of the state is a NaN. *)
Definition scales_good (st : main_state) : Prop :=
  good (scale st) /\ good (default_scale st).

(** ** Resources held *)

Definition block_eqb (a b : block) : bool :=
  match a, b with
  | BlkFb, BlkFb | BlkBuffer, BlkBuffer | BlkImage, BlkImage
  | BlkImageData, BlkImageData => true
  | BlkResized n, BlkResized m | BlkResizedData n, BlkResizedData m => Nat.eqb n m
  | _, _ => false
  end.

Definition resource_eqb (a b : resource) : bool :=
  match a, b with
  | Heap x, Heap y => block_eqb x y
  | Descriptor x, Descriptor y => x =? y
  | Mapping x, Mapping y => x =? y
  | _, _ => false
  end.

(** [h] without its first occurrence of [r]; [None] when [r] is not there. *)
Fixpoint give_back (r : resource) (h : list resource) : option (list resource) :=
  match h with
  | [] => None
  | x :: h' =>
      if resource_eqb r x then Some h'
      else match give_back r h' with
           | Some h'' => Some (x :: h'')
           | None => None
           end
  end.

(** What is held after the calls [t], starting from [h], latest first;
    [None] when a call releases what is not held. *)
Fixpoint held (t : list sys) (h : list resource) : option (list resource) :=
  match t with
  | [] => Some h
  | Acquire r :: t' => held t' (r :: h)
  | Release r :: t' =>
      match give_back r h with
      | Some h' => held t' h'
      | None => None
      end
  | Tcsetattr _ :: t' => held t' h
  end.

(** The terminal flags after the calls [t], starting from [lflag]. *)
Fixpoint terminal (t : list sys) (lflag : Z) : Z :=
  match t with
  | [] => lflag
  | Tcsetattr l :: t' => terminal t' l
  | _ :: t' => terminal t' lflag
  end.

(** A key that is none of [r], [+], [-], [q]. *)
Definition other_key (ch : ascii) : Prop :=
  ch <> "r"%char /\ ch <> "+"%char /\ ch <> "-"%char /\ ch <> "q"%char.

(** ** Sample inputs *)

(** A 4x3 device and a 16x12 device, four bytes per pixel, shadow buffer
    cleared. *)
Definition small_fb : framebuffer :=
  {| fbp := repeat 0 48%nat; buffer := repeat 0 48%nat;
     fb_width := 4; fb_height := 3; fb_bpp := 4 |}.
Definition wide_fb : framebuffer :=
  {| fbp := repeat 0 768%nat; buffer := repeat 0 768%nat;
     fb_width := 16; fb_height := 12; fb_bpp := 4 |}.

(** A single pixel; a 2x2 image whose first pixel is pure red; a 5x5 and a
    10x10 image of one colour. *)
Definition dot : Image :=
  {| img_width := 1; img_height := 1; img_bpp := 3; img_stride := 3;
     img_data := [200; 100; 50] |}.
Definition tile2 : Image :=
  {| img_width := 2; img_height := 2; img_bpp := 3; img_stride := 6;
     img_data := [255; 0; 0; 1; 2; 3; 4; 5; 6; 7; 8; 9] |}.
Definition tile5 : Image :=
  {| img_width := 5; img_height := 5; img_bpp := 3; img_stride := 15;
     img_data := repeat 9 75%nat |}.
Definition tile10 : Image :=
  {| img_width := 10; img_height := 10; img_bpp := 3; img_stride := 30;
     img_data := repeat 9 300%nat |}.

(** The 14-pixel ramp resized to 46 pixels. *)
Definition ramp14_to_46 : Image :=
  Eval vm_compute in
    default ramp14 (Image_resize_linear true (Some (fun _ => 0)) ramp14 46 1).

(** A keystroke whose allocations succeed, and one whose pixel buffer
    cannot be allocated. *)
Definition press (ch : ascii) : input :=
  {| key := ch; alloc_struct := true; alloc_data := Some (fun _ => 0) |}.
Definition press_oom (ch : ascii) : input :=
  {| key := ch; alloc_struct := true; alloc_data := None |}.

(** [tile2] on the 4x3 device as [main] starts it (scale 1.2, shown 2x2),
    and the 10x10 image on the same device (scale 0.24, shown 2x2). *)
Definition tile2_start : main_state :=
  {| fb := small_fb; img := tile2; resized := tile2;
     default_scale := f32_1_2; scale := f32_1_2; prev_scale := f32_1_2 |}.
Definition tile10_start : main_state :=
  Eval vm_compute in
    default tile2_start (main_init small_fb tile10 true (Some (fun _ => 0))).

(** The turn of the loop that reads [+] in those states. *)
Definition tile2_plus_events : list event :=
  Eval vm_compute in fst (loop_body tile2_start (press "+")).
Definition tile2_plus : main_state :=
  Eval vm_compute in default tile2_start (snd (loop_body tile2_start (press "+"))).
Definition tile10_plus_events : list event :=
  Eval vm_compute in fst (loop_body tile10_start (press "+")).
Definition tile10_plus : main_state :=
  Eval vm_compute in default tile10_start (snd (loop_body tile10_start (press "+"))).

(** A 2x2 device of two bytes a pixel, whose shadow buffer holds what the
    allocator left there. *)
Definition low_fb : framebuffer :=
  {| fbp := repeat 0 8%nat; buffer := [11; 12; 13; 14; 15; 16; 17; 18];
     fb_width := 2; fb_height := 2; fb_bpp := 2 |}.

(** [tile2] on the low-depth device. *)
Definition low_start : main_state :=
  {| fb := low_fb; img := tile2; resized := tile2;
     default_scale := f32_0_8; scale := f32_0_8; prev_scale := f32_0_8 |}.


(** The turn of the loop that reads [-] after the [+] on [tile2]. *)
Definition tile2_back_events : list event :=
  Eval vm_compute in fst (loop_body tile2_plus (press "-")).
Definition tile2_back : main_state :=
  Eval vm_compute in default tile2_plus (snd (loop_body tile2_plus (press "-"))).

(** [tile2] on the 4x3 device at the largest scale. *)
Definition tile2_max : main_state :=
  {| fb := small_fb; img := tile2; resized := tile2;
     default_scale := f32_1_2; scale := f32_5_0; prev_scale := f32_5_0 |}.

(** An image of one row, 429496721 pixels wide, whatever its pixels. *)
Definition strip (data : list Z) : Image :=
  {| img_width := 429496721; img_height := 1; img_bpp := 3; img_stride := 1288490163;
     img_data := data |}.

(** A 4x3 device of 32 bits a pixel that answers every call, and a run of
    the program on it with the 2x2 image. *)
Definition demo_device : device :=
  {| dev_alloc := true; dev_open := Some 3;
     dev_vinfo := Some {| xres := 4; yres := 3; bits_per_pixel := 32 |};
     dev_mmap := Some (fun _ => 0); dev_alloc_buffer := Some (fun _ => 0) |}.
Definition demo_world (keys : list input) : world :=
  {| argc := 3; w_device := demo_device; w_alloc_image := true;
     w_decoded := Some (2, 2, img_data tile2);
     w_alloc_struct := true; w_alloc_data := Some (fun _ => 0);
     w_lflag := 35387; w_keys := keys |}.
Definition demo_quit_calls : list sys :=
  Eval vm_compute in fst (main (demo_world [press "+"; press "q"])).
Definition demo_wait_calls : list sys :=
  Eval vm_compute in fst (main (demo_world [press "+"])).

(* ================================================================== *)
(** * Part III: lemmas                                                 *)
(* ================================================================== *)

(** ** Rounding to nearest even, from [SpecFloat] *)

Lemma pow2_pos e : (0 < pow2 e)%Q.
Proof. apply Qpower_0_lt. reflexivity. Qed.

Lemma pow2_add a b : (pow2 (a + b) == pow2 a * pow2 b)%Q.
Proof. unfold pow2. apply Qpower_plus. intro H. discriminate H. Qed.

Lemma pow2_succ e : (pow2 (e + 1) == 2 * pow2 e)%Q.
Proof. rewrite pow2_add. unfold pow2 at 2. simpl. lra. Qed.

Lemma pow2_inject n : 0 <= n -> (pow2 n == inject_Z (2 ^ n))%Q.
Proof. intros H. unfold pow2. rewrite Zpower_Qpower by exact H. reflexivity. Qed.

Lemma pow2_le a b : a <= b -> (pow2 a <= pow2 b)%Q.
Proof.
  intros H. replace b with (a + (b - a)) by lia.
  rewrite pow2_add, (pow2_inject (b - a)) by lia.
  assert (0 < 2 ^ (b - a)) by (apply Z.pow_pos_nonneg; lia).
  assert (1 <= inject_Z (2 ^ (b - a)))%Q.
  { change 1%Q with (inject_Z 1). rewrite <- Zle_Qle. lia. }
  pose proof (pow2_pos a). nra.
Qed.

Lemma digits2_size p : digits2_pos p = Pos.size p.
Proof. induction p; simpl; congruence. Qed.

Lemma Zdigits2_bounds m :
  0 < m -> 2 ^ (Zdigits2 m - 1) <= m < 2 ^ Zdigits2 m.
Proof.
  destruct m as [|p|p]; try lia. intros _. simpl Zdigits2.
  rewrite digits2_size.
  pose proof (Pos.size_gt p) as Hgt. pose proof (Pos.size_le p) as Hle.
  assert (Hs : Zpos (Pos.size p) = Z.succ (Zpos (Pos.size p) - 1)) by lia.
  split.
  - apply Pos2Z.pos_le_pos in Hle. rewrite Pos2Z.inj_pow in Hle.
    rewrite Hs, Z.pow_succ_r in Hle by lia. lia.
  - apply Pos2Z.pos_lt_pos in Hgt. rewrite Pos2Z.inj_pow in Hgt. exact Hgt.
Qed.

Lemma Zdigits2_nonneg m : 0 <= Zdigits2 m.
Proof. destruct m; simpl; lia. Qed.

Lemma Zdigits2_unique m d :
  0 < m -> 2 ^ (d - 1) <= m < 2 ^ d -> Zdigits2 m = d.
Proof.
  intros Hm [Hlo Hhi]. pose proof (Zdigits2_bounds m Hm) as [Blo Bhi].
  pose proof (Zdigits2_nonneg m).
  destruct (Z.lt_trichotomy (Zdigits2 m) d) as [Hlt | [Heq | Hgt]]; [|exact Heq|].
  - assert (2 ^ Zdigits2 m <= 2 ^ (d - 1)) by (apply Z.pow_le_mono_r; lia). lia.
  - assert (d < 0 \/ 0 <= d) as [Hd | Hd] by lia.
    + rewrite (Z.pow_neg_r 2 d) in Hhi by lia. lia.
    + assert (2 ^ d <= 2 ^ (Zdigits2 m - 1)) by (apply Z.pow_le_mono_r; lia). lia.
Qed.

Lemma loc_of_shr_record_of_loc m l :
  loc_of_shr_record (shr_record_of_loc m l) = l.
Proof. destruct l as [|[]]; reflexivity. Qed.

Lemma shr_m_record_of_loc m l : shr_m (shr_record_of_loc m l) = m.
Proof. destruct l as [|[]]; reflexivity. Qed.

Lemma inject_Z_xO p : (inject_Z (Zpos p~0) == 2 * inject_Z (Zpos p))%Q.
Proof. rewrite Pos2Z.inj_xO, inject_Z_mult. reflexivity. Qed.

Lemma inject_Z_xI p : (inject_Z (Zpos p~1) == 2 * inject_Z (Zpos p) + 1)%Q.
Proof. rewrite Pos2Z.inj_xI, inject_Z_plus, inject_Z_mult. reflexivity. Qed.

Lemma shr_1_located mrs e v :
  0 <= shr_m mrs ->
  located (shr_m mrs) e (loc_of_shr_record mrs) v ->
  located (shr_m (shr_1 mrs)) (e + 1) (loc_of_shr_record (shr_1 mrs)) v
  /\ shr_m (shr_1 mrs) = shr_m mrs / 2.
Proof.
  destruct mrs as [m r s]. simpl shr_m. intros Hm Hl.
  pose proof (pow2_pos e) as Hu. pose proof (pow2_succ e) as Hs.
  destruct m as [|p|p]; [| |lia].
  - split; [|reflexivity].
    destruct r, s; simpl in *; unfold located in *; rewrite Hs;
      change (inject_Z 0) with 0%Q in *; lra.
  - destruct p as [p|p|].
    + split; [|cbn [shr_m shr_1]; rewrite Pos2Z.inj_xI; apply Z.div_unique with 1; lia].
      pose proof (inject_Z_xI p) as Hp.
      destruct r, s; simpl in *; unfold located in *; rewrite Hs; rewrite Hp in Hl; nra.
    + split; [|cbn [shr_m shr_1]; rewrite Pos2Z.inj_xO; apply Z.div_unique with 0; lia].
      pose proof (inject_Z_xO p) as Hp.
      destruct r, s; simpl in *; unfold located in *; rewrite Hs; rewrite Hp in Hl; nra.
    + split; [|reflexivity].
      destruct r, s; simpl in *; unfold located in *; rewrite Hs;
        change (inject_Z 1) with 1%Q in *; change (inject_Z 0) with 0%Q; lra.
Qed.

Lemma iter_pos_shr_located p : forall mrs e v,
  0 <= shr_m mrs ->
  located (shr_m mrs) e (loc_of_shr_record mrs) v ->
  let mrs' := SpecFloat.iter_pos shr_1 p mrs in
  located (shr_m mrs') (e + Zpos p) (loc_of_shr_record mrs') v
  /\ shr_m mrs' = shr_m mrs / 2 ^ Zpos p.
Proof.
  induction p as [p IH|p IH|]; intros mrs e v Hm Hl; simpl SpecFloat.iter_pos.
  - destruct (shr_1_located mrs e v Hm Hl) as [L1 M1].
    assert (H1 : 0 <= shr_m (shr_1 mrs)) by (rewrite M1; apply Z.div_pos; lia).
    destruct (IH _ _ _ H1 L1) as [L2 M2].
    assert (H2 : 0 <= shr_m (SpecFloat.iter_pos shr_1 p (shr_1 mrs))).
    { rewrite M2. apply Z.div_pos; [lia|]. apply Z.pow_pos_nonneg; lia. }
    destruct (IH _ _ _ H2 L2) as [L3 M3].
    split.
    + replace (e + Zpos p~1) with (e + 1 + Zpos p + Zpos p) by lia. exact L3.
    + rewrite M3, M2, M1.
      rewrite !Z.div_div by (try apply Z.pow_pos_nonneg; lia).
      f_equal. rewrite Pos2Z.inj_xI.
      rewrite <- Z.pow_add_r, <- Z.pow_succ_r by lia. f_equal. lia.
  - destruct (IH _ _ _ Hm Hl) as [L2 M2].
    assert (H2 : 0 <= shr_m (SpecFloat.iter_pos shr_1 p mrs)).
    { rewrite M2. apply Z.div_pos; [lia|]. apply Z.pow_pos_nonneg; lia. }
    destruct (IH _ _ _ H2 L2) as [L3 M3].
    split.
    + replace (e + Zpos p~0) with (e + Zpos p + Zpos p) by lia. exact L3.
    + rewrite M3, M2.
      rewrite !Z.div_div by (try apply Z.pow_pos_nonneg; lia).
      f_equal. rewrite Pos2Z.inj_xO.
      rewrite <- Z.pow_add_r by lia. f_equal. lia.
  - apply shr_1_located; assumption.
Qed.

Lemma shr_located mrs e n v :
  0 <= shr_m mrs -> 0 <= n ->
  located (shr_m mrs) e (loc_of_shr_record mrs) v ->
  let '(mrs', e') := shr mrs e n in
  e' = e + n
  /\ located (shr_m mrs') e' (loc_of_shr_record mrs') v
  /\ shr_m mrs' = shr_m mrs / 2 ^ n.
Proof.
  intros Hm Hn Hl. destruct n as [|p|p]; [| |lia]; simpl.
  - rewrite Z.add_0_r, Z.div_1_r. auto.
  - destruct (iter_pos_shr_located p mrs e v Hm Hl) as [L M]. auto.
Qed.

Lemma round_nearest_even_near m l e v :
  located m e l v ->
  let mr := round_nearest_even m l in
  m <= mr <= m + 1
  /\ (v - (1 # 2) * pow2 e <= inject_Z mr * pow2 e)%Q
  /\ (inject_Z mr * pow2 e <= v + (1 # 2) * pow2 e)%Q.
Proof.
  intros Hl. pose proof (pow2_pos e) as Hu.
  assert (Hi : (inject_Z (m + 1) == inject_Z m + 1)%Q)
    by (rewrite inject_Z_plus; reflexivity).
  destruct l as [|[]]; cbn [located round_nearest_even] in *; cbv zeta.
  - split; [lia|]. lra.
  - destruct (Z.even m); (split; [lia|]); try rewrite Hi; lra.
  - split; [lia|]. lra.
  - split; [lia|]. rewrite Hi. lra.
Qed.

Lemma shr_nop mrs e n : n <= 0 -> shr mrs e n = (mrs, e).
Proof. destruct n; try reflexivity. lia. Qed.

Lemma Zdigits2_le_prec m p : 0 < m -> m < 2 ^ p -> Zdigits2 m <= p.
Proof.
  intros Hm Hlt. pose proof (Zdigits2_bounds m Hm) as [Blo _].
  destruct (Z_lt_le_dec p (Zdigits2 m)) as [H|H]; [|exact H].
  assert (2 ^ p <= 2 ^ (Zdigits2 m - 1)).
  { apply Z.pow_le_mono_r; [lia|]. lia. }
  lia.
Qed.

Section Round.
Variables prec emax : Z.
Hypothesis Hprec : 0 < prec.
Hypothesis Hemax : prec < emax.

Lemma fexp_ge_emin x : (emin prec emax) <= fexp prec emax x.
Proof. unfold SpecFloat.fexp. lia. Qed.

Lemma fexp_mono x y : x <= y -> fexp prec emax x <= fexp prec emax y.
Proof. unfold SpecFloat.fexp. lia. Qed.

Lemma emin_le_emax : (emin prec emax) <= emax - prec.
Proof. unfold SpecFloat.emin. lia. Qed.

Lemma shr_fexp_spec m e l v :
  0 <= m -> e <= fexp prec emax (Zdigits2 m + e) -> located m e l v ->
  let '(mrs, e') := shr_fexp prec emax m e l in
  e' = fexp prec emax (Zdigits2 m + e)
  /\ located (shr_m mrs) e' (loc_of_shr_record mrs) v
  /\ shr_m mrs = m / 2 ^ (e' - e).
Proof.
  intros Hm He Hl. unfold shr_fexp.
  pose proof (shr_located (shr_record_of_loc m l) e
                (fexp prec emax (Zdigits2 m + e) - e) v) as H.
  rewrite loc_of_shr_record_of_loc, shr_m_record_of_loc in H.
  specialize (H Hm ltac:(lia) Hl).
  destruct (shr _ _ _) as [mrs e']. destruct H as (E & L & M).
  assert (e' = fexp prec emax (Zdigits2 m + e)) by lia. subst e'.
  repeat split; try assumption. rewrite M. do 2 f_equal. lia.
Qed.

(** After the alignment shift the mantissa has at most [prec] digits, and
    exactly [prec] unless the exponent is the smallest one. *)
Lemma shifted_mantissa_bounds m e :
  0 <= m -> e <= fexp prec emax (Zdigits2 m + e) ->
  let e' := fexp prec emax (Zdigits2 m + e) in
  let m1 := m / 2 ^ (e' - e) in
  0 <= m1 < 2 ^ prec /\ (2 ^ (prec - 1) <= m1 \/ e' = (emin prec emax)).
Proof.
  intros Hm He e' m1.
  assert (Hn : 0 <= e' - e) by (unfold e'; lia).
  assert (Hpn : 0 < 2 ^ (e' - e)) by (apply Z.pow_pos_nonneg; lia).
  assert (Hm0 : m = 0 \/ 0 < m) by lia. destruct Hm0 as [-> | Hpos].
  - unfold m1. rewrite Z.div_0_l by lia.
    split; [split; [lia | apply Z.pow_pos_nonneg; lia]|].
    right. unfold e' in *. simpl Zdigits2 in *. unfold SpecFloat.fexp in *. lia.
  - pose proof (Zdigits2_bounds m Hpos) as [Blo Bhi].
    set (d := Zdigits2 m) in *.
    assert (Hd : 0 < d).
    { destruct (Z_lt_le_dec 0 d); [assumption|].
      assert (2 ^ d <= 2 ^ 0) by (apply Z.pow_le_mono_r; lia). simpl in *. lia. }
    assert (Hge : d + e - prec <= e') by (unfold e', SpecFloat.fexp; lia).
    split; [split|].
    + apply Z.div_pos; lia.
    + apply Z.div_lt_upper_bound; [lia|].
      rewrite <- Z.pow_add_r by lia.
      assert (2 ^ d <= 2 ^ (e' - e + prec)) by (apply Z.pow_le_mono_r; lia). lia.
    + assert (Hc : e' = d + e - prec \/ e' = (emin prec emax))
        by (unfold e', SpecFloat.fexp; lia).
      destruct Hc as [Hc | Hc]; [left | right; exact Hc].
      apply Z.div_le_lower_bound; [lia|].
      rewrite <- Z.pow_add_r by lia.
      replace (e' - e + (prec - 1)) with (d - 1) by lia. exact Blo.
Qed.

Lemma pow2_mul_inject k e : 0 <= k -> (pow2 (k + e) == inject_Z (2 ^ k) * pow2 e)%Q.
Proof. intros Hk. rewrite pow2_add, pow2_inject by exact Hk. reflexivity. Qed.

Theorem binary_round_aux_correct sx m e l v :
  0 <= m -> e <= fexp prec emax (Zdigits2 m + e) -> located m e l v ->
  let e' := fexp prec emax (Zdigits2 m + e) in
  exists mr : Z,
    0 <= mr <= 2 ^ prec
    /\ (v - (1 # 2) * pow2 e' <= inject_Z mr * pow2 e')%Q
    /\ (inject_Z mr * pow2 e' <= v + (1 # 2) * pow2 e')%Q
    /\ ((pow2 (prec - 1 + e') <= v)%Q \/ e' = (emin prec emax))
    /\ ((0 <= v)%Q)
    /\ valid_binary prec emax (binary_round_aux prec emax sx m e l) = true
    /\ has_value emax sx (inject_Z mr * pow2 e') (binary_round_aux prec emax sx m e l).
Proof.
  intros Hm He Hl e'.
  pose proof (shr_fexp_spec m e l v Hm He Hl) as H1.
  pose proof (shifted_mantissa_bounds m e Hm He) as H2.
  unfold binary_round_aux.
  destruct (shr_fexp prec emax m e l) as [mrs1 e1].
  destruct H1 as (E1 & L1 & M1). fold e' in E1, H2. subst e1.
  cbv zeta in H2. rewrite <- M1 in H2. destruct H2 as [[B0 B1] BN].
  set (m1 := shr_m mrs1) in *. set (l1 := loc_of_shr_record mrs1) in *.
  pose proof (round_nearest_even_near m1 l1 e' v L1) as (R1 & R2 & R3).
  set (mr := round_nearest_even m1 l1) in *.
  pose proof (pow2_pos e') as Hu.
  pose proof (fexp_ge_emin (Zdigits2 m + e)) as Hemin. fold e' in Hemin.
  pose proof emin_le_emax as Hee.
  assert (P2 : 2 ^ prec = 2 * 2 ^ (prec - 1)).
  { replace prec with (Z.succ (prec - 1)) at 1 by lia. apply Z.pow_succ_r. lia. }
  assert (Hv0 : (0 <= v)%Q).
  { assert (0 <= inject_Z m1)%Q by (change 0%Q with (inject_Z 0); rewrite <- Zle_Qle; lia).
    destruct l1 as [|[]]; cbn [located] in L1; nra. }
  assert (HN : (pow2 (prec - 1 + e') <= v)%Q \/ e' = (emin prec emax)).
  { destruct BN as [BN | BN]; [left | right; exact BN].
    rewrite pow2_mul_inject by lia.
    assert (inject_Z (2 ^ (prec - 1)) <= inject_Z m1)%Q by (rewrite <- Zle_Qle; lia).
    destruct l1 as [|[]]; cbn [located] in L1; nra. }
  exists mr. split; [lia|]. do 4 (split; [assumption|]).
  assert (Hcase : mr = 0 \/ (0 < mr < 2 ^ prec) \/ mr = 2 ^ prec) by lia.
  destruct Hcase as [Hz | [Hmid | Htop]].
  - (* rounded to zero *)
    unfold shr_fexp. rewrite Hz. cbn [Zdigits2 shr_record_of_loc].
    rewrite shr_nop by (unfold SpecFloat.fexp; lia).
    cbn. split; [reflexivity|]. split; [reflexivity|].
    change (inject_Z 0) with 0%Q. lra.
  - (* no carry *)
    assert (Hdr : Zdigits2 mr <= prec) by (apply Zdigits2_le_prec; lia).
    unfold shr_fexp. cbn [shr_record_of_loc].
    rewrite shr_nop by (unfold SpecFloat.fexp; lia).
    cbn [shr_m]. destruct mr as [|p|p] eqn:Emr; try lia.
    assert (Hcan : fexp prec emax (Zpos (digits2_pos p) + e') = e').
    { change (Zpos (digits2_pos p)) with (Zdigits2 (Zpos p)).
      destruct BN as [BN | BN].
      - rewrite (Zdigits2_unique (Zpos p) prec) by lia.
        unfold SpecFloat.fexp. lia.
      - unfold SpecFloat.fexp. lia. }
    destruct (Z.leb_spec e' (emax - prec)) as [Hle | Hgt].
    + split.
      * cbn. unfold bounded, canonical_mantissa. rewrite Hcan, Z.eqb_refl.
        apply Z.leb_le in Hle. rewrite Hle. reflexivity.
      * cbn. split; reflexivity.
    + split; [reflexivity|]. cbn. split; [reflexivity|].
      destruct BN as [BN | BN]; [|lia].
      assert (Hp : (pow2 emax <= pow2 (prec - 1 + e'))%Q) by (apply pow2_le; lia).
      rewrite pow2_mul_inject in Hp by lia.
      assert (inject_Z (2 ^ (prec - 1)) <= inject_Z (Zpos p))%Q
        by (rewrite <- Zle_Qle; lia).
      nra.
  - (* carry into the next binade *)
    assert (Hdr : Zdigits2 mr = prec + 1).
    { apply Zdigits2_unique; [lia|]. rewrite Htop.
      replace (prec + 1 - 1) with prec by lia. split; [lia|].
      apply Z.pow_lt_mono_r; lia. }
    unfold shr_fexp. rewrite Hdr.
    replace (fexp prec emax (prec + 1 + e') - e') with 1 by (unfold SpecFloat.fexp; lia).
    cbn [shr SpecFloat.iter_pos shr_record_of_loc].
    pose proof (shr_1_located {| shr_m := mr; shr_r := false; shr_s := false |}
                  e' (inject_Z mr * pow2 e')) as Hs.
    cbn [shr_m loc_of_shr_record located] in Hs.
    specialize (Hs ltac:(lia) ltac:(reflexivity)). destruct Hs as [_ Hs].
    rewrite Hs. rewrite Htop, P2.
    replace (2 * 2 ^ (prec - 1) / 2) with (2 ^ (prec - 1))
      by (symmetry; rewrite Z.mul_comm; apply Z.div_mul; lia).
    assert (Hpp : 0 < 2 ^ (prec - 1)) by (apply Z.pow_pos_nonneg; lia).
    destruct (2 ^ (prec - 1)) as [|q|q] eqn:Eq; try lia.
    assert (Hval : (inject_Z (2 * Zpos q) * pow2 e' == inject_Z (Zpos q) * pow2 (e' + 1))%Q).
    { rewrite pow2_succ, inject_Z_mult. change (inject_Z 2) with 2%Q. ring. }
    assert (Hcan : fexp prec emax (Zpos (digits2_pos q) + (e' + 1)) = e' + 1).
    { change (Zpos (digits2_pos q)) with (Zdigits2 (Zpos q)).
      rewrite (Zdigits2_unique (Zpos q) prec).
      - unfold SpecFloat.fexp. lia.
      - lia.
      - rewrite <- Eq. split; [lia|]. apply Z.pow_lt_mono_r; lia. }
    destruct (Z.leb_spec (e' + 1) (emax - prec)) as [Hle | Hgt].
    + split.
      * cbn. unfold bounded, canonical_mantissa. rewrite Hcan, Z.eqb_refl.
        apply Z.leb_le in Hle. rewrite Hle. reflexivity.
      * cbn. split; [reflexivity|]. exact Hval.
    + split; [reflexivity|]. cbn. split; [reflexivity|].
      rewrite Hval, <- Eq.
      rewrite <- pow2_mul_inject by lia. apply pow2_le. lia.
Qed.
End Round.

Lemma Q_int_le a b : (inject_Z a <= inject_Z b + (1 # 2))%Q -> a <= b.
Proof.
  intros H. destruct (Z_le_gt_dec a b) as [Hle | Hgt]; [exact Hle|].
  assert (H1 : (inject_Z (b + 1) <= inject_Z a)%Q) by (rewrite <- Zle_Qle; lia).
  rewrite inject_Z_plus in H1. change (inject_Z 1) with 1%Q in H1. lra.
Qed.

Lemma Qmul_pos_pos a b : (0 < a -> 0 < b -> 0 < a * b)%Q.
Proof. intros. nra. Qed.

Lemma Qmul_cancel_lt a b c : (0 < c -> a * c < b * c -> a < b)%Q.
Proof. intros. nra. Qed.

Lemma Qmul_cancel_le a b c : (0 < c -> a * c <= b * c -> a <= b)%Q.
Proof. intros. nra. Qed.

Lemma Qmul_cancel_eq a b c : (0 < c -> a * c == b * c -> a == b)%Q.
Proof. intros. nra. Qed.

(** Where [v = (K + R/M) u] lies between [K u] and [(K+1) u]. *)
Lemma fraction_cases (K M R u v : Q) :
  (0 < M)%Q -> (0 < u)%Q -> (v * M == (K * M + R) * u)%Q ->
  ((R == 0 -> v == K * u)
   /\ (0 < R -> 2 * R < M -> K * u < v /\ v < (K + (1 # 2)) * u)
   /\ (2 * R == M -> v == (K + (1 # 2)) * u)
   /\ (M < 2 * R -> R < M -> (K + (1 # 2)) * u < v /\ v < (K + 1) * u))%Q.
Proof.
  intros HM Hu Hv. repeat split.
  - intros HR. apply (Qmul_cancel_eq _ _ M HM). rewrite Hv, HR. ring.
  - apply (Qmul_cancel_lt _ _ M HM). rewrite Hv.
    pose proof (Qmul_pos_pos R u H Hu). lra.
  - apply (Qmul_cancel_lt _ _ M HM). rewrite Hv.
    pose proof (Qmul_pos_pos (M - 2 * R) u ltac:(lra) Hu). lra.
  - intros HR. apply (Qmul_cancel_eq _ _ M HM). rewrite Hv, <- HR. ring.
  - apply (Qmul_cancel_lt _ _ M HM). rewrite Hv.
    pose proof (Qmul_pos_pos (2 * R - M) u ltac:(lra) Hu). lra.
  - apply (Qmul_cancel_lt _ _ M HM). rewrite Hv.
    pose proof (Qmul_pos_pos (M - R) u ltac:(lra) Hu). lra.
Qed.

Lemma new_location_located m2 q r e v :
  0 < m2 -> 0 <= r < m2 ->
  (v * inject_Z m2 == (inject_Z q * inject_Z m2 + inject_Z r) * pow2 e)%Q ->
  located q e (new_location m2 r) v.
Proof.
  intros Hm2 Hr Hv. pose proof (pow2_pos e) as Hu.
  assert (Qm2 : (0 < inject_Z m2)%Q) by (change 0%Q with (inject_Z 0); rewrite <- Zlt_Qlt; lia).
  destruct (fraction_cases _ _ _ _ _ Qm2 Hu Hv) as (C0 & C1 & C2 & C3).
  assert (Hlt : forall a b, a < b -> (inject_Z a < inject_Z b)%Q)
    by (intros; rewrite <- Zlt_Qlt; assumption).
  assert (H2r : (2 * inject_Z r == inject_Z (2 * r))%Q)
    by (rewrite inject_Z_mult; reflexivity).
  assert (HR : r = 0 -> (inject_Z r == 0)%Q) by (intros ->; reflexivity).
  assert (HR' : r <> 0 -> (0 < inject_Z r)%Q) by (intros; apply (Hlt 0 r); lia).
  unfold new_location.
  destruct (Z.even m2) eqn:Hev; unfold new_location_even, new_location_odd;
    (destruct (Z.eqb_spec r 0) as [Hr0 | Hr0];
     [cbn [located]; apply C0, HR, Hr0 | specialize (HR' Hr0)]).
  - destruct (2 * r ?= m2) eqn:Hc; cbn [located].
    + apply Z.compare_eq in Hc. apply C2. rewrite H2r, Hc. reflexivity.
    + rewrite Z.compare_lt_iff in Hc. apply C1; [exact HR'|]. rewrite H2r. apply Hlt, Hc.
    + apply Z.compare_gt_iff in Hc. apply C3; [rewrite H2r|]; apply Hlt; lia.
  - assert (Hodd : 2 * r <> m2).
    { intros <-. rewrite Z.even_mul in Hev. discriminate Hev. }
    destruct (2 * r + 1 ?= m2) eqn:Hc; cbn [located].
    + apply Z.compare_eq in Hc. apply C1; [exact HR'|]. rewrite H2r. apply Hlt. lia.
    + rewrite Z.compare_lt_iff in Hc. apply C1; [exact HR'|]. rewrite H2r. apply Hlt. lia.
    + apply Z.compare_gt_iff in Hc. apply C3; [rewrite H2r|]; apply Hlt; lia.
Qed.

Lemma rounded_Qeq prec emax sx v v' f :
  (v == v')%Q -> rounded prec emax sx v f -> rounded prec emax sx v' f.
Proof.
  intros E (mr & e' & H1 & H2 & H3 & H4 & H5 & H6 & H7).
  exists mr, e'. rewrite <- E. tauto.
Qed.

Section Operations.
Variables prec emax : Z.
Hypothesis Hprec : 0 < prec.
Hypothesis Hemax : prec < emax.

Lemma binary_round_aux_rounded sx m e l v :
  0 <= m -> e <= fexp prec emax (Zdigits2 m + e) -> located m e l v ->
  rounded prec emax sx v (binary_round_aux prec emax sx m e l).
Proof.
  intros Hm He Hl.
  destruct (binary_round_aux_correct prec emax Hprec Hemax sx m e l v Hm He Hl)
    as (mr & H1 & H2 & H3 & H4 & H5 & H6 & H7).
  exists mr, (fexp prec emax (Zdigits2 m + e)).
  split; [apply fexp_ge_emin|]. tauto.
Qed.

Lemma canonical_digits m e :
  canonical_mantissa prec emax m e = true ->
  Zdigits2 (Zpos m) <= prec
  /\ (Zdigits2 (Zpos m) = prec \/ e = emin prec emax)
  /\ emin prec emax <= e.
Proof.
  unfold canonical_mantissa. intros H. apply Z.eqb_eq in H.
  change (Zpos (digits2_pos m)) with (Zdigits2 (Zpos m)) in H.
  unfold fexp in H. lia.
Qed.

Lemma bounded_canonical m e :
  bounded prec emax m e = true ->
  canonical_mantissa prec emax m e = true /\ e <= emax - prec.
Proof.
  unfold bounded. intros H. apply andb_true_iff in H. destruct H as [H1 H2].
  apply Z.leb_le in H2. auto.
Qed.

Lemma Zdigits2_mul_ge a b :
  0 < a -> 0 < b -> Zdigits2 a + Zdigits2 b - 1 <= Zdigits2 (a * b).
Proof.
  intros Ha Hb.
  pose proof (Zdigits2_bounds a Ha) as [A1 A2].
  pose proof (Zdigits2_bounds b Hb) as [B1 B2].
  pose proof (Zdigits2_bounds (a * b) ltac:(lia)) as [C1 C2].
  assert (0 < Zdigits2 a).
  { destruct a; simpl; lia. }
  assert (0 < Zdigits2 b).
  { destruct b; simpl; lia. }
  destruct (Z_lt_le_dec (Zdigits2 (a * b)) (Zdigits2 a + Zdigits2 b - 1)) as [Hlt|]; [|lia].
  assert (2 ^ Zdigits2 (a * b) <= 2 ^ (Zdigits2 a - 1 + (Zdigits2 b - 1)))
    by (apply Z.pow_le_mono_r; lia).
  rewrite Z.pow_add_r in * by lia.
  assert (2 ^ (Zdigits2 a - 1) * 2 ^ (Zdigits2 b - 1) <= a * b) by nia.
  lia.
Qed.

Lemma SFmul_rounded sx mx ex sy my ey :
  bounded prec emax mx ex = true -> bounded prec emax my ey = true ->
  rounded prec emax (xorb sx sy)
    (inject_Z (Zpos mx) * pow2 ex * (inject_Z (Zpos my) * pow2 ey))%Q
    (SFmul prec emax (S754_finite sx mx ex) (S754_finite sy my ey)).
Proof.
  intros Bx By. cbn [SFmul].
  apply bounded_canonical in Bx, By. destruct Bx as [Cx _], By as [Cy _].
  apply canonical_digits in Cx, Cy.
  apply binary_round_aux_rounded; [lia | |].
  - pose proof (Zdigits2_mul_ge (Zpos mx) (Zpos my) ltac:(lia) ltac:(lia)) as Hd.
    change (Zpos (mx * my)) with (Zpos mx * Zpos my).
    assert (0 < Zdigits2 (Zpos mx)) by (simpl; lia).
    assert (0 < Zdigits2 (Zpos my)) by (simpl; lia).
    unfold fexp, emin in *. lia.
  - cbn [located]. rewrite Pos2Z.inj_mul, inject_Z_mult, pow2_add. ring.
Qed.

Lemma SFdiv_core_binary_spec mx ex my ey v :
  (v * (inject_Z (Zpos my) * pow2 ey) == inject_Z (Zpos mx) * pow2 ex)%Q ->
  let '(q, e', l) := SFdiv_core_binary prec emax (Zpos mx) ex (Zpos my) ey in
  0 <= q /\ e' <= fexp prec emax (Zdigits2 q + e') /\ located q e' l v.
Proof.
  intros Hv. unfold SFdiv_core_binary.
  set (d1 := Zdigits2 (Zpos mx)). set (d2 := Zdigits2 (Zpos my)).
  set (e' := Z.min (fexp prec emax (d1 + ex - (d2 + ey))) (ex - ey)).
  set (s := ex - ey - e').
  assert (Hs : 0 <= s) by (unfold s, e'; lia).
  set (m' := match s with Zpos _ => Z.shiftl (Zpos mx) s | Z0 => Zpos mx | Zneg _ => 0 end).
  assert (Hm' : m' = Zpos mx * 2 ^ s).
  { unfold m'. destruct s as [|p|p] eqn:Es; [simpl; lia | | lia].
    apply Z.shiftl_mul_pow2. lia. }
  clearbody m'. subst m'.
  pose proof (Z_div_mod (Zpos mx * 2 ^ s) (Zpos my) ltac:(lia)) as Hdm.
  destruct (Z.div_eucl (Zpos mx * 2 ^ s) (Zpos my)) as [q r].
  destruct Hdm as [Hdm Hr].
  assert (Hps : 0 < 2 ^ s) by (apply Z.pow_pos_nonneg; lia).
  assert (Hq : 0 <= q) by nia.
  split; [exact Hq|]. split.
  - (* alignment *)
    destruct (Z_le_gt_dec e' (emin prec emax)) as [Hle | Hgt].
    + pose proof (fexp_ge_emin prec emax (Zdigits2 q + e')). lia.
    + set (D := d1 + ex - (d2 + ey)) in *.
      assert (HD : fexp prec emax D = D - prec) by (unfold fexp in *; unfold e' in *; lia).
      assert (Hk : 0 <= D - e' - 1) by (unfold e' in *; lia).
      pose proof (Zdigits2_bounds (Zpos mx) ltac:(lia)) as [A1 A2].
      pose proof (Zdigits2_bounds (Zpos my) ltac:(lia)) as [B1 B2].
      fold d1 in A1, A2. fold d2 in B1, B2.
      assert (Hd1 : 0 < d1) by (unfold d1; simpl; lia).
      assert (Hd2 : 0 < d2) by (unfold d2; simpl; lia).
      assert (Hqge : 2 ^ (D - e' - 1) <= q).
      { assert (Hx : 2 ^ (D - e' - 1) * 2 ^ d2 = 2 ^ (d1 - 1) * 2 ^ s).
        { rewrite <- !Z.pow_add_r by lia. f_equal. unfold D, s. lia. }
        assert (Hy : 2 ^ (D - e' - 1) * Zpos my < (q + 1) * Zpos my).
        { assert (0 < 2 ^ (D - e' - 1)) by (apply Z.pow_pos_nonneg; lia). nia. }
        apply Z.mul_lt_mono_pos_r in Hy; lia. }
      assert (Hdq : D - e' <= Zdigits2 q).
      { assert (0 < q) by (assert (0 < 2 ^ (D - e' - 1)) by (apply Z.pow_pos_nonneg; lia); lia).
        pose proof (Zdigits2_bounds q ltac:(lia)) as [_ C2].
        destruct (Z_lt_le_dec (Zdigits2 q) (D - e')); [|lia].
        assert (2 ^ Zdigits2 q <= 2 ^ (D - e' - 1)).
        { apply Z.pow_le_mono_r; [lia|]. lia. }
        lia. }
      pose proof (fexp_mono prec emax D (Zdigits2 q + e') ltac:(lia)). unfold e' in *. lia.
  - (* location *)
    apply new_location_located; [lia | lia |].
    assert (Hpe : (pow2 ex == pow2 s * pow2 ey * pow2 e')%Q).
    { rewrite <- !pow2_add. replace (s + ey + e') with ex by (unfold s; lia). reflexivity. }
    assert (Hz : (inject_Z (Zpos mx) * pow2 s == inject_Z q * inject_Z (Zpos my) + inject_Z r)%Q).
    { rewrite (pow2_inject s Hs), <- !inject_Z_mult, <- inject_Z_plus.
      replace (q * Zpos my + r) with (Zpos mx * 2 ^ s) by lia. reflexivity. }
    rewrite <- Hz.
    pose proof (pow2_pos ey) as Hey.
    apply (Qmul_cancel_eq _ _ (pow2 ey) Hey).
    transitivity (v * (inject_Z (Zpos my) * pow2 ey))%Q; [ring|].
    rewrite Hv, Hpe. ring.
Qed.

Lemma SFdiv_rounded sx mx ex sy my ey v :
  (v * (inject_Z (Zpos my) * pow2 ey) == inject_Z (Zpos mx) * pow2 ex)%Q ->
  rounded prec emax (xorb sx sy) v
    (SFdiv prec emax (S754_finite sx mx ex) (S754_finite sy my ey)).
Proof.
  intros Hv. cbn [SFdiv].
  pose proof (SFdiv_core_binary_spec mx ex my ey v Hv) as H.
  destruct (SFdiv_core_binary prec emax (Zpos mx) ex (Zpos my) ey) as [[q e'] l].
  destruct H as (Hq & He & Hl).
  apply binary_round_aux_rounded; assumption.
Qed.

Lemma shl_align_spec mx ex ex' :
  let '(mz, ez) := shl_align mx ex ex' in
  ez <= ex' /\ ez <= ex /\ Zpos mz = Zpos mx * 2 ^ (ex - ez)
  /\ (ex' <= ex -> ez = ex').
Proof.
  unfold shl_align. destruct (ex' - ex) as [|d|d] eqn:Ed.
  - replace (ex - ex) with 0 by lia. simpl. lia.
  - replace (ex - ex) with 0 by lia. simpl. lia.
  - pose proof (Zpower.shift_pos_correct d mx) as Hsh. unfold Zpower.shift_pos in Hsh.
    rewrite Hsh. change (Z.pow_pos 2 d) with (2 ^ Zpos d).
    replace (ex - ex') with (Zpos d) by lia. lia.
Qed.

Lemma Zdigits2_mul_pow2 m k :
  0 < m -> 0 <= k -> Zdigits2 (m * 2 ^ k) = Zdigits2 m + k.
Proof.
  intros Hm Hk. pose proof (Zdigits2_bounds m Hm) as [A1 A2].
  assert (0 < Zdigits2 m) by (destruct m; simpl; lia).
  assert (Hp : 0 < 2 ^ k) by (apply Z.pow_pos_nonneg; lia).
  apply Zdigits2_unique; [nia|].
  replace (Zdigits2 m + k - 1) with (Zdigits2 m - 1 + k) by lia.
  rewrite !Z.pow_add_r by lia. nia.
Qed.

Lemma binary_round_rounded sx mx ex :
  rounded prec emax sx (inject_Z (Zpos mx) * pow2 ex)%Q (binary_round prec emax sx mx ex).
Proof.
  unfold binary_round.
  pose proof (shl_align_spec mx ex (fexp prec emax (Zpos (digits2_pos mx) + ex))) as H.
  destruct (shl_align _ _ _) as [mz ez]. destruct H as (H1 & H2 & H3 & H4).
  assert (Hd : Zdigits2 (Zpos mz) + ez = Zpos (digits2_pos mx) + ex).
  { rewrite H3, Zdigits2_mul_pow2 by lia. simpl Zdigits2. lia. }
  apply binary_round_aux_rounded; [lia | rewrite Hd; exact H1 |].
  cbn [located]. rewrite H3, inject_Z_mult, <- (pow2_inject (ex - ez)) by lia.
  rewrite <- Qmult_assoc, <- pow2_add. replace (ex - ez + ez) with ex by lia. reflexivity.
Qed.

End Operations.

Section Derived.
Variables prec emax : Z.
Hypothesis Hprec : 0 < prec.
Hypothesis Hemax : prec < emax.

Lemma rounded_valid sx v f :
  rounded prec emax sx v f -> valid_binary prec emax f = true.
Proof. intros (mr & e' & H). tauto. Qed.

Lemma rounded_not_nan sx v f : rounded prec emax sx v f -> is_nan f = false.
Proof.
  intros (mr & e' & _ & _ & _ & _ & _ & _ & _ & H). destruct f; try reflexivity.
  destruct H.
Qed.

Lemma inject_Z_pos z : 0 < z -> (0 < inject_Z z)%Q.
Proof. intros. change 0%Q with (inject_Z 0). rewrite <- Zlt_Qlt. assumption. Qed.

(** A representable magnitude is its own rounding. *)
Lemma rounded_exact sx v f k c :
  rounded prec emax sx v f ->
  0 < k < 2 ^ prec -> emin prec emax <= c <= emax - prec ->
  (v == inject_Z k * pow2 c)%Q ->
  exists m e, f = S754_finite sx m e /\ (inject_Z (Zpos m) * pow2 e == v)%Q.
Proof.
  intros (mr & e' & He' & Hmr & Hlo & Hhi & HN & Hv0 & Hval & Hhas) Hk Hc Hv.
  pose proof (pow2_pos e') as Hu. pose proof (pow2_pos c) as Hpc.
  assert (Hkq : (0 < inject_Z k)%Q) by (apply inject_Z_pos; lia).
  assert (Hvpos : (0 < v)%Q) by (rewrite Hv; apply Qmul_pos_pos; assumption).
  assert (Hec : e' <= c).
  { destruct HN as [HN | HN]; [|lia].
    destruct (Z_le_gt_dec e' c) as [|Hgt]; [assumption|exfalso].
    assert (H1 : (pow2 (prec + c) <= pow2 (prec - 1 + e'))%Q) by (apply pow2_le; lia).
    rewrite pow2_mul_inject in H1 by lia.
    assert (H2 : (inject_Z k < inject_Z (2 ^ prec))%Q) by (rewrite <- Zlt_Qlt; lia).
    pose proof (Qmul_pos_pos _ _ (proj1 (Qlt_minus_iff _ _) H2) Hpc) as H3.
    rewrite Hv in HN. lra. }
  assert (Hvk : (v == inject_Z (k * 2 ^ (c - e')) * pow2 e')%Q).
  { rewrite Hv, inject_Z_mult, <- (pow2_inject (c - e')) by lia.
    rewrite <- Qmult_assoc, <- pow2_add. replace (c - e' + e') with c by lia. reflexivity. }
  set (K := k * 2 ^ (c - e')) in *.
  assert (Hmk : mr = K).
  { assert (mr <= K).
    { apply Q_int_le. apply (Qmul_cancel_le _ _ (pow2 e') Hu). rewrite Hvk in Hhi. lra. }
    assert (K <= mr).
    { apply Q_int_le. apply (Qmul_cancel_le _ _ (pow2 e') Hu). rewrite Hvk in Hlo. lra. }
    lia. }
  assert (HR : (inject_Z mr * pow2 e' == v)%Q) by (rewrite Hmk; symmetry; exact Hvk).
  destruct f as [s | s | | s m e]; cbn [has_value] in Hhas.
  - destruct Hhas as [_ H0]. lra.
  - exfalso. destruct Hhas as [_ H0].
    assert (H1 : (pow2 (prec + c) <= pow2 emax)%Q) by (apply pow2_le; lia).
    rewrite pow2_mul_inject in H1 by lia.
    assert (H2 : (inject_Z k < inject_Z (2 ^ prec))%Q) by (rewrite <- Zlt_Qlt; lia).
    pose proof (Qmul_pos_pos _ _ (proj1 (Qlt_minus_iff _ _) H2) Hpc) as H3.
    rewrite HR, Hv in H0. lra.
  - destruct Hhas.
  - destruct Hhas as [-> H0]. exists m, e. split; [reflexivity|].
    rewrite <- H0. exact HR.
Qed.

(** In the normal range the rounding error is at most [v / 2^prec]. *)
Lemma rounded_relative sx v f :
  rounded prec emax sx v f ->
  (pow2 (emin prec emax + prec - 1) <= v)%Q ->
  ((inject_Z (2 ^ prec) + 1) * v < inject_Z (2 ^ prec) * pow2 emax)%Q ->
  exists m e,
    f = S754_finite sx m e
    /\ ((inject_Z (2 ^ prec) - 1) * v
          <= inject_Z (2 ^ prec) * (inject_Z (Zpos m) * pow2 e))%Q
    /\ (inject_Z (2 ^ prec) * (inject_Z (Zpos m) * pow2 e)
          <= (inject_Z (2 ^ prec) + 1) * v)%Q.
Proof.
  intros (mr & e' & He' & Hmr & Hlo & Hhi & HN & Hv0 & Hval & Hhas) Hnorm Hov.
  pose proof (pow2_pos e') as Hu.
  assert (P2 : 2 ^ prec = 2 * 2 ^ (prec - 1)).
  { replace prec with (Z.succ (prec - 1)) at 1 by lia. apply Z.pow_succ_r. lia. }
  assert (Hpp : 0 < 2 ^ (prec - 1)) by (apply Z.pow_pos_nonneg; lia).
  assert (HP : (inject_Z (2 ^ prec) == 2 * inject_Z (2 ^ (prec - 1)))%Q).
  { rewrite P2, inject_Z_mult. reflexivity. }
  assert (Hq : (0 < inject_Z (2 ^ (prec - 1)))%Q) by (apply inject_Z_pos; lia).
  assert (Hhalf : (inject_Z (2 ^ (prec - 1)) * pow2 e' <= v)%Q).
  { destruct HN as [HN | HN].
    - rewrite pow2_mul_inject in HN by lia. exact HN.
    - subst e'. replace (emin prec emax + prec - 1) with (prec - 1 + emin prec emax) in Hnorm by lia.
      rewrite pow2_mul_inject in Hnorm by lia. exact Hnorm. }
  set (P := inject_Z (2 ^ (prec - 1))) in *. set (u := pow2 e') in *.
  set (R := (inject_Z mr * u)%Q) in *.
  assert (HvP : (0 < v)%Q) by (pose proof (Qmul_pos_pos P u Hq Hu); lra).
  assert (B1 : ((2 * P - 1) * v <= 2 * P * R)%Q).
  { assert (0 <= P * (v - P * u))%Q by (apply Qmult_le_0_compat; lra).
    assert (0 <= P * (R - (v - (1 # 2) * u)))%Q by (apply Qmult_le_0_compat; lra).
    nra. }
  assert (B2 : (2 * P * R <= (2 * P + 1) * v)%Q).
  { assert (0 <= P * ((v + (1 # 2) * u) - R))%Q by (apply Qmult_le_0_compat; lra).
    nra. }
  destruct f as [s | s | | s m e]; cbn [has_value] in Hhas.
  - exfalso. destruct Hhas as [_ H0]. fold R in H0.
    assert (1 <= P)%Q.
    { unfold P. change 1%Q with (inject_Z 1). rewrite <- Zle_Qle. lia. }
    nra.
  - exfalso. destruct Hhas as [_ H0]. fold R in H0. rewrite HP in Hov.
    assert (0 <= P * (R - pow2 emax))%Q by (apply Qmult_le_0_compat; lra).
    nra.
  - destruct Hhas.
  - destruct Hhas as [-> H0]. fold R in H0. exists m, e. split; [reflexivity|].
    rewrite <- H0, HP. split; assumption.
Qed.

(** Rounding does not cross a power of two from above. *)
Lemma rounded_ge_pow2 sx v f k :
  rounded prec emax sx v f -> emin prec emax <= k -> (pow2 k <= v)%Q ->
  match f with
  | S754_finite _ m e => (pow2 k <= inject_Z (Zpos m) * pow2 e)%Q
  | S754_infinity _ => True
  | _ => False
  end.
Proof.
  intros (mr & e' & He' & Hmr & Hlo & Hhi & HN & Hv0 & Hval & Hhas) Hk Hv.
  pose proof (pow2_pos e') as Hu. pose proof (pow2_pos k) as Hpk.
  assert (Hge : (pow2 k <= inject_Z mr * pow2 e')%Q).
  { destruct (Z_le_gt_dec e' k) as [Hle | Hgt].
    - assert (Hkk : (pow2 k == inject_Z (2 ^ (k - e')) * pow2 e')%Q).
      { rewrite <- pow2_mul_inject by lia. replace (k - e' + e') with k by lia. reflexivity. }
      rewrite Hkk. apply Qmult_le_compat_r; [|lra].
      rewrite <- Zle_Qle. apply Q_int_le.
      apply (Qmul_cancel_le _ _ (pow2 e') Hu). rewrite Hkk in Hv. lra.
    - destruct HN as [HN | HN]; [|lia].
      assert (H1 : (pow2 (k + 1) <= pow2 e')%Q) by (apply pow2_le; lia).
      rewrite pow2_succ in H1.
      assert (H2 : (pow2 e' <= pow2 (prec - 1 + e'))%Q) by (apply pow2_le; lia).
      assert (Hone : (inject_Z 1 <= inject_Z mr)%Q).
      { rewrite <- Zle_Qle. apply Q_int_le. change (inject_Z 1) with 1%Q.
        apply (Qmul_cancel_le _ _ (pow2 e') Hu). lra. }
      change (inject_Z 1) with 1%Q in Hone.
      assert (0 <= (inject_Z mr - 1) * pow2 e')%Q by (apply Qmult_le_0_compat; lra).
      lra. }
  destruct f as [s | s | | s m e]; cbn [has_value] in Hhas.
  - destruct Hhas as [_ H0]. lra.
  - exact I.
  - exact Hhas.
  - destruct Hhas as [_ H0]. rewrite <- H0. exact Hge.
Qed.

End Derived.

(** ** Binary32 *)

Lemma f32_prec_pos : 0 < f32_prec.
Proof. reflexivity. Qed.

Lemma f32_prec_emax : f32_prec < f32_emax.
Proof. reflexivity. Qed.

Lemma inject_Z_floor_unique a n :
  (inject_Z n <= inject_Z a)%Q -> (inject_Z a < inject_Z n + 1)%Q -> a = n.
Proof.
  intros H1 H2. rewrite <- Zle_Qle in H1.
  assert (H3 : (inject_Z a < inject_Z (n + 1))%Q) by (rewrite inject_Z_plus; exact H2).
  rewrite <- Zlt_Qlt in H3. lia.
Qed.

Lemma int_of_f32_floor m e n :
  0 <= n <= INT_MAX ->
  (inject_Z n <= inject_Z (Zpos m) * pow2 e)%Q ->
  (inject_Z (Zpos m) * pow2 e < inject_Z n + 1)%Q ->
  int_of_f32 (S754_finite false m e) = n.
Proof.
  intros Hn Hlo Hhi. unfold int_of_f32. cbn [cond_Zopp].
  assert (Hs : Z.shiftl (Zpos m) e = n).
  { destruct (Z_le_gt_dec 0 e) as [He | He].
    - rewrite Z.shiftl_mul_pow2 by lia.
      apply inject_Z_floor_unique; rewrite inject_Z_mult, <- pow2_inject by lia; assumption.
    - rewrite <- (Z.opp_involutive e), Z.shiftl_opp_r, Z.shiftr_div_pow2 by lia.
      assert (Hp : 0 < 2 ^ (- e)) by (apply Z.pow_pos_nonneg; lia).
      assert (Hq : (pow2 e * inject_Z (2 ^ (- e)) == 1)%Q).
      { rewrite <- pow2_inject, <- pow2_add by lia.
        replace (e + - e) with 0 by lia. reflexivity. }
      assert (Hpq : (0 < inject_Z (2 ^ (- e)))%Q) by (apply inject_Z_pos; lia).
      set (P := inject_Z (2 ^ (- e))) in *.
      assert (Hm : (inject_Z (Zpos m) * pow2 e * P == inject_Z (Zpos m))%Q)
        by (rewrite <- Qmult_assoc, Hq; ring).
      assert (H1 : (inject_Z (n * 2 ^ (- e)) <= inject_Z (Zpos m))%Q).
      { rewrite inject_Z_mult. fold P.
        assert (0 <= (inject_Z (Zpos m) * pow2 e - inject_Z n) * P)%Q
          by (apply Qmult_le_0_compat; lra).
        lra. }
      assert (H2 : (inject_Z (Zpos m) < inject_Z ((n + 1) * 2 ^ (- e)))%Q).
      { rewrite inject_Z_mult, inject_Z_plus. fold P. change (inject_Z 1) with 1%Q.
        assert (0 < (inject_Z n + 1 - inject_Z (Zpos m) * pow2 e) * P)%Q
          by (apply Qmul_pos_pos; lra).
        lra. }
      rewrite <- Zle_Qle in H1. rewrite <- Zlt_Qlt in H2.
      symmetry. apply Z.div_unique with (Zpos m - n * 2 ^ (- e)); lia. }
  rewrite Hs.
  replace (INT_MIN <=? n) with true by (symmetry; apply Z.leb_le; unfold INT_MIN; lia).
  replace (n <=? INT_MAX) with true by (symmetry; apply Z.leb_le; lia).
  reflexivity.
Qed.

Lemma canonical_lt m1 e1 m2 e2 :
  canonical_mantissa f32_prec f32_emax m1 e1 = true ->
  canonical_mantissa f32_prec f32_emax m2 e2 = true ->
  e1 < e2 ->
  (inject_Z (Zpos m1) * pow2 e1 < inject_Z (Zpos m2) * pow2 e2)%Q.
Proof.
  intros C1 C2 He.
  apply (canonical_digits f32_prec f32_emax) in C1, C2.
  destruct C1 as (D1 & _ & E1), C2 as (_ & D2 & _).
  destruct D2 as [D2 | D2]; [|lia].
  pose proof (Zdigits2_bounds (Zpos m1) ltac:(lia)) as [_ A].
  pose proof (Zdigits2_bounds (Zpos m2) ltac:(lia)) as [B _].
  rewrite D2 in B.
  assert (A' : Zpos m1 < 2 ^ f32_prec).
  { assert (2 ^ Zdigits2 (Zpos m1) <= 2 ^ f32_prec) by (apply Z.pow_le_mono_r; lia). lia. }
  assert (Q1 : (inject_Z (Zpos m1) < inject_Z (2 ^ f32_prec))%Q) by (rewrite <- Zlt_Qlt; exact A').
  assert (Q2 : (inject_Z (2 ^ (f32_prec - 1)) <= inject_Z (Zpos m2))%Q) by (rewrite <- Zle_Qle; exact B).
  pose proof (pow2_pos e1) as U1. pose proof (pow2_pos e2) as U2.
  assert (H : (pow2 (f32_prec + e1) <= pow2 (f32_prec - 1 + e2))%Q) by (apply pow2_le; lia).
  rewrite !pow2_mul_inject in H by (unfold f32_prec; lia).
  assert (0 < (inject_Z (2 ^ f32_prec) - inject_Z (Zpos m1)) * pow2 e1)%Q
    by (apply Qmul_pos_pos; lra).
  assert (0 <= (inject_Z (Zpos m2) - inject_Z (2 ^ (f32_prec - 1))) * pow2 e2)%Q
    by (apply Qmult_le_0_compat; lra).
  lra.
Qed.

(** On well-formed positive floats [SFcompare] is the order of the values. *)
Lemma SFcompare_pos m1 e1 m2 e2 :
  canonical_mantissa f32_prec f32_emax m1 e1 = true ->
  canonical_mantissa f32_prec f32_emax m2 e2 = true ->
  match SFcompare (S754_finite false m1 e1) (S754_finite false m2 e2) with
  | Some Lt => (inject_Z (Zpos m1) * pow2 e1 < inject_Z (Zpos m2) * pow2 e2)%Q
  | Some Eq => m1 = m2 /\ e1 = e2
  | Some Gt => (inject_Z (Zpos m2) * pow2 e2 < inject_Z (Zpos m1) * pow2 e1)%Q
  | None => False
  end.
Proof.
  intros C1 C2. cbn [SFcompare].
  destruct (Z.compare_spec e1 e2) as [He | He | He].
  - subst e2. pose proof (pow2_pos e1) as U.
    change (Pos.compare_cont Eq m1 m2) with (Pos.compare m1 m2).
    destruct (Pos.compare_spec m1 m2) as [Hm | Hm | Hm].
    + auto.
    + assert (0 < (inject_Z (Zpos m2) - inject_Z (Zpos m1)) * pow2 e1)%Q.
      { apply Qmul_pos_pos; [|exact U].
        assert (inject_Z (Zpos m1) < inject_Z (Zpos m2))%Q by (rewrite <- Zlt_Qlt; lia). lra. }
      lra.
    + assert (0 < (inject_Z (Zpos m1) - inject_Z (Zpos m2)) * pow2 e1)%Q.
      { apply Qmul_pos_pos; [|exact U].
        assert (inject_Z (Zpos m2) < inject_Z (Zpos m1))%Q by (rewrite <- Zlt_Qlt; lia). lra. }
      lra.
  - apply canonical_lt; assumption.
  - apply canonical_lt; assumption.
Qed.

Lemma valid32_canonical s m e :
  valid32 (S754_finite s m e) -> canonical_mantissa f32_prec f32_emax m e = true.
Proof.
  unfold valid32. cbn. intros H. apply (bounded_canonical f32_prec f32_emax) in H. tauto.
Qed.

Lemma F2Q_pos_finite m e : (F2Q (S754_finite false m e) == inject_Z (Zpos m) * pow2 e)%Q.
Proof. reflexivity. Qed.

Lemma clamp_scale_in_range s : good s -> in_scale_range (clamp_scale s).
Proof.
  intros [Hv Hn]. unfold clamp_scale, f32_lt, SFltb.
  assert (R01 : in_scale_range f32_0_1).
  { repeat split; try reflexivity; vm_compute; discriminate. }
  assert (R50 : in_scale_range f32_5_0).
  { repeat split; try reflexivity; vm_compute; discriminate. }
  destruct s as [sg | sg | | sg m e]; try discriminate Hn.
  - cbn. exact R01.
  - destruct sg; cbn; assumption.
  - destruct sg; [cbn; exact R01|].
    pose proof (valid32_canonical _ _ _ Hv) as C.
    assert (C01 : canonical_mantissa f32_prec f32_emax 13421773 (-27) = true) by reflexivity.
    assert (C50 : canonical_mantissa f32_prec f32_emax 10485760 (-21) = true) by reflexivity.
    pose proof (SFcompare_pos m e _ _ C C01) as H1. fold f32_0_1 in H1.
    destruct (SFcompare (S754_finite false m e) f32_0_1) as [[]|] eqn:E1; try contradiction.
    + destruct H1 as [-> ->]. exact R01.
    + cbn. exact R01.
    + pose proof (SFcompare_pos _ _ m e C50 C) as H2. fold f32_5_0 in H2.
      destruct (SFcompare f32_5_0 (S754_finite false m e)) as [[]|] eqn:E2; try contradiction.
      * destruct H2 as [<- <-]. exact R50.
      * exact R50.
      * repeat split; try assumption; rewrite F2Q_pos_finite;
          unfold f32_0_1, f32_5_0 in *; rewrite !F2Q_pos_finite; lra.
Qed.

Lemma f32_of_int_rounded p :
  rounded f32_prec f32_emax false (inject_Z (Zpos p)) (f32_of_int (Zpos p)).
Proof.
  unfold f32_of_int. cbn [binary_normalize].
  pose proof (binary_round_rounded f32_prec f32_emax f32_prec_pos f32_prec_emax false p 0) as H.
  assert (E : (inject_Z (Zpos p) * pow2 0 == inject_Z (Zpos p))%Q)
    by (change (pow2 0) with 1%Q; ring).
  destruct H as (mr & e' & H). exists mr, e'. rewrite <- E. exact H.
Qed.

Lemma f32_of_int_good n : good (f32_of_int n).
Proof.
  unfold f32_of_int. destruct n as [|p|p]; cbn [binary_normalize].
  - split; reflexivity.
  - pose proof (binary_round_rounded f32_prec f32_emax f32_prec_pos f32_prec_emax false p 0) as H.
    split; [eapply rounded_valid | eapply rounded_not_nan]; exact H.
  - pose proof (binary_round_rounded f32_prec f32_emax f32_prec_pos f32_prec_emax true p 0) as H.
    split; [eapply rounded_valid | eapply rounded_not_nan]; exact H.
Qed.

(** An [int] of at most 24 bits converts without rounding. *)
Lemma f32_of_int_exact n :
  0 < n <= 2 ^ 24 ->
  exists m e, f32_of_int n = S754_finite false m e
              /\ (inject_Z (Zpos m) * pow2 e == inject_Z n)%Q
              /\ valid32 (S754_finite false m e).
Proof.
  intros Hn. destruct n as [|p|p]; try lia.
  pose proof (f32_of_int_rounded p) as H.
  assert (Hex : exists k c, 0 < k < 2 ^ f32_prec
                 /\ emin f32_prec f32_emax <= c <= f32_emax - f32_prec
                 /\ (inject_Z (Zpos p) == inject_Z k * pow2 c)%Q).
  { destruct (Z_lt_le_dec (Zpos p) (2 ^ 24)) as [Hlt | Hge].
    - exists (Zpos p), 0. split; [exact (conj (Pos2Z.is_pos p) Hlt)|].
      split; [vm_compute; split; discriminate|].
      change (pow2 0) with 1%Q. ring.
    - exists (2 ^ 23), 1. split; [vm_compute; split; reflexivity|].
      split; [vm_compute; split; discriminate|].
      assert (Zpos p = 2 ^ 24) as -> by lia. reflexivity. }
  destruct Hex as (k & c & Hk & Hc & Hv).
  destruct (rounded_exact f32_prec f32_emax f32_prec_pos
              false _ _ k c H Hk Hc Hv) as (m & e & Hf & Hme).
  exists m, e. split; [exact Hf|]. split; [exact Hme|].
  unfold valid32. rewrite <- Hf. eapply rounded_valid; exact H.
Qed.

(** Any positive [int] converts to a positive finite float. *)
Lemma f32_of_int_pos_finite n :
  0 < n <= INT_MAX ->
  exists m e, f32_of_int n = S754_finite false m e /\ valid32 (S754_finite false m e).
Proof.
  intros Hn. destruct n as [|p|p]; try lia.
  pose proof (f32_of_int_rounded p) as H.
  assert (H1 : (1 <= inject_Z (Zpos p))%Q)
    by (change 1%Q with (inject_Z 1); rewrite <- Zle_Qle; lia).
  assert (H2 : (inject_Z (Zpos p) <= inject_Z INT_MAX)%Q) by (rewrite <- Zle_Qle; lia).
  destruct (rounded_relative f32_prec f32_emax f32_prec_pos false _ _ H)
    as (m & e & Hf & _).
  - assert (pow2 (emin f32_prec f32_emax + f32_prec - 1) <= 1)%Q by (vm_compute; discriminate).
    lra.
  - change (inject_Z (2 ^ f32_prec)) with (16777216 # 1)%Q.
    assert (((16777216 # 1) + 1) * inject_Z INT_MAX < (16777216 # 1) * pow2 f32_emax)%Q
      by (vm_compute; reflexivity).
    lra.
  - exists m, e. split; [exact Hf|]. unfold valid32. rewrite <- Hf.
    eapply rounded_valid; exact H.
Qed.

Lemma f32_mul_rounded sx mx ex sy my ey :
  valid32 (S754_finite sx mx ex) -> valid32 (S754_finite sy my ey) ->
  rounded f32_prec f32_emax (xorb sx sy)
    (inject_Z (Zpos mx) * pow2 ex * (inject_Z (Zpos my) * pow2 ey))%Q
    (f32_mul (S754_finite sx mx ex) (S754_finite sy my ey)).
Proof.
  intros Hx Hy.
  apply (SFmul_rounded f32_prec f32_emax f32_prec_pos f32_prec_emax); assumption.
Qed.

Lemma f32_div_rounded sx mx ex sy my ey v :
  (v * (inject_Z (Zpos my) * pow2 ey) == inject_Z (Zpos mx) * pow2 ex)%Q ->
  rounded f32_prec f32_emax (xorb sx sy) v
    (f32_div (S754_finite sx mx ex) (S754_finite sy my ey)).
Proof.
  apply (SFdiv_rounded f32_prec f32_emax f32_prec_pos f32_prec_emax).
Qed.

Lemma f32_mul_good a sy my ey :
  good a -> valid32 (S754_finite sy my ey) -> good (f32_mul a (S754_finite sy my ey)).
Proof.
  intros [Hv Hn] Hy. destruct a as [s | s | | s m e]; try discriminate Hn.
  - split; reflexivity.
  - split; reflexivity.
  - pose proof (f32_mul_rounded s m e sy my ey Hv Hy) as H.
    split; [eapply rounded_valid | eapply rounded_not_nan]; exact H.
Qed.

Lemma Qdiv_witness (a b : Q) : (0 < b)%Q -> ((a / b) * b == a)%Q.
Proof. intros Hb. field. lra. Qed.

Lemma f32_div_good a sy my ey :
  good a -> good (f32_div a (S754_finite sy my ey)).
Proof.
  intros [Hv Hn]. destruct a as [s | s | | s m e]; try discriminate Hn.
  - split; reflexivity.
  - split; reflexivity.
  - assert (Hb : (0 < inject_Z (Zpos my) * pow2 ey)%Q).
    { apply Qmul_pos_pos; [apply inject_Z_pos; lia | apply pow2_pos]. }
    pose proof (f32_div_rounded s m e sy my ey _ (Qdiv_witness _ _ Hb)) as H.
    split; [eapply rounded_valid | eapply rounded_not_nan]; exact H.
Qed.

(** Truncation of a positive finite float lies where its value lies. *)
Lemma int_of_f32_bounds m e lo hi :
  0 <= lo -> hi <= INT_MAX + 1 ->
  (inject_Z lo <= inject_Z (Zpos m) * pow2 e)%Q ->
  (inject_Z (Zpos m) * pow2 e < inject_Z hi)%Q ->
  lo <= int_of_f32 (S754_finite false m e) < hi.
Proof.
  intros Hlo Hhi H1 H2.
  set (v := (inject_Z (Zpos m) * pow2 e)%Q) in *.
  pose proof (Qfloor_le v) as F1. pose proof (Qlt_floor v) as F2.
  rewrite inject_Z_plus in F2. change (inject_Z 1) with 1%Q in F2.
  assert (A : lo <= Qfloor v).
  { assert (inject_Z lo < inject_Z (Qfloor v + 1))%Q
      by (rewrite inject_Z_plus; change (inject_Z 1) with 1%Q; lra).
    rewrite <- Zlt_Qlt in H. lia. }
  assert (B : Qfloor v < hi).
  { assert (inject_Z (Qfloor v) < inject_Z hi)%Q by lra.
    rewrite <- Zlt_Qlt in H. exact H. }
  rewrite (int_of_f32_floor m e (Qfloor v)); [lia | lia | exact F1 | exact F2].
Qed.

(** [(int) ((float) w * s)] for a scale within the clamp bounds. *)
Lemma scaled_dim_bounds w s :
  10 <= w <= 2 ^ 24 -> in_scale_range s ->
  1 <= int_of_f32 (f32_mul (f32_of_int w) s) <= 5 * w + 5.
Proof.
  intros Hw (Hvs & Hps & Hlo & Hhi).
  destruct s as [| | | [] ms es]; try discriminate Hps.
  destruct (f32_of_int_exact w ltac:(lia)) as (mw & ew & Ew & Vw & Hvw).
  rewrite Ew.
  pose proof (f32_mul_rounded false mw ew false ms es Hvw Hvs) as H.
  cbn [xorb] in H.
  apply (rounded_Qeq _ _ _ _ (inject_Z w * (inject_Z (Zpos ms) * pow2 es))%Q) in H;
    [|rewrite Vw; reflexivity].
  rewrite F2Q_pos_finite in Hlo, Hhi.
  set (S := (inject_Z (Zpos ms) * pow2 es)%Q) in *.
  assert (W1 : (10 <= inject_Z w)%Q)
    by (change 10%Q with (inject_Z 10); rewrite <- Zle_Qle; lia).
  assert (W2 : (inject_Z w <= inject_Z (2 ^ 24))%Q) by (rewrite <- Zle_Qle; lia).
  change (inject_Z (2 ^ 24)) with (16777216 # 1)%Q in W2.
  assert (L1 : ((13421773 # 134217728) <= S)%Q).
  { assert (F2Q f32_0_1 == 13421773 # 134217728)%Q by (vm_compute; reflexivity). lra. }
  assert (L2 : (S <= 5)%Q).
  { assert (F2Q f32_5_0 == 5)%Q by (vm_compute; reflexivity). lra. }
  assert (V1 : (1 <= inject_Z w * S)%Q).
  { assert (0 <= (inject_Z w - 10) * (S - (13421773 # 134217728)))%Q
      by (apply Qmult_le_0_compat; lra). lra. }
  assert (V2 : (inject_Z w * S <= 5 * inject_Z w)%Q).
  { assert (0 <= inject_Z w * (5 - S))%Q by (apply Qmult_le_0_compat; lra). lra. }
  destruct (rounded_relative f32_prec f32_emax f32_prec_pos false _ _ H)
    as (m & e & Hf & _ & Hrel).
  - assert (pow2 (emin f32_prec f32_emax + f32_prec - 1) <= 1)%Q by (vm_compute; discriminate).
    lra.
  - change (inject_Z (2 ^ f32_prec)) with (16777216 # 1)%Q.
    assert ((16777216 # 1) * pow2 f32_emax
             == 5708990770823839524233143877797980545530986496 # 1)%Q
      by (vm_compute; reflexivity).
    lra.
  - rewrite Hf.
    pose proof (rounded_ge_pow2 f32_prec f32_emax f32_prec_pos false _ _ 0 H
                  ltac:(vm_compute; discriminate)
                  ltac:(change (pow2 0) with 1%Q; exact V1)) as Hge.
    rewrite Hf in Hge. change (pow2 0) with 1%Q in Hge.
    change (inject_Z (2 ^ f32_prec)) with (16777216 # 1)%Q in Hrel.
    assert (B : 1 <= int_of_f32 (S754_finite false m e) < 5 * w + 6).
    { apply int_of_f32_bounds; [lia | unfold INT_MAX; lia | exact Hge |].
      rewrite inject_Z_plus, inject_Z_mult.
      change (inject_Z 5) with 5%Q. change (inject_Z 6) with 6%Q. lra. }
    lia.
Qed.

(** An [int] between [2^24] and 429496720 converts to a float between
    [2^24] and 429496704, the largest float whose product with [5.0f] is
    below [2^31]. *)
Lemma f32_of_int_large w :
  2 ^ 24 < w <= 429496720 ->
  exists m e, f32_of_int w = S754_finite false m e
              /\ valid32 (S754_finite false m e)
              /\ (16777216 # 1 <= inject_Z (Zpos m) * pow2 e)%Q
              /\ (inject_Z (Zpos m) * pow2 e <= 429496704 # 1)%Q.
Proof.
  intros Hw.
  destruct (Z.eq_dec w 429496720) as [-> | Hne].
  { exists 13421772%positive, 5. split; [vm_compute; reflexivity|].
    split; [reflexivity|]. split; vm_compute; discriminate. }
  destruct (f32_of_int_pos_finite w ltac:(unfold INT_MAX; lia)) as (m & e & Ef & Vf).
  exists m, e. split; [exact Ef|]. split; [exact Vf|].
  destruct w as [|p|p]; try lia.
  pose proof (f32_of_int_rounded p) as H.
  assert (W1 : (16777216 # 1 <= inject_Z (Zpos p))%Q)
    by (change (16777216 # 1)%Q with (inject_Z 16777216); rewrite <- Zle_Qle; lia).
  assert (W2 : (inject_Z (Zpos p) <= 429496719 # 1)%Q)
    by (change (429496719 # 1)%Q with (inject_Z 429496719); rewrite <- Zle_Qle; lia).
  split.
  - pose proof (rounded_ge_pow2 f32_prec f32_emax f32_prec_pos false _ _ 24 H
                  ltac:(vm_compute; discriminate)) as Hge.
    rewrite Ef in Hge. change (pow2 24) with (16777216 # 1)%Q in Hge. apply Hge. exact W1.
  - destruct H as (mr & e' & He' & Hmr & Hlo & Hhi & HN & Hv0 & Hval & Hhas).
    rewrite Ef in Hhas. cbn [has_value] in Hhas. destruct Hhas as [_ Hhas].
    rewrite <- Hhas.
    assert (He5 : e' <= 5).
    { destruct HN as [HN | HN]; [|rewrite HN; vm_compute; discriminate].
      destruct (Z_le_gt_dec e' 5) as [|Hgt]; [assumption|exfalso].
      assert (H1 : (pow2 29 <= pow2 (f32_prec - 1 + e'))%Q)
        by (apply pow2_le; unfold f32_prec; lia).
      change (pow2 29) with (536870912 # 1)%Q in H1. lra. }
    destruct (Z.eq_dec e' 5) as [-> | Hn5].
    + change (pow2 5) with (32 # 1)%Q in *.
      assert (Hz : mr * 32 <= Zpos p + 16).
      { rewrite Zle_Qle, inject_Z_mult, inject_Z_plus.
        change (inject_Z 32) with (32 # 1)%Q. change (inject_Z 16) with (16 # 1)%Q. lra. }
      assert (Hm : mr * 32 <= 429496704) by lia.
      rewrite Zle_Qle, inject_Z_mult in Hm.
      change (inject_Z 32) with (32 # 1)%Q in Hm.
      change (inject_Z 429496704) with (429496704 # 1)%Q in Hm. exact Hm.
    + assert (H4 : (pow2 e' <= pow2 4)%Q) by (apply pow2_le; lia).
      change (pow2 4) with (16 # 1)%Q in H4.
      pose proof (pow2_pos e') as Hu.
      assert (Hq : (inject_Z mr <= 16777216 # 1)%Q).
      { change (16777216 # 1)%Q with (inject_Z (2 ^ f32_prec)). rewrite <- Zle_Qle. lia. }
      assert (Hq0 : (0 <= inject_Z mr)%Q)
        by (change 0%Q with (inject_Z 0); rewrite <- Zle_Qle; lia).
      assert (0 <= ((16777216 # 1) - inject_Z mr) * pow2 e')%Q
        by (apply Qmult_le_0_compat; lra).
      assert (0 <= (16777216 # 1) * ((16 # 1) - pow2 e'))%Q
        by (apply Qmult_le_0_compat; lra).
      lra.
Qed.

(** [(int) ((float) w * s)] for a scale within the clamp bounds is positive
    and fits an [int], for every [w] from 10 to 429496720. *)
Lemma scaled_dim_positive w s :
  10 <= w <= 429496720 -> in_scale_range s ->
  1 <= int_of_f32 (f32_mul (f32_of_int w) s) <= INT_MAX.
Proof.
  intros Hw Hs.
  destruct (Z_le_gt_dec w (2 ^ 24)) as [Hsmall | Hbig].
  { pose proof (scaled_dim_bounds w s ltac:(lia) Hs). unfold INT_MAX. lia. }
  destruct Hs as (Hvs & Hps & Hlo & Hhi).
  destruct s as [| | | [] ms es]; try discriminate Hps.
  destruct (f32_of_int_large w ltac:(lia)) as (mw & ew & Ew & Hvw & W1 & W2).
  rewrite Ew.
  pose proof (f32_mul_rounded false mw ew false ms es Hvw Hvs) as H.
  cbn [xorb] in H.
  rewrite F2Q_pos_finite in Hlo, Hhi.
  set (V := (inject_Z (Zpos mw) * pow2 ew)%Q) in *.
  set (S := (inject_Z (Zpos ms) * pow2 es)%Q) in *.
  assert (L1 : ((13421773 # 134217728) <= S)%Q).
  { assert (F2Q f32_0_1 == 13421773 # 134217728)%Q by (vm_compute; reflexivity). lra. }
  assert (L2 : (S <= 5)%Q).
  { assert (F2Q f32_5_0 == 5)%Q by (vm_compute; reflexivity). lra. }
  assert (V1 : (1 <= V * S)%Q).
  { assert (0 <= (V - (16777216 # 1)) * (S - (13421773 # 134217728)))%Q
      by (apply Qmult_le_0_compat; lra). lra. }
  assert (V2 : (V * S <= 2147483520 # 1)%Q).
  { assert (0 <= V * (5 - S))%Q by (apply Qmult_le_0_compat; lra). lra. }
  destruct (rounded_relative f32_prec f32_emax f32_prec_pos false _ _ H)
    as (m & e & Hf & _ & Hrel).
  - assert (pow2 (emin f32_prec f32_emax + f32_prec - 1) <= 1)%Q by (vm_compute; discriminate).
    lra.
  - change (inject_Z (2 ^ f32_prec)) with (16777216 # 1)%Q.
    assert ((16777216 # 1) * pow2 f32_emax
             == 5708990770823839524233143877797980545530986496 # 1)%Q
      by (vm_compute; reflexivity).
    lra.
  - rewrite Hf.
    pose proof (rounded_ge_pow2 f32_prec f32_emax f32_prec_pos false _ _ 0 H
                  ltac:(vm_compute; discriminate)
                  ltac:(change (pow2 0) with 1%Q; exact V1)) as Hge.
    rewrite Hf in Hge. change (pow2 0) with 1%Q in Hge.
    change (inject_Z (2 ^ f32_prec)) with (16777216 # 1)%Q in Hrel.
    assert (B : 1 <= int_of_f32 (S754_finite false m e) < INT_MAX + 1).
    { apply int_of_f32_bounds; [lia | lia | exact Hge |].
      change (inject_Z (INT_MAX + 1)) with (2147483648 # 1)%Q. lra. }
    lia.
Qed.

(** The source column the resampler reads stays inside the source row, for
    a source of at most [2^24] and a target of at most [2^23] columns. *)
Lemma sampled_coord_bounds sw nw x :
  0 < sw <= 2 ^ 24 -> 0 < nw <= 2 ^ 23 -> 0 <= x < nw ->
  0 <= int_of_f32 (f32_mul (f32_of_int x) (f32_div (f32_of_int sw) (f32_of_int nw)))
    <= sw - 1.
Proof.
  intros Hsw Hnw Hx.
  destruct (f32_of_int_exact sw ltac:(lia)) as (ms & es & Es & Vs & Hvs).
  destruct (f32_of_int_exact nw ltac:(lia)) as (mn & en & En & Vn & Hvn).
  rewrite Es, En.
  assert (QN : (0 < inject_Z nw)%Q) by (apply inject_Z_pos; lia).
  assert (QS : (1 <= inject_Z sw)%Q)
    by (change 1%Q with (inject_Z 1); rewrite <- Zle_Qle; lia).
  assert (QS' : (inject_Z sw <= 16777216 # 1)%Q)
    by (change (16777216 # 1)%Q with (inject_Z (2 ^ 24)); rewrite <- Zle_Qle; lia).
  assert (QN1 : (1 <= inject_Z nw)%Q)
    by (change 1%Q with (inject_Z 1); rewrite <- Zle_Qle; lia).
  assert (QN' : (inject_Z nw <= 8388608 # 1)%Q)
    by (change (8388608 # 1)%Q with (inject_Z (2 ^ 23)); rewrite <- Zle_Qle; lia).
  set (v := (inject_Z sw / inject_Z nw)%Q).
  assert (Hv : (v * inject_Z nw == inject_Z sw)%Q) by (apply Qdiv_witness; exact QN).
  assert (Hdiv : rounded f32_prec f32_emax false v
                   (f32_div (S754_finite false ms es) (S754_finite false mn en))).
  { apply (f32_div_rounded false ms es false mn en). rewrite Vs, Vn. exact Hv. }
  (* the ratio *)
  assert (V1 : ((1 # 8388608) <= v)%Q).
  { assert (0 <= v * ((8388608 # 1) - inject_Z nw))%Q.
    { apply Qmult_le_0_compat; [|lra].
      apply (Qmul_cancel_le _ _ (inject_Z nw) QN). lra. }
    lra. }
  assert (V2 : (v <= 16777216 # 1)%Q).
  { assert (0 <= v * (inject_Z nw - 1))%Q.
    { apply Qmult_le_0_compat; [|lra].
      apply (Qmul_cancel_le _ _ (inject_Z nw) QN). lra. }
    lra. }
  destruct (rounded_relative f32_prec f32_emax f32_prec_pos false _ _ Hdiv)
    as (mr & er & Hr & Hr1 & Hr2).
  { assert (pow2 (emin f32_prec f32_emax + f32_prec - 1) <= 1 # 8388608)%Q
      by (vm_compute; discriminate).
    lra. }
  { change (inject_Z (2 ^ f32_prec)) with (16777216 # 1)%Q.
    assert ((16777216 # 1) * pow2 f32_emax
             == 5708990770823839524233143877797980545530986496 # 1)%Q
      by (vm_compute; reflexivity).
    lra. }
  rewrite Hr.
  assert (Vr : valid32 (S754_finite false mr er)).
  { unfold valid32. rewrite <- Hr. eapply rounded_valid; exact Hdiv. }
  change (inject_Z (2 ^ f32_prec)) with (16777216 # 1)%Q in Hr1, Hr2.
  set (R := (inject_Z (Zpos mr) * pow2 er)%Q) in *.
  destruct (Z.eq_dec x 0) as [-> | Hx0].
  { change (f32_mul (f32_of_int 0) (S754_finite false mr er)) with (S754_zero false).
    cbn. lia. }
  destruct (f32_of_int_exact x ltac:(lia)) as (mx & ex & Ex & Vx & Hvx).
  rewrite Ex.
  pose proof (f32_mul_rounded false mx ex false mr er Hvx Vr) as Hmul.
  cbn [xorb] in Hmul.
  apply (rounded_Qeq _ _ _ _ (inject_Z x * R)%Q) in Hmul; [|rewrite Vx; reflexivity].
  assert (QX : (1 <= inject_Z x)%Q)
    by (change 1%Q with (inject_Z 1); rewrite <- Zle_Qle; lia).
  assert (QX' : (inject_Z x <= inject_Z nw - 1)%Q).
  { assert (inject_Z (x + 1) <= inject_Z nw)%Q by (rewrite <- Zle_Qle; lia).
    rewrite inject_Z_plus in H. change (inject_Z 1) with 1%Q in H. lra. }
  assert (R1 : ((1 # 16777216) <= R)%Q) by lra.
  assert (R2 : (R <= 16777217 # 1)%Q) by lra.
  assert (P1 : ((1 # 16777216) <= inject_Z x * R)%Q).
  { assert (0 <= (inject_Z x - 1) * R)%Q by (apply Qmult_le_0_compat; lra). lra. }
  assert (P2 : (inject_Z x * R <= (8388608 # 1) * (16777217 # 1))%Q).
  { assert (0 <= ((8388608 # 1) - inject_Z x) * R)%Q by (apply Qmult_le_0_compat; lra).
    lra. }
  destruct (rounded_relative f32_prec f32_emax f32_prec_pos false _ _ Hmul)
    as (mp & ep & Hp & _ & Hp2).
  { assert (pow2 (emin f32_prec f32_emax + f32_prec - 1) <= 1 # 16777216)%Q
      by (vm_compute; discriminate).
    lra. }
  { change (inject_Z (2 ^ f32_prec)) with (16777216 # 1)%Q.
    assert ((16777216 # 1) * pow2 f32_emax
             == 5708990770823839524233143877797980545530986496 # 1)%Q
      by (vm_compute; reflexivity).
    lra. }
  rewrite Hp.
  change (inject_Z (2 ^ f32_prec)) with (16777216 # 1)%Q in Hp2.
  set (F := (inject_Z (Zpos mp) * pow2 ep)%Q) in *.
  assert (HF : (F < inject_Z sw)%Q).
  { (* E^2 F N <= (E+1)^2 X S and (E+1)^2 (N-1) < E^2 N *)
    set (X := inject_Z x) in *. set (N := inject_Z nw) in *. set (S := inject_Z sw) in *.
    assert (A1 : ((16777216 # 1) * (16777216 # 1) * F
                  <= (16777217 # 1) * (16777217 # 1) * (X * v))%Q).
    { assert (0 <= X * ((16777217 # 1) * v - (16777216 # 1) * R))%Q
        by (apply Qmult_le_0_compat; lra).
      lra. }
    assert (A2 : (X * v * N == X * S)%Q) by (rewrite <- Hv; ring).
    assert (A3 : ((16777216 # 1) * (16777216 # 1) * (F * N)
                  <= (16777217 # 1) * (16777217 # 1) * (X * S))%Q).
    { assert (0 <= ((16777217 # 1) * (16777217 # 1) * (X * v)
                    - (16777216 # 1) * (16777216 # 1) * F) * N)%Q
        by (apply Qmult_le_0_compat; lra).
      lra. }
    assert (A4 : (X * S <= (N - 1) * S)%Q).
    { assert (0 <= (N - 1 - X) * S)%Q by (apply Qmult_le_0_compat; lra). lra. }
    assert (A5 : ((16777217 # 1) * (16777217 # 1) * ((N - 1) * S)
                  < (16777216 # 1) * (16777216 # 1) * (N * S))%Q).
    { assert (0 <= ((8388608 # 1) - N) * S)%Q by (apply Qmult_le_0_compat; lra).
      lra. }
    apply (Qmul_cancel_lt _ _ N QN). lra. }
  assert (B : 0 <= int_of_f32 (S754_finite false mp ep) < sw).
  { apply int_of_f32_bounds; [lia | unfold INT_MAX; lia | | exact HF].
    change (inject_Z 0) with 0%Q.
    apply Qlt_le_weak, Qmul_pos_pos; [apply inject_Z_pos; lia | apply pow2_pos]. }
  lia.
Qed.


(** ** Loads, stores and loops *)

Lemma wrap32_id z : in_int z -> wrap32 z = z.
Proof.
  unfold in_int, INT_MIN, INT_MAX, wrap32. intros H.
  rewrite Z.mod_small; lia.
Qed.

Lemma length_store l i v : length (store l i v) = length l.
Proof. unfold store. destruct (0 <=? i); [apply length_insert | reflexivity]. Qed.

Lemma load_store_eq l i v :
  0 <= i < Z.of_nat (length l) -> load (store l i v) i = v.
Proof.
  intros H. unfold load, store in *.
  replace (0 <=? i) with true by (symmetry; apply Z.leb_le; lia).
  rewrite list_lookup_insert_eq by lia. reflexivity.
Qed.

Lemma load_store_ne l i j v : i <> j -> load (store l i v) j = load l j.
Proof.
  intros H. unfold load, store in *.
  destruct (Z.leb_spec 0 j); [|reflexivity].
  destruct (Z.leb_spec 0 i); [|reflexivity].
  rewrite list_lookup_insert_ne by lia. reflexivity.
Qed.

Lemma load_lookup l i :
  0 <= i < Z.of_nat (length l) -> l !! Z.to_nat i = Some (load l i).
Proof.
  intros H. unfold load in *.
  replace (0 <=? i) with true by (symmetry; apply Z.leb_le; lia).
  destruct (lookup_lt_is_Some_2 l (Z.to_nat i) ltac:(lia)) as [v Hv].
  simpl in *. rewrite Hv. reflexivity.
Qed.

Lemma list_eq_load (l1 l2 : list Z) :
  length l1 = length l2 ->
  (forall i, 0 <= i < Z.of_nat (length l1) -> load l1 i = load l2 i) ->
  l1 = l2.
Proof.
  intros Hlen H. apply list_eq. intros n.
  destruct (Nat.lt_ge_cases n (length l1)) as [Hlt | Hge].
  - pose proof (load_lookup l1 (Z.of_nat n) ltac:(lia)) as H1.
    pose proof (load_lookup l2 (Z.of_nat n) ltac:(lia)) as H2.
    rewrite Nat2Z.id in H1, H2. rewrite H1, H2, H by lia. reflexivity.
  - rewrite !lookup_ge_None_2 by lia. reflexivity.
Qed.

Lemma for_loop_ind {S : Type} (P : Z -> S -> Prop) (body : Z -> S -> S) (step : Z) :
  forall n i s,
    P i s ->
    (forall k s, (k < n)%nat -> P (i + Z.of_nat k * step) s ->
                 P (i + Z.of_nat (Datatypes.S k) * step) (body (i + Z.of_nat k * step) s)) ->
    P (i + Z.of_nat n * step) (for_loop n i step body s).
Proof.
  induction n as [|n IH]; intros i s H0 Hstep.
  - cbn [for_loop]. replace (i + Z.of_nat 0 * step) with i by lia. exact H0.
  - cbn [for_loop].
    replace (i + Z.of_nat (Datatypes.S n) * step) with (i + step + Z.of_nat n * step) by lia.
    apply IH.
    + specialize (Hstep 0%nat s ltac:(lia)).
      replace (i + Z.of_nat 0 * step) with i in Hstep by lia.
      replace (i + Z.of_nat 1 * step) with (i + step) in Hstep by lia.
      apply Hstep. exact H0.
    + intros k s' Hk Hp.
      specialize (Hstep (Datatypes.S k) s' ltac:(lia)).
      replace (i + Z.of_nat (Datatypes.S k) * step) with (i + step + Z.of_nat k * step)
        in Hstep by lia.
      replace (i + Z.of_nat (Datatypes.S (Datatypes.S k)) * step)
        with (i + step + Z.of_nat (Datatypes.S k) * step) in Hstep by lia.
      apply Hstep. exact Hp.
Qed.

Lemma for_range_ind {S : Type} (P : Z -> S -> Prop) (body : Z -> S -> S) lo hi s :
  lo <= hi ->
  P lo s ->
  (forall i s, lo <= i < hi -> P i s -> P (i + 1) (body i s)) ->
  P hi (for_range lo hi body s).
Proof.
  intros Hle H0 Hstep. unfold for_range.
  replace hi with (lo + Z.of_nat (Z.to_nat (hi - lo)) * 1) at 1 by lia.
  apply for_loop_ind; [exact H0|].
  intros k s' Hk Hp.
  replace (lo + Z.of_nat (Datatypes.S k) * 1) with (lo + Z.of_nat k * 1 + 1) by lia.
  apply Hstep; [lia | exact Hp].
Qed.

Lemma for_range_empty {S : Type} (body : Z -> S -> S) lo hi s :
  hi <= lo -> for_range lo hi body s = s.
Proof.
  intros H. unfold for_range. replace (Z.to_nat (hi - lo)) with 0%nat by lia. reflexivity.
Qed.

Lemma length_blit idx val ys ye xs xe nc buf :
  length (blit idx val ys ye xs xe nc buf) = length buf.
Proof.
  unfold blit.
  assert (Hc : forall x y b, length (for_range 0 nc
              (fun c buf => store buf (idx x y c) (val x y c)) b) = length b).
  { intros x y b. destruct (Z_le_gt_dec 0 nc).
    - apply (for_range_ind (fun _ b' => length b' = length b)); [lia | reflexivity |].
      intros i s _ Hs. rewrite length_store. exact Hs.
    - rewrite for_range_empty by lia. reflexivity. }
  assert (Hx : forall y b, length (for_range xs xe
              (fun x buf => for_range 0 nc
                 (fun c buf => store buf (idx x y c) (val x y c)) buf) b) = length b).
  { intros y b. destruct (Z_le_gt_dec xs xe).
    - apply (for_range_ind (fun _ b' => length b' = length b)); [lia | reflexivity |].
      intros i s _ Hs. rewrite Hc. exact Hs.
    - rewrite for_range_empty by lia. reflexivity. }
  destruct (Z_le_gt_dec ys ye).
  - apply (for_range_ind (fun _ b' => length b' = length buf)); [lia | reflexivity |].
    intros i s _ Hs. rewrite Hx. exact Hs.
  - rewrite for_range_empty by lia. reflexivity.
Qed.

Lemma cell_inj W B x y c x' y' c' :
  0 <= x < W -> 0 <= x' < W -> 0 <= c < B -> 0 <= c' < B ->
  cell W B x y c = cell W B x' y' c' -> x = x' /\ y = y' /\ c = c'.
Proof.
  unfold cell. intros Hx Hx' Hc Hc' H.
  assert (H1 : y * W + x = y' * W + x' /\ c = c').
  { apply (Z.div_mod_unique B); [lia | lia |].
    rewrite !(Z.mul_comm B). exact H. }
  destruct H1 as [H1 ->].
  assert (H2 : y = y' /\ x = x').
  { apply (Z.div_mod_unique W); [lia | lia |].
    rewrite !(Z.mul_comm W). exact H1. }
  tauto.
Qed.

Lemma cell_bounds W H B x y c :
  0 <= x < W -> 0 <= y < H -> 0 <= c < B -> 0 <= cell W B x y c < H * W * B.
Proof.
  unfold cell. intros Hx Hy Hc.
  assert (H0 : 0 <= (H - 1 - y) * W) by (apply Z.mul_nonneg_nonneg; lia).
  assert (H1 : y * W + x + 1 <= H * W) by lia.
  assert (H2 : (y * W + x + 1) * B <= H * W * B)
    by (apply Z.mul_le_mono_nonneg_r; lia).
  assert (H3 : 0 <= (y * W + x) * B).
  { apply Z.mul_nonneg_nonneg; [|lia].
    assert (0 <= y * W) by (apply Z.mul_nonneg_nonneg; lia). lia. }
  lia.
Qed.

Section Blit.
Variables (idx : Z -> Z -> Z -> Z) (val : Z -> Z -> Z -> Z).
Variables (W H B ys ye xs xe nc : Z) (buf : list Z).
Hypothesis Hys : 0 <= ys <= ye.
Hypothesis Hye : ye <= H.
Hypothesis Hxs : 0 <= xs <= xe.
Hypothesis Hxe : xe <= W.
Hypothesis Hnc : 0 <= nc <= B.
Hypothesis Hidx : forall x y c,
  in_rect ys ye xs xe nc x y c -> idx x y c = cell W B x y c.
Hypothesis Hlen : Z.of_nat (length buf) = H * W * B.

Lemma blit_inv_store y0 x0 c0 b :
  blit_inv val W B ys ye xs xe nc buf y0 x0 c0 b ->
  in_rect ys ye xs xe nc x0 y0 c0 ->
  blit_inv val W B ys ye xs xe nc buf y0 x0 (c0 + 1)
    (store b (idx x0 y0 c0) (val x0 y0 c0)).
Proof.
  intros (L & V & U) R. rewrite (Hidx _ _ _ R).
  destruct R as (Ry & Rx & Rc).
  pose proof (cell_bounds W H B x0 y0 c0 ltac:(lia) ltac:(lia) ltac:(lia)) as Hb.
  split; [rewrite length_store; exact L|]. split.
  - intros x y c R' Vis.
    destruct (Z.eq_dec (cell W B x0 y0 c0) (cell W B x y c)) as [E | E].
    + rewrite <- E. rewrite load_store_eq by lia.
      destruct R' as (Ry' & Rx' & Rc').
      apply cell_inj in E; [|lia..]. destruct E as (-> & -> & ->). reflexivity.
    + rewrite load_store_ne by exact E. apply V; [exact R'|].
      unfold visited in *.
      destruct Vis as [Vis | [-> [Vis | [-> Vis]]]]; [tauto | tauto |].
      assert (c <> c0) by (intros ->; apply E; reflexivity). right. split; [reflexivity|].
      right. split; [reflexivity | lia].
  - intros j Hj. rewrite load_store_ne.
    + apply U. exact Hj.
    + intros E. apply (Hj x0 y0 c0); [unfold in_rect; lia | symmetry; exact E].
Qed.

Lemma blit_inv_row y0 x0 b :
  ys <= y0 < ye -> xs <= x0 < xe ->
  blit_inv val W B ys ye xs xe nc buf y0 x0 0 b ->
  blit_inv val W B ys ye xs xe nc buf y0 (x0 + 1) 0
    (for_range 0 nc (fun c buf => store buf (idx x0 y0 c) (val x0 y0 c)) b).
Proof.
  intros Hy Hx I0.
  assert (I : blit_inv val W B ys ye xs xe nc buf y0 x0 nc
                (for_range 0 nc (fun c buf => store buf (idx x0 y0 c) (val x0 y0 c)) b)).
  { apply (for_range_ind (fun c b' => blit_inv val W B ys ye xs xe nc buf y0 x0 c b'));
      [lia | exact I0 |].
    intros c b' Hc Ib. apply blit_inv_store; [exact Ib | unfold in_rect; lia]. }
  destruct I as (L & V & U). split; [exact L|]. split; [|exact U].
  intros x y c R Vis. apply V; [exact R|].
  unfold visited, in_rect in *. lia.
Qed.

Lemma blit_inv_rows y0 b :
  ys <= y0 < ye ->
  blit_inv val W B ys ye xs xe nc buf y0 xs 0 b ->
  blit_inv val W B ys ye xs xe nc buf (y0 + 1) xs 0
    (for_range xs xe
       (fun x buf =>
          for_range 0 nc (fun c buf => store buf (idx x y0 c) (val x y0 c)) buf) b).
Proof.
  intros Hy I0.
  assert (I : blit_inv val W B ys ye xs xe nc buf y0 xe 0
                (for_range xs xe
                   (fun x buf =>
                      for_range 0 nc (fun c buf => store buf (idx x y0 c) (val x y0 c)) buf)
                   b)).
  { apply (for_range_ind (fun x b' => blit_inv val W B ys ye xs xe nc buf y0 x 0 b'));
      [lia | exact I0 |].
    intros x b' Hx Ib. apply blit_inv_row; assumption. }
  destruct I as (L & V & U). split; [exact L|]. split; [|exact U].
  intros x y c R Vis. apply V; [exact R|].
  unfold visited, in_rect in *. lia.
Qed.

Theorem blit_spec :
  let b := blit idx val ys ye xs xe nc buf in
  length b = length buf
  /\ (forall x y c, in_rect ys ye xs xe nc x y c -> load b (cell W B x y c) = val x y c)
  /\ (forall j, (forall x y c, in_rect ys ye xs xe nc x y c -> j <> cell W B x y c) ->
        load b j = load buf j).
Proof.
  assert (I : blit_inv val W B ys ye xs xe nc buf ye xs 0
                (blit idx val ys ye xs xe nc buf)).
  { unfold blit.
    apply (for_range_ind (fun y b' => blit_inv val W B ys ye xs xe nc buf y xs 0 b'));
      [lia | |].
    - split; [reflexivity|]. split; [|reflexivity].
      intros x y c R Vis. unfold visited, in_rect in *. lia.
    - intros y b' Hy Ib. apply blit_inv_rows; assumption. }
  destruct I as (L & V & U). split; [exact L|]. split; [|exact U].
  intros x y c R. apply V; [exact R|]. unfold visited, in_rect in *. lia.
Qed.

End Blit.

(** ** The blits of the program *)

Lemma int_add_id a b : in_int (a + b) -> int_add a b = a + b.
Proof. apply wrap32_id. Qed.
Lemma int_sub_id a b : in_int (a - b) -> int_sub a b = a - b.
Proof. apply wrap32_id. Qed.
Lemma int_mul_id a b : in_int (a * b) -> int_mul a b = a * b.
Proof. apply wrap32_id. Qed.

Lemma mul_le_box a b A B : 0 <= a <= A -> 0 <= b <= B -> 0 <= a * b <= A * B.
Proof.
  intros Ha Hb. split; [apply Z.mul_nonneg_nonneg; lia|].
  apply Z.mul_le_mono_nonneg; lia.
Qed.

(** Row-major indexing stays below the buffer size, so it does not wrap. *)
Lemma row_major_plain W H B x y c :
  0 <= x < W -> 0 <= y < H -> 0 <= c <= B -> 1 <= B -> W * H * B <= INT_MAX ->
  int_add (int_add (int_mul (int_mul y W) B) (int_mul x B)) c = cell W B x y c
  /\ int_add (int_mul (int_mul y W) B) (int_mul x B) = cell W B x y 0.
Proof.
  intros Hx Hy Hc HB Hmax. unfold cell.
  pose proof (mul_le_box y W (H - 1) W ltac:(lia) ltac:(lia)) as H1.
  pose proof (mul_le_box (y * W) B ((H - 1) * W) B ltac:(lia) ltac:(lia)) as H2.
  pose proof (mul_le_box x B (W - 1) B ltac:(lia) ltac:(lia)) as H3.
  assert (E : W * H * B = (H - 1) * W * B + (W - 1) * B + B) by ring.
  assert (H4 : (H - 1) * W <= (H - 1) * W * B).
  { rewrite <- (Z.mul_1_r ((H - 1) * W)) at 1.
    apply Z.mul_le_mono_nonneg_l; [apply Z.mul_nonneg_nonneg|]; lia. }
  rewrite (int_mul_id y W) by (unfold in_int, INT_MIN; lia).
  rewrite (int_mul_id (y * W) B) by (unfold in_int, INT_MIN; lia).
  rewrite (int_mul_id x B) by (unfold in_int, INT_MIN; lia).
  rewrite (int_add_id (y * W * B) (x * B)) by (unfold in_int, INT_MIN; lia).
  split; [|ring].
  rewrite int_add_id by (unfold in_int, INT_MIN; lia). ring.
Qed.

Lemma draw_rows_blit fb x_offset y_offset img :
  draw_rows fb x_offset y_offset img =
  blit (fun x y c => int_add (fb_index fb x y) c)
       (fun x y c => load (img_data img)
          (int_sub (int_sub (int_add (img_index img x_offset y_offset x y) (img_bpp img)) 1) c))
       (screen_y_start y_offset) (screen_y_end fb y_offset img)
       (screen_x_start x_offset) (screen_x_end fb x_offset img)
       (img_bpp img) (buffer fb).
Proof. reflexivity. Qed.

Lemma screen_x_plain fb x_offset img :
  in_int (x_offset + img_width img) ->
  screen_x_start x_offset = Z.max 0 x_offset
  /\ screen_x_end fb x_offset img = Z.min (fb_width fb) (x_offset + img_width img).
Proof.
  intros Hs. unfold screen_x_start, screen_x_end. rewrite int_add_id by exact Hs.
  destruct (Z.ltb_spec x_offset 0); destruct (Z.gtb_spec (x_offset + img_width img) (fb_width fb)); lia.
Qed.

Lemma screen_y_plain fb y_offset img :
  in_int (y_offset + img_height img) ->
  screen_y_start y_offset = Z.max 0 y_offset
  /\ screen_y_end fb y_offset img = Z.min (fb_height fb) (y_offset + img_height img).
Proof.
  intros Hs. unfold screen_y_start, screen_y_end. rewrite int_add_id by exact Hs.
  destruct (Z.ltb_spec y_offset 0); destruct (Z.gtb_spec (y_offset + img_height img) (fb_height fb)); lia.
Qed.

Lemma img_index_plain img x_offset y_offset x y c :
  img_wf img -> in_int x_offset -> in_int y_offset ->
  0 <= x - x_offset < img_width img -> 0 <= y - y_offset < img_height img ->
  0 <= c < img_bpp img ->
  int_sub (int_sub (int_add (img_index img x_offset y_offset x y) (img_bpp img)) 1) c
  = cell (img_width img) (img_bpp img) (x - x_offset) (y - y_offset) (img_bpp img - 1 - c).
Proof.
  intros (Hw & Hh & Hb & Hst & Hmax & Hlen) Hxo Hyo Hx Hy Hc.
  unfold img_index.
  rewrite (int_sub_id y y_offset) by (unfold in_int, INT_MIN, INT_MAX in *; nia).
  rewrite (int_sub_id x x_offset) by (unfold in_int, INT_MIN, INT_MAX in *; nia).
  destruct (row_major_plain (img_width img) (img_height img) (img_bpp img)
              (x - x_offset) (y - y_offset) (img_bpp img) ltac:(lia) ltac:(lia) ltac:(lia) ltac:(lia) Hmax)
    as [E1 E2].
  rewrite E1.
  pose proof (cell_bounds (img_width img) (img_height img) (img_bpp img)
                (x - x_offset) (y - y_offset) (img_bpp img - 1)
                ltac:(lia) ltac:(lia) ltac:(lia)) as Hb0.
  unfold cell in *.
  assert (img_height img * img_width img * img_bpp img
          = img_width img * img_height img * img_bpp img) by ring.
  set (t := (y - y_offset) * img_width img + (x - x_offset)) in *.
  rewrite (int_sub_id (t * img_bpp img + img_bpp img) 1) by (unfold in_int, INT_MIN; lia).
  rewrite int_sub_id by (unfold in_int, INT_MIN; lia).
  ring.
Qed.

Lemma draw_rows_spec fb img x_offset y_offset :
  fb_wf fb -> 3 <= fb_bpp fb -> img_wf img -> placed img x_offset y_offset ->
  screen_x_start x_offset <= screen_x_end fb x_offset img ->
  screen_y_start y_offset <= screen_y_end fb y_offset img ->
  let b := draw_rows fb x_offset y_offset img in
  length b = length (buffer fb)
  /\ (forall x y c, visible fb img x_offset y_offset x y -> 0 <= c < img_bpp img ->
        load b (cell (fb_width fb) (fb_bpp fb) x y c)
        = img_channel img (x - x_offset) (y - y_offset) (img_bpp img - 1 - c))
  /\ (forall j, (forall x y c, visible fb img x_offset y_offset x y -> 0 <= c < img_bpp img ->
                   j <> cell (fb_width fb) (fb_bpp fb) x y c) ->
        load b j = load (buffer fb) j).
Proof.
  intros Hfb Hbpp Himg (Hxo & Hyo & Hxs & Hys) Hxle Hyle.
  pose proof Hfb as (HW & HH & HB & Hmax & Hlen).
  pose proof Himg as (Hw & Hh & Hib & Hst & Himax & Hilen).
  destruct (screen_x_plain fb x_offset img Hxs) as [Exs Exe].
  destruct (screen_y_plain fb y_offset img Hys) as [Eys Eye].
  rewrite draw_rows_blit. rewrite Exs, Exe in *. rewrite Eys, Eye in *.
  pose proof (blit_spec
    (fun x y c => int_add (fb_index fb x y) c)
    (fun x y c => load (img_data img)
       (int_sub (int_sub (int_add (img_index img x_offset y_offset x y) (img_bpp img)) 1) c))
    (fb_width fb) (fb_height fb) (fb_bpp fb)
    (Z.max 0 y_offset) (Z.min (fb_height fb) (y_offset + img_height img))
    (Z.max 0 x_offset) (Z.min (fb_width fb) (x_offset + img_width img))
    (img_bpp img) (buffer fb)) as Hspec.
  cbv zeta in Hspec.
  destruct Hspec as (L & V & U); try lia.
  - intros x y c (Ry & Rx & Rc). unfold fb_index.
    apply row_major_plain with (H := fb_height fb); lia.
  - split; [exact L|]. split.
    + intros x y c [Vx Vy] Hc. rewrite V by (unfold in_rect; lia).
      unfold img_channel. f_equal. apply img_index_plain; try assumption; lia.
    + intros j Hj. apply U. intros x y c (Ry & Rx & Rc).
      apply Hj; [split; lia | lia].
Qed.


Lemma wrap32_high z : INT_MAX < z <= 2 * INT_MAX -> wrap32 z = z - 2 ^ 32.
Proof.
  unfold INT_MAX, wrap32. intros H.
  replace (z + 2 ^ 31) with (z - 2 ^ 31 + 1 * 2 ^ 32) by lia.
  rewrite Z.mod_add by lia. rewrite Z.mod_small; lia.
Qed.

Lemma resize_rows_blit src new_width new_height stride data :
  resize_rows src new_width new_height stride data =
  blit (fun x y c => int_add (dst_index stride (img_bpp src) x y) c)
       (fun x y c => load (img_data src)
                       (int_add (src_index src new_width new_height x y) c))
       0 new_height 0 new_width (img_bpp src) data.
Proof. reflexivity. Qed.

Lemma length_malloc a n data : malloc a n = Some data -> Z.of_nat (length data) = n.
Proof.
  unfold malloc. destruct a as [junk|]; [|discriminate].
  destruct (Z.leb_spec 0 n); [|discriminate].
  intros [= <-]. rewrite length_map, length_seqZ. lia.
Qed.


(** A byte count that wraps to a negative [int] makes the resize fail,
    whatever the allocator would grant. *)
Lemma resize_negative_size a_struct a_data src w h :
  int_mul h (int_mul w (img_bpp src)) < 0 ->
  Image_resize_linear a_struct a_data src w h = None.
Proof.
  intros Hn. unfold Image_resize_linear.
  destruct a_struct; cbn [negb]; [|reflexivity]. cbv zeta.
  unfold malloc. destruct a_data as [junk|]; [|reflexivity].
  apply Z.leb_gt in Hn. rewrite Hn. reflexivity.
Qed.

(** Indexing by rows of [W * B] bytes. *)
Lemma strided_plain W H B x y c :
  0 <= x < W -> 0 <= y < H -> 0 <= c <= B -> 1 <= B -> W * H * B <= INT_MAX ->
  int_add (int_add (int_mul y (W * B)) (int_mul x B)) c = cell W B x y c.
Proof.
  intros Hx Hy Hc HB Hmax. unfold cell.
  pose proof (mul_le_box y (W * B) (H - 1) (W * B) ltac:(lia)
                ltac:(split; [apply Z.mul_nonneg_nonneg|]; lia)) as H1.
  pose proof (mul_le_box x B (W - 1) B ltac:(lia) ltac:(lia)) as H3.
  assert (E : W * H * B = (H - 1) * (W * B) + (W - 1) * B + B) by ring.
  rewrite (int_mul_id y (W * B)) by (unfold in_int, INT_MIN; lia).
  rewrite (int_mul_id x B) by (unfold in_int, INT_MIN; lia).
  rewrite (int_add_id (y * (W * B)) (x * B)) by (unfold in_int, INT_MIN; lia).
  rewrite int_add_id by (unfold in_int, INT_MIN; lia). ring.
Qed.


(** What a successful resize holds, pixel by pixel. *)
Lemma resize_pixels a_struct a_data src new_width new_height r :
  0 < new_width -> 0 < new_height -> img_bpp src = 3 ->
  new_width * new_height * 3 <= INT_MAX ->
  Image_resize_linear a_struct a_data src new_width new_height = Some r ->
  img_width r = new_width /\ img_height r = new_height /\ img_bpp r = 3
  /\ img_stride r = new_width * 3
  /\ Z.of_nat (length (img_data r)) = new_height * new_width * 3
  /\ forall x y c, 0 <= x < new_width -> 0 <= y < new_height -> 0 <= c < 3 ->
       img_channel r x y c
       = load (img_data src) (int_add (src_index src new_width new_height x y) c).
Proof.
  intros Hw Hh Hb Hmax.
  assert (H1 : 0 <= new_width * 3 <= new_width * new_height * 3) by nia.
  assert (Es : int_mul new_width (img_bpp src) = new_width * 3).
  { rewrite Hb. apply int_mul_id. unfold in_int, INT_MIN. lia. }
  assert (Et : int_mul new_height (new_width * 3) = new_width * new_height * 3).
  { rewrite int_mul_id by (unfold in_int, INT_MIN; nia). ring. }
  unfold Image_resize_linear. rewrite Es, Et.
  destruct (negb a_struct); [discriminate|].
  destruct (malloc a_data (new_width * new_height * 3)) as [data|] eqn:Em; [|discriminate].
  intros [= <-]. unfold img_channel.
  cbn [img_width img_height img_bpp img_stride img_data].
  pose proof (length_malloc _ _ _ Em) as Hlen.
  rewrite resize_rows_blit.
  pose proof (blit_spec
    (fun x y c => int_add (dst_index (new_width * 3) (img_bpp src) x y) c)
    (fun x y c => load (img_data src)
                    (int_add (src_index src new_width new_height x y) c))
    new_width new_height 3 0 new_height 0 new_width (img_bpp src) data) as Hspec.
  cbv zeta in Hspec.
  destruct Hspec as (L & V & U); try lia.
  - intros x y c (Ry & Rx & Rc). unfold dst_index. rewrite Hb.
    apply strided_plain with (H := new_height); lia.
  - do 4 (split; [auto|]). split; [rewrite L, Hlen; ring|].
    intros x y c Hx Hy Hc.
    replace (cell new_width (img_bpp src) x y c) with (cell new_width 3 x y c)
      by (rewrite Hb; reflexivity).
    apply V. unfold in_rect. lia.
Qed.




(** ** The scale along the loop *)

Lemma in_scale_range_good s : in_scale_range s -> good s.
Proof.
  intros (Hv & Hp & _). split; [exact Hv|]. destruct s as [| | |[]]; try discriminate Hp.
  reflexivity.
Qed.

Lemma in_scale_range_bounds s :
  in_scale_range s -> ((1 # 10) <= F2Q s /\ F2Q s <= 5)%Q.
Proof.
  intros (_ & _ & Hlo & Hhi).
  assert (F2Q f32_0_1 == 13421773 # 134217728)%Q by (vm_compute; reflexivity).
  assert (F2Q f32_5_0 == 5)%Q by (vm_compute; reflexivity).
  split; lra.
Qed.

Lemma clamp_scale_fixed s : in_scale_range s -> clamp_scale s = s.
Proof.
  intros (Hv & Hp & Hlo & Hhi).
  destruct s as [| | |[] m e]; try discriminate Hp.
  pose proof (valid32_canonical _ _ _ Hv) as C.
  assert (C01 : canonical_mantissa f32_prec f32_emax 13421773 (-27) = true) by reflexivity.
  assert (C50 : canonical_mantissa f32_prec f32_emax 10485760 (-21) = true) by reflexivity.
  pose proof (SFcompare_pos m e _ _ C C01) as H1. fold f32_0_1 in H1.
  pose proof (SFcompare_pos _ _ m e C50 C) as H2. fold f32_5_0 in H2.
  unfold f32_0_1, f32_5_0 in Hlo, Hhi. rewrite !F2Q_pos_finite in Hlo, Hhi.
  unfold clamp_scale, f32_lt, SFltb.
  destruct (SFcompare (S754_finite false m e) f32_0_1) as [[]|]; try contradiction;
    try lra;
    destruct (SFcompare f32_5_0 (S754_finite false m e)) as [[]|]; try contradiction;
    try lra; reflexivity.
Qed.

Lemma fit_scale_good fb img :
  0 < img_width img <= INT_MAX -> 0 < img_height img <= INT_MAX ->
  good (fit_scale fb img).
Proof.
  intros Hw Hh. unfold fit_scale.
  destruct (f32_of_int_pos_finite _ Hw) as (mw & ew & Ew & _).
  destruct (f32_of_int_pos_finite _ Hh) as (mh & eh & Eh & _).
  rewrite Ew, Eh.
  destruct (f32_lt _ _); apply f32_div_good, f32_of_int_good.
Qed.

Lemma main_init_good fb0 img0 a_struct a_data st0 :
  0 < img_width img0 <= INT_MAX -> 0 < img_height img0 <= INT_MAX ->
  main_init fb0 img0 a_struct a_data = Some st0 ->
  scales_good st0 /\ default_scale st0 = scale st0
  /\ scale st0 = f32_mul (fit_scale fb0 img0) f32_0_8 /\ img st0 = img0.
Proof.
  intros Hw Hh. unfold main_init.
  destruct (Image_resize_linear _ _ _ _ _) as [r|]; [|discriminate].
  intros [= <-]. cbn.
  assert (good (f32_mul (fit_scale fb0 img0) f32_0_8)).
  { apply f32_mul_good; [apply fit_scale_good; assumption | reflexivity]. }
  split; [split; exact H|]. auto.
Qed.

Lemma key_scale_good st ch s :
  scales_good st -> key_scale st ch = Some s -> good s.
Proof.
  intros [Hs Hd]. unfold key_scale.
  destruct (Ascii.eqb ch "r"); [intros [= <-]; exact Hd|].
  destruct (Ascii.eqb ch "+"); [intros [= <-]; apply f32_mul_good; [exact Hs | reflexivity]|].
  destruct (Ascii.eqb ch "-"); [intros [= <-]; apply f32_div_good; exact Hs|].
  destruct (Ascii.eqb ch "q"); [discriminate|].
  intros [= <-]. exact Hs.
Qed.

(** What a turn that does not quit leaves in the state. *)
Lemma handle_key_state st i ev st' :
  handle_key st i = (ev, Some st') ->
  exists s, key_scale st (key i) = Some s
    /\ scale st' = clamp_scale s
    /\ default_scale st' = default_scale st
    /\ img st' = img st /\ fb st' = fb st.
Proof.
  unfold handle_key. destruct (key_scale st (key i)) as [s|]; [|discriminate].
  intros H. exists s. split; [reflexivity|].
  destruct (f32_eq _ _).
  - injection H as <- <-. cbn. auto.
  - destruct (Image_resize_linear _ _ _ _ _); injection H as <- <-; cbn; auto.
Qed.

Lemma draw_frame_state st :
  scale (snd (draw_frame st)) = scale st
  /\ default_scale (snd (draw_frame st)) = default_scale st
  /\ prev_scale (snd (draw_frame st)) = prev_scale st
  /\ img (snd (draw_frame st)) = img st
  /\ resized (snd (draw_frame st)) = resized st.
Proof. cbn. auto. Qed.

Lemma loop_body_state st i ev st' :
  loop_body st i = (ev, Some st') ->
  exists s, key_scale st (key i) = Some s
    /\ scale st' = clamp_scale s
    /\ default_scale st' = default_scale st
    /\ img st' = img st.
Proof.
  unfold loop_body. destruct (draw_frame st) as [ev1 st1] eqn:Ed.
  destruct (handle_key st1 i) as [ev2 st2] eqn:Eh. intros [= <- ->].
  destruct (handle_key_state _ _ _ _ Eh) as (s & Hk & Hs & Hd & Hi & _).
  pose proof (draw_frame_state st) as (D1 & D2 & D3 & D4 & D5). rewrite Ed in *. cbn [snd] in *.
  exists s. split.
  - unfold key_scale in *. rewrite D1, D2 in Hk. exact Hk.
  - rewrite Hs, Hd, Hi. auto.
Qed.

Lemma reachable_good st0 st :
  scales_good st0 -> reachable st0 st ->
  scales_good st /\ default_scale st = default_scale st0 /\ img st = img st0.
Proof.
  intros H0 Hr. induction Hr as [|st i ev st' Hr IH Hb].
  - auto.
  - destruct IH as (Hg & Hd & Hi).
    destruct (loop_body_state _ _ _ _ Hb) as (s & Hk & Hs & Hd' & Hi').
    split; [|split; congruence].
    split.
    + rewrite Hs. apply in_scale_range_good, clamp_scale_in_range.
      eapply key_scale_good; eassumption.
    + rewrite Hd'. apply Hg.
Qed.

Lemma loop_body_continues st i :
  key_scale st (key i) <> None -> exists ev st', loop_body st i = (ev, Some st').
Proof.
  intros Hk. unfold loop_body. destruct (draw_frame st) as [ev1 st1] eqn:Ed.
  pose proof (draw_frame_state st) as (D1 & D2 & _). rewrite Ed in *. cbn [snd] in *.
  assert (Hk1 : key_scale st1 (key i) = key_scale st (key i)).
  { unfold key_scale. rewrite D1, D2. reflexivity. }
  unfold handle_key. rewrite Hk1.
  destruct (key_scale st (key i)) as [s|]; [|congruence].
  destruct (f32_eq _ _); [eauto|].
  destruct (Image_resize_linear _ _ _ _ _); eauto.
Qed.

Lemma main_loop_cons i ins st ev st' :
  loop_body st i = (ev, Some st') ->
  snd (main_loop (i :: ins) st) = snd (main_loop ins st').
Proof.
  intros H. cbn [main_loop]. rewrite H.
  destruct (main_loop ins st') as [ev' st'']. reflexivity.
Qed.

Lemma main_loop_nil_scale st : scale (snd (main_loop [] st)) = scale st.
Proof. reflexivity. Qed.

Lemma handle_key_resize st i ev r w h :
  handle_key st i = (ev, r) -> In (EvResize w h) ev ->
  exists s, key_scale st (key i) = Some s
    /\ w = resized_width (img st) (clamp_scale s)
    /\ h = resized_height (img st) (clamp_scale s).
Proof.
  unfold handle_key. destruct (key_scale st (key i)) as [s|].
  - intros H Hin. exists s. split; [reflexivity|].
    destruct (f32_eq _ _).
    + injection H as <- _. destruct Hin.
    + destruct (Image_resize_linear _ _ _ _ _); injection H as <- _; cbn in Hin.
      * destruct Hin as [[= <- <-] | [Hin | []]]; [auto | discriminate Hin].
      * destruct Hin as [[= <- <-] | []]. auto.
  - intros [= <- _] [].
Qed.

Lemma loop_body_resize st i ev r w h :
  loop_body st i = (ev, r) -> In (EvResize w h) ev ->
  exists s, key_scale st (key i) = Some s
    /\ w = resized_width (img st) (clamp_scale s)
    /\ h = resized_height (img st) (clamp_scale s).
Proof.
  unfold loop_body. destruct (draw_frame st) as [ev1 st1] eqn:Ed.
  pose proof (draw_frame_state st) as (D1 & D2 & D3 & D4 & D5). rewrite Ed in *.
  cbn [snd] in *.
  assert (Hev1 : ev1 = [EvClear; EvDraw (pos_x st) (pos_y st) (resized st); EvUpdate]).
  { unfold draw_frame in Ed. injection Ed as <- _. reflexivity. }
  assert (Hk1 : key_scale st1 (key i) = key_scale st (key i)).
  { unfold key_scale. rewrite D1, D2. reflexivity. }
  destruct (handle_key st1 i) as [ev2 st2] eqn:Eh.
  intros [= <- _] Hin. subst ev1. cbn in Hin.
  do 4 (destruct Hin as [Hin | Hin]; [discriminate Hin|]).
  destruct (handle_key_resize _ _ _ _ _ _ Eh Hin) as (s & Hk & Hw & Hh).
  exists s. rewrite <- Hk1, <- D4. auto.
Qed.

(** ** The frame: clear, draw, flush *)

(** The device [framebuffer_draw_image_io] returns is that of
    [framebuffer_draw_image]. *)
Lemma draw_image_io_device fb x_offset y_offset img :
  snd (framebuffer_draw_image_io fb x_offset y_offset img)
  = framebuffer_draw_image fb x_offset y_offset img.
Proof.
  unfold framebuffer_draw_image_io, framebuffer_draw_image.
  destruct fb as [f|]; [|reflexivity]. destruct img as [im|]; [|reflexivity].
  destruct (_ || _); [reflexivity|]. cbv zeta.
  destruct (fb_bpp f <? 3); reflexivity.
Qed.

Lemma screensize_plain fb :
  fb_wf fb -> 1 <= fb_bpp fb ->
  int_mul (int_mul (fb_width fb) (fb_height fb)) (fb_bpp fb)
  = fb_width fb * fb_height fb * fb_bpp fb.
Proof.
  intros (HW & HH & HB & Hmax & Hlen) Hb.
  assert (0 <= fb_width fb * fb_height fb) by (apply Z.mul_nonneg_nonneg; lia).
  assert (fb_width fb * fb_height fb * 1 <= fb_width fb * fb_height fb * fb_bpp fb)
    by (apply Z.mul_le_mono_nonneg_l; lia).
  rewrite (int_mul_id (fb_width fb)) by (unfold in_int, INT_MIN, INT_MAX in *; lia).
  apply int_mul_id. unfold in_int, INT_MIN, INT_MAX in *. lia.
Qed.

Lemma for_step_count n B : 0 <= n -> 1 <= B -> (n * B - 0 + B - 1) / B = n.
Proof.
  intros Hn HB. symmetry. apply (Z.div_unique _ _ _ (B - 1)); lia.
Qed.

(** The loop of [framebuffer_clear_color] over [n] pixels of [B] bytes. *)
Lemma clear_loop B n r g b (buf : list Z) :
  3 <= B -> 0 <= n -> n * B <= INT_MAX -> Z.of_nat (length buf) = n * B ->
  let out :=
    for_step 0 (n * B) B
      (fun i buf =>
         let buf := store buf i b in
         let buf := store buf (int_add i 1) g in
         store buf (int_add i 2) r) buf in
  length out = length buf
  /\ (forall p, 0 <= p < n ->
        load out (p * B) = b /\ load out (p * B + 1) = g /\ load out (p * B + 2) = r)
  /\ (forall p c, 0 <= p < n -> 3 <= c < B -> load out (p * B + c) = load buf (p * B + c)).
Proof.
  intros HB Hn Hmax Hlen. cbv zeta. unfold for_step.
  rewrite for_step_count by lia.
  set (body := fun (i : Z) (buf : list Z) =>
                 store (store (store buf i b) (int_add i 1) g) (int_add i 2) r).
  pose (P := fun (i : Z) (s : list Z) =>
    length s = length buf
    /\ (forall p, 0 <= p < n -> p * B < i ->
          load s (p * B) = b /\ load s (p * B + 1) = g /\ load s (p * B + 2) = r)
    /\ (forall p c, 0 <= p < n -> 3 <= c < B -> load s (p * B + c) = load buf (p * B + c))).
  assert (HP : P (0 + Z.of_nat (Z.to_nat n) * B) (for_loop (Z.to_nat n) 0 B body buf)).
  { apply for_loop_ind.
    - unfold P. split; [reflexivity|]. split; [|reflexivity].
      intros p Hp Hlt. exfalso.
      assert (0 <= p * B) by (apply Z.mul_nonneg_nonneg; lia). lia.
    - intros k s Hk (L & V & U).
      assert (Hk' : 0 <= Z.of_nat k < n) by lia.
      set (i := 0 + Z.of_nat k * B).
      assert (Hi : i = Z.of_nat k * B) by (unfold i; lia).
      assert (Hi0 : 0 <= i) by (rewrite Hi; apply Z.mul_nonneg_nonneg; lia).
      assert (Hi1 : i + B <= n * B).
      { rewrite Hi. replace (Z.of_nat k * B + B) with ((Z.of_nat k + 1) * B) by ring.
        apply Z.mul_le_mono_nonneg_r; lia. }
      assert (A1 : int_add i 1 = i + 1)
        by (apply int_add_id; unfold in_int, INT_MIN, INT_MAX in *; lia).
      assert (A2 : int_add i 2 = i + 2)
        by (apply int_add_id; unfold in_int, INT_MIN, INT_MAX in *; lia).
      unfold P, body. rewrite A1, A2.
      split; [rewrite !length_store; exact L|]. split.
      + intros p Hp Hlt.
        replace (0 + Z.of_nat (S k) * B) with (i + B) in Hlt by lia.
        destruct (Z.eq_dec p (Z.of_nat k)) as [-> | Hne].
        * rewrite <- Hi.
          rewrite (load_store_ne _ (i + 2) i), (load_store_ne _ (i + 1) i) by lia.
          rewrite load_store_eq by lia.
          rewrite (load_store_ne _ (i + 2) (i + 1)) by lia.
          rewrite load_store_eq by (rewrite length_store; lia).
          rewrite load_store_eq by (rewrite !length_store; lia).
          auto.
        * assert (Hpk : p < Z.of_nat k).
          { destruct (Z_lt_ge_dec p (Z.of_nat k)) as [|Hge]; [assumption|].
            exfalso. assert ((Z.of_nat k + 1) * B <= p * B)
              by (apply Z.mul_le_mono_nonneg_r; lia). lia. }
          assert (Hpi : p * B + B <= i).
          { rewrite Hi. replace (p * B + B) with ((p + 1) * B) by ring.
            apply Z.mul_le_mono_nonneg_r; lia. }
          rewrite !load_store_ne by lia.
          apply V; lia.
      + intros p c Hp Hc.
        assert (p * B + c <> i /\ p * B + c <> i + 1 /\ p * B + c <> i + 2).
        { destruct (Z_lt_ge_dec p (Z.of_nat k)) as [Hlt|Hge].
          - assert (p * B + B <= i).
            { rewrite Hi. replace (p * B + B) with ((p + 1) * B) by ring.
              apply Z.mul_le_mono_nonneg_r; lia. }
            lia.
          - assert (i <= p * B) by (rewrite Hi; apply Z.mul_le_mono_nonneg_r; lia).
            lia. }
        rewrite !load_store_ne by lia. apply U; lia. }
  destruct HP as (L & V & U). rewrite Z2Nat.id in V by lia.
  split; [exact L|]. split; [|exact U].
  intros p Hp. apply V; [lia|].
  replace (0 + n * B) with (n * B) by lia.
  apply Z.mul_lt_mono_pos_r; lia.
Qed.

Lemma cell_pixel W B x y c : cell W B x y c = (y * W + x) * B + c.
Proof. reflexivity. Qed.

Lemma pixel_number W H x y : 0 <= x < W -> 0 <= y < H -> 0 <= y * W + x < W * H.
Proof.
  intros Hx Hy.
  assert (0 <= y * W) by (apply Z.mul_nonneg_nonneg; lia).
  assert ((y + 1) * W <= H * W) by (apply Z.mul_le_mono_nonneg_r; lia).
  lia.
Qed.

(** The whole copy of [framebuffer_update]. *)
Lemma copy_bytes_spec (dst src : list Z) n :
  Z.of_nat (length dst) = n -> Z.of_nat (length src) = n -> copy_bytes dst src n = src.
Proof.
  intros Hd Hs. unfold copy_bytes.
  pose (P := fun (i : Z) (d : list Z) =>
    length d = length dst /\ forall j, 0 <= j < i -> load d j = load src j).
  assert (HP : P n (for_range 0 n (fun i d => store d i (load src i)) dst)).
  { apply for_range_ind; [lia | |].
    - split; [reflexivity|]. intros j Hj. lia.
    - intros i d Hi (L & V). split; [rewrite length_store; exact L|].
      intros j Hj. destruct (Z.eq_dec j i) as [-> | Hne].
      + apply load_store_eq. lia.
      + rewrite load_store_ne by lia. apply V. lia. }
  destruct HP as (L & V). apply list_eq_load.
  - lia.
  - intros i Hi. apply V. lia.
Qed.

(** [framebuffer_clear_color] on a device of at least three bytes a pixel. *)
Lemma clear_color_spec fb r g b :
  fb_wf fb -> 3 <= fb_bpp fb ->
  exists buf,
    framebuffer_clear_color (Some fb) r g b = Some (set_buffer fb buf)
    /\ length buf = length (buffer fb)
    /\ forall x y, 0 <= x < fb_width fb -> 0 <= y < fb_height fb ->
         load buf (cell (fb_width fb) (fb_bpp fb) x y 0) = b
         /\ load buf (cell (fb_width fb) (fb_bpp fb) x y 1) = g
         /\ load buf (cell (fb_width fb) (fb_bpp fb) x y 2) = r
         /\ forall c, 3 <= c < fb_bpp fb ->
              load buf (cell (fb_width fb) (fb_bpp fb) x y c)
              = load (buffer fb) (cell (fb_width fb) (fb_bpp fb) x y c).
Proof.
  intros Hfb Hb. pose proof Hfb as (HW & HH & HB & Hmax & Hlen).
  unfold framebuffer_clear_color.
  replace (fb_bpp fb <? 3) with false by (symmetry; apply Z.ltb_ge; lia).
  rewrite screensize_plain by (assumption || lia).
  assert (Hn : 0 <= fb_width fb * fb_height fb) by (apply Z.mul_nonneg_nonneg; lia).
  destruct (clear_loop (fb_bpp fb) (fb_width fb * fb_height fb) r g b (buffer fb))
    as (L & V & U); try lia.
  eexists. split; [reflexivity|]. split; [exact L|].
  intros x y Hx Hy. pose proof (pixel_number _ _ x y Hx Hy) as Hp.
  rewrite !cell_pixel.
  destruct (V (y * fb_width fb + x) Hp) as (V0 & V1 & V2).
  rewrite Z.add_0_r. repeat split; try assumption.
  intros c Hc. apply U; assumption.
Qed.

Lemma set_buffer_same fb : set_buffer fb (buffer fb) = fb.
Proof. destruct fb. reflexivity. Qed.

(** [framebuffer_draw_image] on a device of at least three bytes a pixel,
    whether or not the image meets the screen. *)
Lemma draw_image_spec fb img x_offset y_offset :
  fb_wf fb -> 3 <= fb_bpp fb -> img_wf img -> placed img x_offset y_offset ->
  exists buf,
    framebuffer_draw_image (Some fb) x_offset y_offset (Some img) = Some (set_buffer fb buf)
    /\ length buf = length (buffer fb)
    /\ (forall x y c, visible fb img x_offset y_offset x y -> 0 <= c < img_bpp img ->
          load buf (cell (fb_width fb) (fb_bpp fb) x y c)
          = img_channel img (x - x_offset) (y - y_offset) (img_bpp img - 1 - c))
    /\ (forall j, (forall x y c, visible fb img x_offset y_offset x y -> 0 <= c < img_bpp img ->
                     j <> cell (fb_width fb) (fb_bpp fb) x y c) ->
          load buf j = load (buffer fb) j).
Proof.
  intros Hfb Hbpp Himg Hpl.
  pose proof Hpl as (Hxo & Hyo & Hxs & Hys).
  destruct (screen_x_plain fb x_offset img Hxs) as [Exs Exe].
  destruct (screen_y_plain fb y_offset img Hys) as [Eys Eye].
  unfold framebuffer_draw_image.
  destruct ((screen_x_start x_offset >=? screen_x_end fb x_offset img)
            || (screen_y_start y_offset >=? screen_y_end fb y_offset img)) eqn:E.
  - exists (buffer fb). rewrite set_buffer_same. split; [reflexivity|].
    split; [reflexivity|]. split; [|reflexivity].
    intros x y c [Vx Vy] _. exfalso.
    apply orb_true_iff in E. rewrite !Z.geb_leb, !Z.leb_le in E.
    rewrite Exs, Exe, Eys, Eye in E. lia.
  - apply orb_false_iff in E. rewrite !Z.geb_leb, !Z.leb_gt in E.
    replace (fb_bpp fb <? 3) with false by (symmetry; apply Z.ltb_ge; lia).
    eexists. split; [reflexivity|].
    apply draw_rows_spec; try assumption; lia.
Qed.

(** A byte of the device that no covered pixel owns. *)
Lemma cell_not_drawn fb img x_offset y_offset x y c :
  0 <= x < fb_width fb -> 0 <= c < fb_bpp fb ->
  img_bpp img <= fb_bpp fb ->
  ~ visible fb img x_offset y_offset x y \/ img_bpp img <= c ->
  forall x' y' c', visible fb img x_offset y_offset x' y' -> 0 <= c' < img_bpp img ->
    cell (fb_width fb) (fb_bpp fb) x y c <> cell (fb_width fb) (fb_bpp fb) x' y' c'.
Proof.
  intros Hx Hc Hb Hout x' y' c' Hv Hc' Heq.
  assert (Hx' : 0 <= x' < fb_width fb) by (destruct Hv as [? _]; lia).
  assert (Hc'' : 0 <= c' < fb_bpp fb) by lia.
  destruct (cell_inj _ _ _ _ _ _ _ _ Hx Hx' Hc Hc'' Heq) as (-> & -> & ->).
  destruct Hout as [Hn | Hge]; [exact (Hn Hv) | lia].
Qed.

Lemma update_spec fb :
  fb_wf fb -> 1 <= fb_bpp fb -> length (fbp fb) = length (buffer fb) ->
  framebuffer_update (Some fb)
  = Some {| fbp := buffer fb; buffer := buffer fb; fb_width := fb_width fb;
            fb_height := fb_height fb; fb_bpp := fb_bpp fb |}.
Proof.
  intros Hfb Hb Hl. pose proof Hfb as (HW & HH & HB & Hmax & Hlen).
  unfold framebuffer_update. rewrite screensize_plain by assumption.
  rewrite copy_bytes_spec; [reflexivity | |]; lia.
Qed.

Lemma pos_plain W w :
  0 <= W <= INT_MAX -> 0 <= w <= INT_MAX ->
  int_div (int_sub W w) 2 = Z.quot (W - w) 2
  /\ in_int (Z.quot (W - w) 2) /\ in_int (Z.quot (W - w) 2 + w).
Proof.
  intros HW Hw. unfold in_int, INT_MIN, INT_MAX in *.
  pose proof (Z.quot_rem' (W - w) 2) as E.
  assert (R : -2 < Z.rem (W - w) 2 < 2).
  { destruct (Z_le_gt_dec 0 (W - w)).
    - assert (0 <= Z.rem (W - w) 2 < 2) by (apply Z.rem_bound_pos; lia). lia.
    - pose proof (Z.rem_bound_pos_neg (W - w) 2 ltac:(lia) ltac:(lia)). lia. }
  rewrite int_sub_id by (unfold in_int, INT_MIN, INT_MAX; lia).
  unfold int_div. rewrite wrap32_id by (unfold in_int, INT_MIN, INT_MAX; lia).
  split; [reflexivity|]. lia.
Qed.

(** ** The arithmetic of the resampler *)

Lemma inject_Z_ge1 z : 1 <= z -> (1 <= inject_Z z)%Q.
Proof. intros. change 1%Q with (inject_Z 1). rewrite <- Zle_Qle. assumption. Qed.


(** The relative error of a binary32 rounding, here for magnitudes between
    [2^-64] and [2^64]. *)
Lemma f32_relative sx v f :
  rounded f32_prec f32_emax sx v f ->
  ((1 # 18446744073709551616) <= v)%Q -> (v <= 18446744073709551616 # 1)%Q ->
  exists m e,
    f = S754_finite sx m e
    /\ valid32 (S754_finite sx m e)
    /\ ((16777215 # 1) * v <= (16777216 # 1) * (inject_Z (Zpos m) * pow2 e))%Q
    /\ ((16777216 # 1) * (inject_Z (Zpos m) * pow2 e) <= (16777217 # 1) * v)%Q.
Proof.
  intros H Hlo Hhi.
  destruct (rounded_relative f32_prec f32_emax f32_prec_pos sx _ _ H) as (m & e & Hf & H1 & H2).
  - assert (pow2 (emin f32_prec f32_emax + f32_prec - 1) <= 1 # 18446744073709551616)%Q
      by (vm_compute; discriminate).
    lra.
  - change (inject_Z (2 ^ f32_prec)) with (16777216 # 1)%Q.
    assert ((16777216 # 1) * pow2 f32_emax
             == 5708990770823839524233143877797980545530986496 # 1)%Q
      by (vm_compute; reflexivity).
    lra.
  - exists m, e. split; [exact Hf|]. split.
    + unfold valid32. rewrite <- Hf. eapply rounded_valid; exact H.
    + change (inject_Z (2 ^ f32_prec)) with (16777216 # 1)%Q in H1, H2.
      change (inject_Z (2 ^ f32_prec) - 1)%Q with ((16777216 # 1) - 1)%Q in H1.
      split; lra.
Qed.

(** [(float) a / (float) b] for two sizes of at most [2^24]. *)
Lemma ratio_rounded a b :
  0 < a <= 2 ^ 24 -> 0 < b <= 2 ^ 24 ->
  exists m e,
    f32_div (f32_of_int a) (f32_of_int b) = S754_finite false m e
    /\ valid32 (S754_finite false m e)
    /\ ((16777215 # 1) * inject_Z a
          <= (16777216 # 1) * (inject_Z (Zpos m) * pow2 e) * inject_Z b)%Q
    /\ ((16777216 # 1) * (inject_Z (Zpos m) * pow2 e) * inject_Z b
          <= (16777217 # 1) * inject_Z a)%Q.
Proof.
  intros Ha Hb.
  destruct (f32_of_int_exact a Ha) as (ma & ea & Ea & Va & Hva).
  destruct (f32_of_int_exact b Hb) as (mb & eb & Eb & Vb & Hvb).
  rewrite Ea, Eb.
  assert (QB : (0 < inject_Z b)%Q) by (apply inject_Z_pos; lia).
  assert (QA1 : (1 <= inject_Z a)%Q) by (apply inject_Z_ge1; lia).
  assert (QB1 : (1 <= inject_Z b)%Q) by (apply inject_Z_ge1; lia).
  assert (QA' : (inject_Z a <= 16777216 # 1)%Q)
    by (change (16777216 # 1)%Q with (inject_Z (2 ^ 24)); rewrite <- Zle_Qle; lia).
  assert (QB' : (inject_Z b <= 16777216 # 1)%Q)
    by (change (16777216 # 1)%Q with (inject_Z (2 ^ 24)); rewrite <- Zle_Qle; lia).
  set (v := (inject_Z a / inject_Z b)%Q).
  assert (Hv : (v * inject_Z b == inject_Z a)%Q) by (apply Qdiv_witness; exact QB).
  assert (Hdiv : rounded f32_prec f32_emax false v
                   (f32_div (S754_finite false ma ea) (S754_finite false mb eb))).
  { apply (f32_div_rounded false ma ea false mb eb). rewrite Va, Vb. exact Hv. }
  assert (V1 : ((1 # 16777216) <= v)%Q).
  { assert (0 <= v * ((16777216 # 1) - inject_Z b))%Q.
    { apply Qmult_le_0_compat; [|lra].
      apply (Qmul_cancel_le _ _ (inject_Z b) QB). lra. }
    lra. }
  assert (V2 : (v <= 16777216 # 1)%Q).
  { assert (0 <= v * (inject_Z b - 1))%Q.
    { apply Qmult_le_0_compat; [|lra].
      apply (Qmul_cancel_le _ _ (inject_Z b) QB). lra. }
    lra. }
  destruct (f32_relative false v _ Hdiv) as (m & e & Hf & Hval & H1 & H2); [lra | lra |].
  exists m, e. split; [exact Hf|]. split; [exact Hval|].
  set (R := (inject_Z (Zpos m) * pow2 e)%Q) in *.
  split.
  - assert (0 <= ((16777216 # 1) * R - (16777215 # 1) * v) * inject_Z b)%Q
      by (apply Qmult_le_0_compat; lra).
    lra.
  - assert (0 <= ((16777217 # 1) * v - (16777216 # 1) * R) * inject_Z b)%Q
      by (apply Qmult_le_0_compat; lra).
    lra.
Qed.

(** [(float) x * r] for a positive count of at most [2^24] and a factor
    between [2^-32] and [2^32]. *)
Lemma product_rounded x mr er :
  0 < x <= 2 ^ 24 -> valid32 (S754_finite false mr er) ->
  ((1 # 4294967296) <= inject_Z (Zpos mr) * pow2 er)%Q ->
  (inject_Z (Zpos mr) * pow2 er <= 4294967296 # 1)%Q ->
  exists m e,
    f32_mul (f32_of_int x) (S754_finite false mr er) = S754_finite false m e
    /\ valid32 (S754_finite false m e)
    /\ ((16777215 # 1) * (inject_Z x * (inject_Z (Zpos mr) * pow2 er))
          <= (16777216 # 1) * (inject_Z (Zpos m) * pow2 e))%Q
    /\ ((16777216 # 1) * (inject_Z (Zpos m) * pow2 e)
          <= (16777217 # 1) * (inject_Z x * (inject_Z (Zpos mr) * pow2 er)))%Q.
Proof.
  intros Hx Vr R1 R2.
  destruct (f32_of_int_exact x Hx) as (mx & ex & Ex & Vx & Hvx).
  rewrite Ex.
  pose proof (f32_mul_rounded false mx ex false mr er Hvx Vr) as Hmul.
  cbn [xorb] in Hmul.
  set (R := (inject_Z (Zpos mr) * pow2 er)%Q) in *.
  apply (rounded_Qeq _ _ _ _ (inject_Z x * R)%Q) in Hmul; [|rewrite Vx; reflexivity].
  assert (QX : (1 <= inject_Z x)%Q) by (apply inject_Z_ge1; lia).
  assert (QX' : (inject_Z x <= 16777216 # 1)%Q)
    by (change (16777216 # 1)%Q with (inject_Z (2 ^ 24)); rewrite <- Zle_Qle; lia).
  assert (P1 : ((1 # 4294967296) <= inject_Z x * R)%Q).
  { assert (0 <= (inject_Z x - 1) * R)%Q by (apply Qmult_le_0_compat; lra). lra. }
  assert (P2 : (inject_Z x * R <= (16777216 # 1) * (4294967296 # 1))%Q).
  { assert (0 <= ((16777216 # 1) - inject_Z x) * R)%Q by (apply Qmult_le_0_compat; lra).
    lra. }
  destruct (f32_relative false _ _ Hmul) as (m & e & Hf & Hval & H1 & H2); [lra | | ].
  { assert ((16777216 # 1) * (4294967296 # 1) <= 18446744073709551616 # 1)%Q. 2: lra.
    vm_compute. discriminate. }
  exists m, e. auto.
Qed.

Lemma int_of_f32_Qfloor m e :
  (inject_Z (Zpos m) * pow2 e < 2147483648 # 1)%Q ->
  int_of_f32 (S754_finite false m e) = Qfloor (inject_Z (Zpos m) * pow2 e).
Proof.
  intros Hlt. set (v := (inject_Z (Zpos m) * pow2 e)%Q) in *.
  assert (Hv : (0 < v)%Q) by (apply Qmul_pos_pos; [apply inject_Z_pos; lia | apply pow2_pos]).
  pose proof (Qfloor_le v) as F1. pose proof (Qlt_floor v) as F2.
  rewrite inject_Z_plus in F2. change (inject_Z 1) with 1%Q in F2.
  assert (A : 0 <= Qfloor v).
  { change 0 with (Qfloor 0). apply Qfloor_resp_le. lra. }
  assert (B : Qfloor v <= INT_MAX).
  { assert (inject_Z (Qfloor v) < inject_Z 2147483648)%Q
      by (change (inject_Z 2147483648) with (2147483648 # 1)%Q; lra).
    rewrite <- Zlt_Qlt in H. unfold INT_MAX. lia. }
  apply int_of_f32_floor; [lia | exact F1 | exact F2].
Qed.

(** The resampler never steps back: a later target column reads the same
    source column or a later one. *)
Lemma sampled_coord_mono sw nw x x' :
  0 < sw <= 2 ^ 24 -> 0 < nw <= 2 ^ 23 -> 0 <= x <= x' -> x' < nw ->
  int_of_f32 (f32_mul (f32_of_int x) (f32_div (f32_of_int sw) (f32_of_int nw)))
  <= int_of_f32 (f32_mul (f32_of_int x') (f32_div (f32_of_int sw) (f32_of_int nw))).
Proof.
  intros Hsw Hnw Hx Hx'.
  destruct (Z.eq_dec x x') as [<- | Hne]; [lia|].
  destruct (Z.eq_dec x 0) as [-> | Hx0].
  { pose proof (sampled_coord_bounds sw nw 0 Hsw Hnw ltac:(lia)) as B0.
    pose proof (sampled_coord_bounds sw nw x' Hsw Hnw ltac:(lia)) as B1.
    assert (E0 : int_of_f32 (f32_mul (f32_of_int 0)
                   (f32_div (f32_of_int sw) (f32_of_int nw))) = 0).
    { destruct (ratio_rounded sw nw Hsw ltac:(lia)) as (mr & er & Er & _).
      rewrite Er. reflexivity. }
    lia. }
  destruct (ratio_rounded sw nw Hsw ltac:(lia)) as (mr & er & Er & Vr & R1 & R2).
  rewrite Er.
  set (R := (inject_Z (Zpos mr) * pow2 er)%Q) in *.
  assert (HR : (0 < R)%Q) by (apply Qmul_pos_pos; [apply inject_Z_pos; lia | apply pow2_pos]).
  assert (QS : (1 <= inject_Z sw)%Q) by (apply inject_Z_ge1; lia).
  assert (QS' : (inject_Z sw <= 16777216 # 1)%Q)
    by (change (16777216 # 1)%Q with (inject_Z (2 ^ 24)); rewrite <- Zle_Qle; lia).
  assert (QN : (1 <= inject_Z nw)%Q) by (apply inject_Z_ge1; lia).
  assert (QN' : (inject_Z nw <= 8388608 # 1)%Q)
    by (change (8388608 # 1)%Q with (inject_Z (2 ^ 23)); rewrite <- Zle_Qle; lia).
  assert (N1 : (0 <= R * ((8388608 # 1) - inject_Z nw))%Q) by (apply Qmult_le_0_compat; lra).
  assert (N2 : (0 <= R * (inject_Z nw - 1))%Q) by (apply Qmult_le_0_compat; lra).
  assert (RL : ((1 # 4294967296) <= R)%Q) by lra.
  assert (RH : (R <= 4294967296 # 1)%Q) by lra.
  destruct (product_rounded x mr er ltac:(lia) Vr RL RH) as (m1 & e1 & E1 & _ & _ & U1).
  destruct (product_rounded x' mr er ltac:(lia) Vr RL RH) as (m2 & e2 & E2 & _ & L2 & U2).
  fold R in U1, L2, U2. rewrite E1, E2.
  set (F1 := (inject_Z (Zpos m1) * pow2 e1)%Q) in *.
  set (F2 := (inject_Z (Zpos m2) * pow2 e2)%Q) in *.
  assert (QX : (1 <= inject_Z x)%Q) by (apply inject_Z_ge1; lia).
  assert (QXX : (inject_Z x + 1 <= inject_Z x')%Q).
  { assert (inject_Z (x + 1) <= inject_Z x')%Q by (rewrite <- Zle_Qle; lia).
    rewrite inject_Z_plus in H. exact H. }
  assert (QXN : (inject_Z x' + 1 <= inject_Z nw)%Q).
  { assert (inject_Z (x' + 1) <= inject_Z nw)%Q by (rewrite <- Zle_Qle; lia).
    rewrite inject_Z_plus in H. exact H. }
  assert (M : (0 <= ((16777215 # 1) * inject_Z x' - (16777217 # 1) * inject_Z x) * R)%Q)
    by (apply Qmult_le_0_compat; lra).
  assert (HF : (F1 <= F2)%Q) by lra.
  assert (T : (0 <= (inject_Z nw - inject_Z x') * R)%Q) by (apply Qmult_le_0_compat; lra).
  assert (HF2 : (F2 < 2147483648 # 1)%Q) by lra.
  rewrite !int_of_f32_Qfloor by (fold F1; fold F2; lra).
  apply Qfloor_resp_le. exact HF.
Qed.


(** ** The scale *)

Lemma f32_0_8_value : (inject_Z 13421773 * pow2 (-24) == 13421773 # 16777216)%Q.
Proof. vm_compute. reflexivity. Qed.

Lemma f32_1_2_value : (inject_Z 10066330 * pow2 (-23) == 10066330 # 8388608)%Q.
Proof. vm_compute. reflexivity. Qed.

Lemma f32_0_1_value : (F2Q f32_0_1 == 13421773 # 134217728)%Q.
Proof. vm_compute. reflexivity. Qed.

Lemma f32_5_0_value : (F2Q f32_5_0 == 5)%Q.
Proof. vm_compute. reflexivity. Qed.

(** A dimension of [b] pixels scaled by 0.8 times a factor that is at most
    the rounded ratio [a / b] does not exceed [a]. *)
Lemma shrunk_dim_fits a b m e :
  0 < a <= 2 ^ 24 -> 0 < b <= 2 ^ 24 -> valid32 (S754_finite false m e) ->
  ((1 # 33554432) <= inject_Z (Zpos m) * pow2 e)%Q ->
  ((16777216 # 1) * (inject_Z (Zpos m) * pow2 e) * inject_Z b
     <= (16777217 # 1) * inject_Z a)%Q ->
  0 <= int_of_f32 (f32_mul (f32_of_int b) (f32_mul (S754_finite false m e) f32_0_8)) <= a.
Proof.
  intros Ha Hb Vs SL SU.
  set (S := (inject_Z (Zpos m) * pow2 e)%Q) in *.
  assert (QA : (inject_Z a <= 16777216 # 1)%Q)
    by (change (16777216 # 1)%Q with (inject_Z (2 ^ 24)); rewrite <- Zle_Qle; lia).
  assert (QA0 : (1 <= inject_Z a)%Q) by (apply inject_Z_ge1; lia).
  assert (QB : (1 <= inject_Z b)%Q) by (apply inject_Z_ge1; lia).
  assert (QB' : (inject_Z b <= 16777216 # 1)%Q)
    by (change (16777216 # 1)%Q with (inject_Z (2 ^ 24)); rewrite <- Zle_Qle; lia).
  assert (S1 : (0 <= S * (inject_Z b - 1))%Q) by (apply Qmult_le_0_compat; lra).
  assert (SH : (S <= 33554432 # 1)%Q) by lra.
  assert (V08 : valid32 f32_0_8) by reflexivity.
  pose proof (f32_mul_rounded false m e false 13421773 (-24) Vs V08) as Hmul.
  cbn [xorb] in Hmul. fold S in Hmul. fold f32_0_8 in Hmul.
  apply (rounded_Qeq _ _ _ _ (S * (13421773 # 16777216))%Q) in Hmul;
    [|rewrite f32_0_8_value; reflexivity].
  destruct (f32_relative false _ _ Hmul) as (md & ed & Ed & Vd & D1 & D2); [lra | lra |].
  rewrite Ed.
  set (D := (inject_Z (Zpos md) * pow2 ed)%Q) in *.
  destruct (product_rounded b md ed Hb Vd) as (mp & ep & Ep & Vp & P1 & P2);
    [fold D; lra | fold D; lra |].
  fold D in P1, P2. rewrite Ep.
  set (F := (inject_Z (Zpos mp) * pow2 ep)%Q) in *.
  assert (T1 : (0 <= inject_Z b * ((16777217 # 1) * (S * (13421773 # 16777216))
                                   - (16777216 # 1) * D))%Q)
    by (apply Qmult_le_0_compat; lra).
  assert (HF : (F < inject_Z (a + 1))%Q).
  { rewrite inject_Z_plus. change (inject_Z 1) with 1%Q. lra. }
  assert (HF0 : (inject_Z 0 <= F)%Q).
  { change (inject_Z 0) with 0%Q. apply Qlt_le_weak.
    apply Qmul_pos_pos; [apply inject_Z_pos; lia | apply pow2_pos]. }
  pose proof (int_of_f32_bounds mp ep 0 (a + 1) ltac:(lia) ltac:(unfold INT_MAX; lia)
                HF0 HF).
  lia.
Qed.

(** [(float) a / (float) b] is at least [2^-25]. *)
Lemma ratio_lower a b m e :
  0 < a -> 0 < b <= 2 ^ 24 ->
  ((16777215 # 1) * inject_Z a
     <= (16777216 # 1) * (inject_Z (Zpos m) * pow2 e) * inject_Z b)%Q ->
  ((1 # 33554432) <= inject_Z (Zpos m) * pow2 e)%Q.
Proof.
  intros Ha Hb H.
  set (R := (inject_Z (Zpos m) * pow2 e)%Q) in *.
  assert (HR : (0 < R)%Q) by (apply Qmul_pos_pos; [apply inject_Z_pos; lia | apply pow2_pos]).
  assert (QA0 : (1 <= inject_Z a)%Q) by (apply inject_Z_ge1; lia).
  assert (QB' : (inject_Z b <= 16777216 # 1)%Q)
    by (change (16777216 # 1)%Q with (inject_Z (2 ^ 24)); rewrite <- Zle_Qle; lia).
  assert (0 <= R * ((16777216 # 1) - inject_Z b))%Q by (apply Qmult_le_0_compat; lra).
  lra.
Qed.

Lemma f32_lt_pos m1 e1 m2 e2 :
  valid32 (S754_finite false m1 e1) -> valid32 (S754_finite false m2 e2) ->
  if f32_lt (S754_finite false m1 e1) (S754_finite false m2 e2)
  then (inject_Z (Zpos m1) * pow2 e1 < inject_Z (Zpos m2) * pow2 e2)%Q
  else (inject_Z (Zpos m2) * pow2 e2 <= inject_Z (Zpos m1) * pow2 e1)%Q.
Proof.
  intros V1 V2.
  pose proof (SFcompare_pos m1 e1 m2 e2 (valid32_canonical _ _ _ V1)
                (valid32_canonical _ _ _ V2)) as H.
  unfold f32_lt, SFltb.
  destruct (SFcompare _ _) as [[]|]; try contradiction.
  - destruct H as [-> ->]. apply Qle_refl.
  - exact H.
  - apply Qlt_le_weak. exact H.
Qed.

Lemma f32_eq_pos m1 e1 p :
  valid32 (S754_finite false m1 e1) -> valid32 p ->
  f32_eq (S754_finite false m1 e1) p = true -> p = S754_finite false m1 e1.
Proof.
  intros V1 V2 E. unfold f32_eq, SFeqb in E.
  destruct p as [s | s | | s m2 e2].
  - cbn in E. discriminate.
  - destruct s; cbn in E; discriminate.
  - cbn in E. discriminate.
  - destruct s; [cbn in E; discriminate|].
    pose proof (SFcompare_pos m1 e1 m2 e2 (valid32_canonical _ _ _ V1)
                  (valid32_canonical _ _ _ V2)) as H.
    destruct (SFcompare _ _) as [[]|]; try discriminate.
    destruct H as [-> ->]. reflexivity.
Qed.

Lemma f32_eq_refl m e :
  valid32 (S754_finite false m e) -> f32_eq (S754_finite false m e) (S754_finite false m e) = true.
Proof.
  intros V.
  pose proof (SFcompare_pos m e m e (valid32_canonical _ _ _ V)
                (valid32_canonical _ _ _ V)) as H.
  unfold f32_eq, SFeqb.
  destruct (SFcompare _ _) as [[]|]; try contradiction; try reflexivity; exfalso; lra.
Qed.

(** The three outcomes of the clamp on a positive float. *)
Lemma clamp_scale_cases m e :
  valid32 (S754_finite false m e) ->
  ((inject_Z (Zpos m) * pow2 e < 13421773 # 134217728)%Q
   /\ clamp_scale (S754_finite false m e) = f32_0_1)
  \/ (((13421773 # 134217728) <= inject_Z (Zpos m) * pow2 e)%Q
      /\ (inject_Z (Zpos m) * pow2 e <= 5)%Q
      /\ clamp_scale (S754_finite false m e) = S754_finite false m e)
  \/ ((5 < inject_Z (Zpos m) * pow2 e)%Q
      /\ clamp_scale (S754_finite false m e) = f32_5_0).
Proof.
  intros V.
  assert (V01 : valid32 f32_0_1) by reflexivity.
  assert (V50 : valid32 f32_5_0) by reflexivity.
  pose proof f32_0_1_value as Q01. pose proof f32_5_0_value as Q50.
  unfold f32_0_1 in Q01. unfold f32_5_0 in Q50. rewrite F2Q_pos_finite in Q01, Q50.
  unfold clamp_scale.
  pose proof (f32_lt_pos m e _ _ V V01) as H1. fold f32_0_1 in H1.
  destruct (f32_lt (S754_finite false m e) f32_0_1).
  - left. split; [lra|].
    replace (f32_lt f32_5_0 f32_0_1) with false by reflexivity. reflexivity.
  - pose proof (f32_lt_pos _ _ m e V50 V) as H2. fold f32_5_0 in H2.
    destruct (f32_lt f32_5_0 (S754_finite false m e)).
    + right. right. split; [lra | reflexivity].
    + right. left. repeat split; try lra.
Qed.

Lemma in_scale_range_finite s :
  in_scale_range s ->
  exists m e, s = S754_finite false m e /\ valid32 (S754_finite false m e)
    /\ ((13421773 # 134217728) <= inject_Z (Zpos m) * pow2 e)%Q
    /\ (inject_Z (Zpos m) * pow2 e <= 5)%Q.
Proof.
  intros (V & P & L & U).
  destruct s as [| | | [] m e]; try discriminate P.
  exists m, e. rewrite F2Q_pos_finite, f32_0_1_value in L.
  rewrite F2Q_pos_finite, f32_5_0_value in U. auto.
Qed.

(** [+] on a scale within the bounds. *)
Lemma zoom_in_scale s :
  in_scale_range s ->
  (F2Q s <= F2Q (clamp_scale (f32_mul s f32_1_2)))%Q
  /\ (clamp_scale (f32_mul s f32_1_2) = f32_5_0
      \/ ((119 # 100) * F2Q s <= F2Q (clamp_scale (f32_mul s f32_1_2))
          /\ F2Q (clamp_scale (f32_mul s f32_1_2)) <= (121 # 100) * F2Q s)%Q).
Proof.
  intros Hs. destruct (in_scale_range_finite s Hs) as (m & e & -> & V & L & U).
  assert (V12 : valid32 f32_1_2) by reflexivity.
  pose proof (f32_mul_rounded false m e false 10066330 (-23) V V12) as Hmul.
  cbn [xorb] in Hmul. fold f32_1_2 in Hmul.
  rewrite F2Q_pos_finite.
  set (S := (inject_Z (Zpos m) * pow2 e)%Q) in *.
  apply (rounded_Qeq _ _ _ _ (S * (10066330 # 8388608))%Q) in Hmul;
    [|rewrite f32_1_2_value; reflexivity].
  destruct (f32_relative false _ _ Hmul) as (mp & ep & Ep & Vp & P1 & P2); [lra | lra |].
  rewrite Ep.
  set (P := (inject_Z (Zpos mp) * pow2 ep)%Q) in *.
  pose proof (clamp_scale_cases mp ep Vp) as HC. fold P in HC.
  destruct HC as [(C & ->) | [(C1 & C2 & ->) | (C & ->)]].
  - exfalso. lra.
  - rewrite F2Q_pos_finite. fold P. split; [lra|]. right. split; lra.
  - rewrite f32_5_0_value. split; [lra|]. left. reflexivity.
Qed.

(** [-] on a scale within the bounds. *)
Lemma zoom_out_scale s :
  in_scale_range s ->
  (F2Q (clamp_scale (f32_div s f32_1_2)) <= F2Q s)%Q
  /\ (clamp_scale (f32_div s f32_1_2) = f32_0_1
      \/ ((119 # 100) * F2Q (clamp_scale (f32_div s f32_1_2)) <= F2Q s
          /\ F2Q s <= (121 # 100) * F2Q (clamp_scale (f32_div s f32_1_2)))%Q).
Proof.
  intros Hs. destruct (in_scale_range_finite s Hs) as (m & e & -> & V & L & U).
  rewrite F2Q_pos_finite.
  set (S := (inject_Z (Zpos m) * pow2 e)%Q) in *.
  set (v := (S / (10066330 # 8388608))%Q).
  assert (Hv : (v * (10066330 # 8388608) == S)%Q) by (apply Qdiv_witness; reflexivity).
  assert (Hdiv : rounded f32_prec f32_emax false v (f32_div (S754_finite false m e) f32_1_2)).
  { apply (f32_div_rounded false m e false 10066330 (-23)).
    rewrite f32_1_2_value. exact Hv. }
  destruct (f32_relative false _ _ Hdiv) as (mp & ep & Ep & Vp & P1 & P2); [lra | lra |].
  rewrite Ep.
  set (P := (inject_Z (Zpos mp) * pow2 ep)%Q) in *.
  pose proof (clamp_scale_cases mp ep Vp) as HC. fold P in HC.
  destruct HC as [(C & ->) | [(C1 & C2 & ->) | (C & ->)]].
  - rewrite f32_0_1_value. split; [lra|]. left. reflexivity.
  - rewrite F2Q_pos_finite. fold P. split; [lra|]. right. split; lra.
  - exfalso. lra.
Qed.

(** ** The turns of the loop *)

Lemma main_init_fields fb0 img0 a_struct a_data st0 :
  main_init fb0 img0 a_struct a_data = Some st0 ->
  fb st0 = fb0 /\ img st0 = img0
  /\ scale st0 = f32_mul (fit_scale fb0 img0) f32_0_8
  /\ prev_scale st0 = scale st0
  /\ img_width (resized st0) = resized_width img0 (scale st0)
  /\ img_height (resized st0) = resized_height img0 (scale st0).
Proof.
  unfold main_init.
  destruct (Image_resize_linear _ _ _ _ _) as [r|] eqn:E; [|discriminate].
  intros [= <-]. cbn [fb img scale prev_scale resized].
  unfold Image_resize_linear in E.
  destruct (negb a_struct); [discriminate|].
  destruct (malloc _ _); [|discriminate].
  injection E as <-. cbn [img_width img_height]. repeat split; reflexivity.
Qed.

Lemma reachable_img st0 st : reachable st0 st -> img st = img st0.
Proof.
  induction 1 as [|st i ev st' Hr IH Hb]; [reflexivity|].
  destruct (loop_body_state _ _ _ _ Hb) as (s & _ & _ & _ & Hi). congruence.
Qed.

Lemma loop_body_unfold st i :
  loop_body st i
  = (fst (draw_frame st) ++ [EvGetchar (key i)] ++ fst (handle_key (snd (draw_frame st)) i),
     snd (handle_key (snd (draw_frame st)) i)).
Proof.
  unfold loop_body. destruct (draw_frame st) as [ev1 st1]. cbn [fst snd].
  destruct (handle_key st1 i) as [ev2 st2]. reflexivity.
Qed.

Lemma loop_body_quit st i :
  key i = "q"%char -> loop_body st i = (fst (draw_frame st) ++ [EvGetchar (key i)], None).
Proof.
  intros Hq. rewrite loop_body_unfold. unfold handle_key, key_scale. rewrite Hq.
  cbn [Ascii.eqb Bool.eqb fst snd]. rewrite app_nil_r. reflexivity.
Qed.

(** The state at the end of a turn: the two scales agree and lie within
    the bounds. *)
Lemma turn_settles_scales st i ev st' :
  scales_good st -> good (prev_scale st) ->
  loop_body st i = (ev, Some st') ->
  in_scale_range (scale st') /\ prev_scale st' = scale st'.
Proof.
  intros Hg Hp Hb.
  destruct (loop_body_state _ _ _ _ Hb) as (s & Hk & Hs & _).
  assert (Hr : in_scale_range (clamp_scale s)).
  { apply clamp_scale_in_range. eapply key_scale_good; eassumption. }
  split; [rewrite Hs; exact Hr|].
  rewrite loop_body_unfold in Hb.
  assert (Hk1 : key_scale (snd (draw_frame st)) (key i) = Some s) by exact Hk.
  assert (Hp1 : prev_scale (snd (draw_frame st)) = prev_scale st) by reflexivity.
  set (st1 := snd (draw_frame st)) in *. clearbody st1.
  injection Hb as _ Hb.
  unfold handle_key in Hb. rewrite Hk1, Hp1 in Hb.
  destruct (f32_eq (clamp_scale s) (prev_scale st)) eqn:E.
  - cbn [snd] in Hb. injection Hb as <-. cbn [prev_scale scale].
    destruct (in_scale_range_finite _ Hr) as (m & e & Em & Vm & _).
    rewrite Em in E |- *. apply f32_eq_pos; [exact Vm | apply Hp | exact E].
  - destruct (Image_resize_linear _ _ _ _ _); cbn [snd] in Hb; injection Hb as <-;
      reflexivity.
Qed.

Lemma reachable_prev_good st0 st :
  scales_good st0 -> good (prev_scale st0) -> reachable st0 st ->
  scales_good st /\ good (prev_scale st).
Proof.
  intros H0 P0 Hr. induction Hr as [|st i ev st' Hr IH Hb]; [auto|].
  destruct IH as (Hg & Hp).
  destruct (turn_settles_scales _ _ _ _ Hg Hp Hb) as (Hin & Heq).
  destruct (reachable_good st0 st' H0 (reach_step _ _ _ _ _ Hr Hb)) as (Hg' & _).
  split; [exact Hg'|]. rewrite Heq. apply Hg'.
Qed.

Lemma key_scale_other st ch : other_key ch -> key_scale st ch = Some (scale st).
Proof.
  intros (Hr & Hp & Hm & Hq). unfold key_scale.
  rewrite (proj2 (Ascii.eqb_neq _ _) Hr), (proj2 (Ascii.eqb_neq _ _) Hp),
    (proj2 (Ascii.eqb_neq _ _) Hm), (proj2 (Ascii.eqb_neq _ _) Hq).
  reflexivity.
Qed.

Lemma handle_key_other st i :
  in_scale_range (scale st) -> prev_scale st = scale st -> other_key (key i) ->
  handle_key st i = ([], Some st).
Proof.
  intros Hr Hp Hk. unfold handle_key. rewrite key_scale_other by exact Hk.
  rewrite clamp_scale_fixed by exact Hr. rewrite Hp.
  destruct (in_scale_range_finite _ Hr) as (m & e & Em & Vm & _).
  rewrite Em at 1 2. rewrite f32_eq_refl by exact Vm.
  destruct st. cbn in *. subst. reflexivity.
Qed.

Lemma loop_body_breaks st i ev : loop_body st i = (ev, None) -> key i = "q"%char.
Proof.
  intros Hb. rewrite loop_body_unfold in Hb.
  set (st1 := snd (draw_frame st)) in *. clearbody st1.
  assert (Hk : snd (handle_key st1 i) = None) by congruence.
  unfold handle_key in Hk.
  destruct (key_scale st1 (key i)) as [s|] eqn:Ek.
  - destruct (f32_eq _ _); [discriminate|].
    destruct (Image_resize_linear _ _ _ _ _); discriminate.
  - unfold key_scale in Ek.
    destruct (Ascii.eqb (key i) "r"); [discriminate|].
    destruct (Ascii.eqb (key i) "+"); [discriminate|].
    destruct (Ascii.eqb (key i) "-"); [discriminate|].
    destruct (Ascii.eqb (key i) "q") eqn:Eq; [|discriminate].
    apply Ascii.eqb_eq. exact Eq.
Qed.

(** What a turn that does not quit does to the image shown. *)
Lemma loop_body_resample st i ev st' :
  loop_body st i = (ev, Some st') ->
  (resized st' = resized st /\ forall r, ~ In (EvFree r) ev)
  \/ (In (EvFree (resized st)) ev
      /\ Image_resize_linear (alloc_struct i) (alloc_data i) (img st)
           (resized_width (img st) (scale st')) (resized_height (img st) (scale st'))
         = Some (resized st')).
Proof.
  intros Hb. rewrite loop_body_unfold in Hb.
  assert (Hev1 : fst (draw_frame st)
                 = [EvClear; EvDraw (pos_x st) (pos_y st) (resized st); EvUpdate])
    by reflexivity.
  assert (Hr1 : resized (snd (draw_frame st)) = resized st) by reflexivity.
  assert (Hi1 : img (snd (draw_frame st)) = img st) by reflexivity.
  rewrite Hev1 in Hb.
  set (st1 := snd (draw_frame st)) in *. clearbody st1.
  injection Hb as Hev Hst. unfold handle_key in Hev, Hst.
  destruct (key_scale st1 (key i)) as [s1|]; [|discriminate].
  destruct (f32_eq (clamp_scale s1) (prev_scale st1)).
  - cbn [fst snd] in *. injection Hst as <-. cbn [resized]. left.
    split; [exact Hr1|]. intros r Hin. subst ev. cbn in Hin.
    repeat (destruct Hin as [Hin | Hin]; [discriminate|]). exact Hin.
  - rewrite Hi1 in *.
    destruct (Image_resize_linear (alloc_struct i) (alloc_data i) (img st) _ _) as [nr|] eqn:E;
      cbn [fst snd] in *; injection Hst as <-; cbn [resized scale].
    + right. split; [|exact E]. subst ev. rewrite Hr1. cbn. auto 10.
    + left. split; [exact Hr1|]. intros r Hin. subst ev. cbn in Hin.
      repeat (destruct Hin as [Hin | Hin]; [discriminate|]). exact Hin.
Qed.




Lemma length_nil_inv {A : Type} (l : list A) : length l = 0%nat -> l = [].
Proof. destruct l; [reflexivity | discriminate]. Qed.

(** ** Resources *)

Lemma held_app t1 t2 h :
  held (t1 ++ t2) h = match held t1 h with Some h' => held t2 h' | None => None end.
Proof.
  revert h. induction t1 as [|c t1 IH]; intros h; [reflexivity|].
  destruct c as [r | r | l]; cbn [app held]; try apply IH.
  destruct (give_back r h); [apply IH | reflexivity].
Qed.

Lemma terminal_app t1 t2 l : terminal (t1 ++ t2) l = terminal t2 (terminal t1 l).
Proof.
  revert l. induction t1 as [|c t1 IH]; intros l; [reflexivity|].
  destruct c; cbn [app terminal]; apply IH.
Qed.

Lemma resource_eqb_refl r : resource_eqb r r = true.
Proof.
  destruct r as [[] | |]; cbn; try reflexivity;
    first [apply Nat.eqb_refl | apply Z.eqb_refl].
Qed.

Lemma give_back_head r h : give_back r (r :: h) = Some h.
Proof. cbn. rewrite resource_eqb_refl. reflexivity. Qed.

(** The screen size [framebuffer_destroy] computes is the one
    [framebuffer_create] mapped. *)
Lemma create_cases d :
  match framebuffer_create d with
  | (t, None) => forall h l, held t h = Some h /\ terminal t l = l
  | (t, Some (fd, f)) =>
      let n := int_mul (int_mul (fb_width f) (fb_height f)) (fb_bpp f) in
      (forall h l,
         held t h = Some (Heap BlkBuffer :: Mapping n :: Descriptor fd :: Heap BlkFb :: h)
         /\ terminal t l = l)
      /\ 0 <= n /\ Z.of_nat (length (fbp f)) = n /\ Z.of_nat (length (buffer f)) = n
      /\ exists vinfo, dev_vinfo d = Some vinfo
           /\ fb_width f = wrap32 (xres vinfo) /\ fb_height f = wrap32 (yres vinfo)
           /\ fb_bpp f = wrap32 (bits_per_pixel vinfo / 8)
  end.
Proof.
  unfold framebuffer_create.
  destruct (dev_alloc d); cbn [negb]; [|intros; split; reflexivity].
  destruct (dev_open d) as [fd|].
  2:{ intros h l. cbn [held terminal]. rewrite give_back_head. split; reflexivity. }
  destruct (dev_vinfo d) as [v|].
  2:{ intros h l. cbn [held terminal]. rewrite !give_back_head. split; reflexivity. }
  cbv zeta.
  set (n := int_mul (int_mul (wrap32 (xres v)) (wrap32 (yres v)))
                    (wrap32 (bits_per_pixel v / 8))).
  destruct (mmap (dev_mmap d) n) as [mapped|] eqn:Em.
  2:{ intros h l. cbn [held terminal]. rewrite !give_back_head. split; reflexivity. }
  destruct (malloc (dev_alloc_buffer d) n) as [buf|] eqn:Eb.
  2:{ intros h l. cbn [held terminal]. rewrite !give_back_head. split; reflexivity. }
  cbn [fb_width fb_height fb_bpp fbp buffer]. fold n.
  split; [intros h l; split; reflexivity|].
  pose proof (length_malloc _ _ _ Em) as Lm. pose proof (length_malloc _ _ _ Eb) as Lb.
  split; [lia|]. split; [exact Lm|]. split; [exact Lb|].
  exists v. auto.
Qed.

Lemma destroy_releases fd f h :
  held (framebuffer_destroy (Some (fd, f)))
       (Heap BlkBuffer
        :: Mapping (int_mul (int_mul (fb_width f) (fb_height f)) (fb_bpp f))
        :: Descriptor fd :: Heap BlkFb :: h)
  = Some h.
Proof.
  cbn [framebuffer_destroy].
  repeat (cbn [held give_back resource_eqb block_eqb]; rewrite ?Z.eqb_refl).
  reflexivity.
Qed.

Lemma load_cases a dec :
  match Image_load a dec with
  | (t, None) => (a = false \/ dec = None) /\ forall h l, held t h = Some h /\ terminal t l = l
  | (t, Some im) =>
      (forall h l, held t h = Some (Heap BlkImageData :: Heap BlkImage :: h)
                   /\ terminal t l = l)
      /\ exists w h data, dec = Some (w, h, data)
           /\ im = {| img_width := w; img_height := h; img_bpp := 3;
                      img_stride := int_mul w 3; img_data := data |}
  end.
Proof.
  unfold Image_load. destruct a; cbn [negb].
  - destruct dec as [[[w h] data]|].
    + split; [intros; split; reflexivity|]. exists w, h, data. auto.
    + split; [auto|]. intros h l. split; reflexivity.
  - split; [auto|]. intros; split; reflexivity.
Qed.

Lemma free_releases b_struct b_data im h :
  held (Image_free b_struct b_data (Some im)) (Heap b_data :: Heap b_struct :: h) = Some h.
Proof. cbn [Image_free held]. rewrite !give_back_head. reflexivity. Qed.

(** The allocator calls of a resize leave the new image held exactly when
    the resize returns one. *)
Lemma resize_cases n a_struct a_data src w h :
  match Image_resize_linear a_struct a_data src w h with
  | Some _ =>
      Image_resize_linear_sys n a_struct a_data src w h
      = [Acquire (Heap (BlkResized n)); Acquire (Heap (BlkResizedData n))]
  | None =>
      (forall hd l,
         held (Image_resize_linear_sys n a_struct a_data src w h) hd = Some hd
         /\ terminal (Image_resize_linear_sys n a_struct a_data src w h) l = l)
      /\ forall j, ~ In (Acquire (Heap (BlkResizedData j)))
                        (Image_resize_linear_sys n a_struct a_data src w h)
  end.
Proof.
  unfold Image_resize_linear, Image_resize_linear_sys.
  destruct a_struct; cbn [negb]; [|split; [intros; split; reflexivity | intros j []]].
  destruct (malloc a_data _); [reflexivity|]. split.
  - intros hd l. cbn [held terminal]. rewrite give_back_head. split; reflexivity.
  - intros j [H | [H | []]]; discriminate H.
Qed.

(** Neither [framebuffer_create] nor [Image_load] allocates the pixels of a
    resampled image. *)
Lemma create_no_resized d j :
  ~ In (Acquire (Heap (BlkResizedData j))) (fst (framebuffer_create d)).
Proof.
  unfold framebuffer_create.
  destruct (dev_alloc d); cbn [negb]; [|intros []].
  destruct (dev_open d); [|cbn [fst In]; intuition discriminate].
  destruct (dev_vinfo d); [|cbn [fst In]; intuition discriminate].
  cbv zeta. destruct (mmap _ _); [|cbn [fst In]; intuition discriminate].
  destruct (malloc _ _); cbn [fst In]; intuition discriminate.
Qed.

Lemma load_no_resized a dec j :
  ~ In (Acquire (Heap (BlkResizedData j))) (fst (Image_load a dec)).
Proof.
  unfold Image_load. destruct a; cbn [negb]; [|intros []].
  destruct dec as [[[w h] data]|]; cbn [fst In]; intuition discriminate.
Qed.

(** ** The loop holds one resampled image *)

Lemma frame_dims st :
  fb_width (fb (snd (draw_frame st))) = fb_width (fb st)
  /\ fb_height (fb (snd (draw_frame st))) = fb_height (fb st)
  /\ fb_bpp (fb (snd (draw_frame st))) = fb_bpp (fb st).
Proof.
  unfold draw_frame. cbn [snd with_fb fb].
  unfold framebuffer_clear_color.
  destruct (fb_bpp (fb st) <? 3);
    unfold framebuffer_draw_image;
    destruct (_ || _); cbn [set_buffer fb_bpp]; try destruct (fb_bpp (fb st) <? 3);
    cbn; auto.
Qed.

Lemma handle_key_fb st i ev st' : handle_key st i = (ev, Some st') -> fb st' = fb st.
Proof.
  intros H. destruct (handle_key_state _ _ _ _ H) as (_ & _ & _ & _ & _ & E). exact E.
Qed.

Lemma loop_body_dims st i ev st' :
  loop_body st i = (ev, Some st') ->
  fb_width (fb st') = fb_width (fb st) /\ fb_height (fb st') = fb_height (fb st)
  /\ fb_bpp (fb st') = fb_bpp (fb st).
Proof.
  intros Hb. rewrite loop_body_unfold in Hb.
  pose proof (frame_dims st) as D.
  set (st1 := snd (draw_frame st)) in *. clearbody st1.
  assert (Hk : handle_key st1 i = (fst (handle_key st1 i), Some st')).
  { destruct (handle_key st1 i) as [e2 r2]. cbn [fst snd] in *. congruence. }
  rewrite (handle_key_fb _ _ _ _ Hk). exact D.
Qed.

(** Freeing the image [resized] points to, once a later call has returned
    a new one, leaves the new one held. *)
Lemma free_previous p c im rest :
  p <> c ->
  held (Image_free (BlkResized p) (BlkResizedData p) (Some im))
       (Heap (BlkResizedData c) :: Heap (BlkResized c)
        :: Heap (BlkResizedData p) :: Heap (BlkResized p) :: rest)
  = Some (Heap (BlkResizedData c) :: Heap (BlkResized c) :: rest).
Proof.
  intros Hpc. apply Nat.eqb_neq in Hpc.
  cbn [Image_free].
  repeat (cbn [held give_back resource_eqb block_eqb]; rewrite ?Hpc, ?Nat.eqb_refl).
  reflexivity.
Qed.

(** One turn: the image held at its end is the one [resized] points to,
    and a pixel buffer allocated in the turn is that of this image. *)
Lemma turn_sys_cases st i ptr calls :
  (ptr < calls)%nat ->
  match turn_sys st i ptr calls with
  | (t, (ptr', calls')) =>
      (forall rest l,
         held t (Heap (BlkResizedData ptr) :: Heap (BlkResized ptr) :: rest)
         = Some (Heap (BlkResizedData ptr') :: Heap (BlkResized ptr') :: rest)
         /\ terminal t l = l)
      /\ (ptr' < calls')%nat /\ (calls <= calls')%nat /\ (ptr <= ptr')%nat
      /\ (ptr' = ptr \/ In (Acquire (Heap (BlkResizedData ptr'))) t)
      /\ forall j, In (Acquire (Heap (BlkResizedData j))) t -> (calls <= j <= ptr')%nat
  end.
Proof.
  intros Hlt. unfold turn_sys.
  assert (Hidle : (forall rest l,
             held [] (Heap (BlkResizedData ptr) :: Heap (BlkResized ptr) :: rest)
             = Some (Heap (BlkResizedData ptr) :: Heap (BlkResized ptr) :: rest)
             /\ terminal [] l = l)
          /\ (ptr < calls)%nat /\ (calls <= calls)%nat /\ (ptr <= ptr)%nat
          /\ (ptr = ptr \/ In (Acquire (Heap (BlkResizedData ptr))) [])
          /\ forall j, In (Acquire (Heap (BlkResizedData j))) [] -> (calls <= j <= ptr)%nat).
  { split; [intros; split; reflexivity|]. repeat split; auto; contradiction. }
  destruct (key_scale st (key i)) as [s|]; [|exact Hidle].
  cbv zeta. destruct (f32_eq (clamp_scale s) (prev_scale st)); [exact Hidle|].
  pose proof (resize_cases calls (alloc_struct i) (alloc_data i) (img st)
                (resized_width (img st) (clamp_scale s))
                (resized_height (img st) (clamp_scale s))) as Hc.
  destruct (Image_resize_linear (alloc_struct i) (alloc_data i) (img st) _ _) as [nr|].
  - rewrite Hc. split.
    + intros rest l. split; [|reflexivity].
      change (held (Image_free (BlkResized ptr) (BlkResizedData ptr) (Some (resized st)))
                (Heap (BlkResizedData calls) :: Heap (BlkResized calls)
                 :: Heap (BlkResizedData ptr) :: Heap (BlkResized ptr) :: rest)
              = Some (Heap (BlkResizedData calls) :: Heap (BlkResized calls) :: rest)).
      apply free_previous. lia.
    + split; [lia|]. split; [lia|]. split; [lia|]. split.
      * right. cbn. auto.
      * intros j Hin. cbn in Hin.
        destruct Hin as [H | [H | [H | [H | []]]]]; try discriminate H.
        injection H as <-. lia.
  - destruct Hc as (Hh & Hno). split; [intros rest l; apply Hh|].
    split; [lia|]. split; [lia|]. split; [lia|]. split; [left; reflexivity|].
    intros j Hin. destruct (Hno j Hin).
Qed.

Lemma main_loop_sys_spec ins : forall st ptr calls,
  (ptr < calls)%nat ->
  match main_loop_sys ins st ptr calls with
  | (t, r) =>
      exists ptr',
        (forall rest l,
           held t (Heap (BlkResizedData ptr) :: Heap (BlkResized ptr) :: rest)
           = Some (Heap (BlkResizedData ptr') :: Heap (BlkResized ptr') :: rest)
           /\ terminal t l = l)
        /\ (ptr <= ptr')%nat
        /\ (ptr' = ptr \/ In (Acquire (Heap (BlkResizedData ptr'))) t)
        /\ (forall j, In (Acquire (Heap (BlkResizedData j))) t -> (calls <= j <= ptr')%nat)
        /\ match r with
           | Some (st', p) =>
               p = ptr'
               /\ fb_width (fb st') = fb_width (fb st)
               /\ fb_height (fb st') = fb_height (fb st)
               /\ fb_bpp (fb st') = fb_bpp (fb st)
               /\ exists i, In i ins /\ key i = "q"%char
           | None => Forall (fun i => key i <> "q"%char) ins
           end
  end.
Proof.
  induction ins as [|i ins IH]; intros st ptr calls Hlt.
  - cbn [main_loop_sys]. exists ptr. split; [intros; split; reflexivity|].
    split; [lia|]. split; [left; reflexivity|]. split; [intros j []|constructor].
  - cbn [main_loop_sys]. destruct (loop_body st i) as [ev [st1|]] eqn:Hb.
    + pose proof (turn_sys_cases (snd (draw_frame st)) i ptr calls Hlt) as Ht.
      destruct (turn_sys (snd (draw_frame st)) i ptr calls) as [t [p1 c1]].
      destruct Ht as (Hh1 & L1 & C1 & P1 & O1 & A1).
      specialize (IH st1 p1 c1 L1).
      destruct (main_loop_sys ins st1 p1 c1) as [t' r].
      destruct IH as (p2 & Hh2 & P2 & O2 & A2 & Hr).
      pose proof (loop_body_dims _ _ _ _ Hb) as (D1 & D2 & D3).
      exists p2. split.
      { intros rest l. rewrite held_app, terminal_app.
        destruct (Hh1 rest l) as (-> & ->). apply Hh2. }
      split; [lia|]. split.
      { destruct O2 as [-> | O2].
        - destruct O1 as [-> | O1]; [left; reflexivity|].
          right. apply in_or_app. left. exact O1.
        - right. apply in_or_app. right. exact O2. }
      split.
      { intros j Hin. apply in_app_or in Hin. destruct Hin as [Hin | Hin].
        - specialize (A1 j Hin). lia.
        - specialize (A2 j Hin). lia. }
      destruct r as [[st' p]|].
      * destruct Hr as (Ep & E1 & E2 & E3 & k & Hk & Hq).
        split; [exact Ep|]. repeat split; try congruence.
        exists k. split; [right; exact Hk | exact Hq].
      * constructor; [|exact Hr].
        intros Hq. rewrite (loop_body_quit st i Hq) in Hb. discriminate.
    + exists ptr. split; [intros; split; reflexivity|].
      split; [lia|]. split; [left; reflexivity|]. split; [intros j []|].
      pose proof (frame_dims st) as (D1 & D2 & D3).
      split; [reflexivity|]. repeat split; try assumption.
      exists i. split; [left; reflexivity | eapply loop_body_breaks; exact Hb].
Qed.

(** The pointer in [resized] moves exactly when the image in [resized]
    is replaced: the allocator calls of a turn are those of the resize that
    [handle_key] records, followed, when it returned an image, by the
    release of the image [resized] pointed to. *)
Lemma turn_sys_follows_handle_key st i ptr calls :
  match handle_key st i with
  | (_, None) => turn_sys st i ptr calls = ([], (ptr, calls))
  | (ev, Some st') =>
      (ev = [] /\ resized st' = resized st
       /\ turn_sys st i ptr calls = ([], (ptr, calls)))
      \/ (exists w h,
            ev = [EvResize w h] /\ resized st' = resized st
            /\ Image_resize_linear (alloc_struct i) (alloc_data i) (img st) w h = None
            /\ turn_sys st i ptr calls
               = (Image_resize_linear_sys calls (alloc_struct i) (alloc_data i) (img st) w h,
                  (ptr, S calls)))
      \/ (exists w h,
            ev = [EvResize w h; EvFree (resized st)]
            /\ Image_resize_linear (alloc_struct i) (alloc_data i) (img st) w h
               = Some (resized st')
            /\ turn_sys st i ptr calls
               = (Image_resize_linear_sys calls (alloc_struct i) (alloc_data i) (img st) w h
                  ++ [Release (Heap (BlkResizedData ptr)); Release (Heap (BlkResized ptr))],
                  (calls, S calls)))
  end.
Proof.
  unfold handle_key, turn_sys.
  destruct (key_scale st (key i)) as [s|]; [|reflexivity]. cbv zeta.
  destruct (f32_eq (clamp_scale s) (prev_scale st)); [left; auto|].
  destruct (Image_resize_linear (alloc_struct i) (alloc_data i) (img st) _ _) as [nr|] eqn:E.
  - right. right. eexists _, _. split; [reflexivity|]. split; [exact E|]. reflexivity.
  - right. left. eexists _, _. split; [reflexivity|]. split; [reflexivity|].
    split; [exact E|]. reflexivity.
Qed.

(** What [main] holds once the loop runs, and how the end of [main]
    releases it. *)
Lemma epilogue_releases fd f im rz p :
  held (Image_free BlkImage BlkImageData (Some im)
        ++ Image_free (BlkResized p) (BlkResizedData p) (Some rz)
        ++ framebuffer_destroy (Some (fd, f)))
       [Heap (BlkResizedData p); Heap (BlkResized p); Heap BlkImageData; Heap BlkImage;
        Heap BlkBuffer;
        Mapping (int_mul (int_mul (fb_width f) (fb_height f)) (fb_bpp f));
        Descriptor fd; Heap BlkFb]
  = Some [].
Proof.
  cbn [Image_free framebuffer_destroy app].
  repeat (cbn [held give_back resource_eqb block_eqb]; rewrite ?Z.eqb_refl, ?Nat.eqb_refl).
  reflexivity.
Qed.

Lemma main_cases w :
  match main w with
  | (t, Some code) =>
      held t [] = Some [] /\ terminal t (w_lflag w) = w_lflag w
      /\ (code = 1
          \/ (code = 0 /\ 3 <= argc w /\ exists i, In i (w_keys w) /\ key i = "q"%char))
  | (t, None) =>
      3 <= argc w
      /\ (exists fd n k,
            held t []
            = Some [Heap (BlkResizedData k); Heap (BlkResized k); Heap BlkImageData;
                    Heap BlkImage; Heap BlkBuffer; Mapping n; Descriptor fd; Heap BlkFb]
            /\ In (Acquire (Heap (BlkResizedData k))) t
            /\ forall j, In (Acquire (Heap (BlkResizedData j))) t -> (j <= k)%nat)
      /\ terminal t (w_lflag w) = raw_lflag (w_lflag w)
      /\ Forall (fun i => key i <> "q"%char) (w_keys w)
  end.
Proof.
  unfold main. destruct (Z.ltb_spec (argc w) 3) as [Hlt | Hge].
  { split; [reflexivity|]. split; [reflexivity|]. left. reflexivity. }
  pose proof (create_cases (w_device w)) as Hc.
  pose proof (fun j => create_no_resized (w_device w) j) as N1.
  destruct (framebuffer_create (w_device w)) as [t1 [[fd f]|]].
  2:{ destruct (Hc [] (w_lflag w)) as [H1 H2]. auto. }
  cbv zeta in Hc. destruct Hc as (Hc & _). cbn [fst] in N1.
  set (n := int_mul (int_mul (fb_width f) (fb_height f)) (fb_bpp f)) in *.
  set (H4 := [Heap BlkBuffer; Mapping n; Descriptor fd; Heap BlkFb]).
  assert (P1 : held t1 [] = Some H4) by apply (Hc [] 0).
  assert (T1 : forall l, terminal t1 l = l) by (intros l; apply (Hc [] l)).
  pose proof (load_cases (w_alloc_image w) (w_decoded w)) as Hl.
  pose proof (fun j => load_no_resized (w_alloc_image w) (w_decoded w) j) as N2.
  destruct (Image_load (w_alloc_image w) (w_decoded w)) as [t2 [im|]].
  2:{ destruct Hl as (_ & Hl).
      rewrite (held_app t1), P1, (held_app t2), (proj1 (Hl H4 0)).
      rewrite !terminal_app, T1, (proj2 (Hl H4 (w_lflag w))).
      split; [apply destroy_releases|]. split; [reflexivity|]. left. reflexivity. }
  destruct Hl as (Hl & _). cbv zeta. cbn [fst] in N2.
  assert (P2 : held t2 H4 = Some (Heap BlkImageData :: Heap BlkImage :: H4))
    by apply (Hl H4 0).
  assert (T2 : forall l, terminal t2 l = l) by (intros l; apply (Hl H4 l)).
  set (s := f32_mul (fit_scale f im) f32_0_8).
  pose proof (resize_cases 0 (w_alloc_struct w) (w_alloc_data w) im
                (resized_width im s) (resized_height im s)) as Hr.
  destruct (main_init f im (w_alloc_struct w) (w_alloc_data w)) as [st0|] eqn:Hinit.
  - pose proof (main_init_fields _ _ _ _ _ Hinit) as (Hf0 & _).
    unfold main_init in Hinit. fold s in Hinit.
    destruct (Image_resize_linear (w_alloc_struct w) (w_alloc_data w) im _ _) as [rz|];
      [|discriminate].
    set (I4 := Heap BlkImageData :: Heap BlkImage :: H4).
    pose proof (main_loop_sys_spec (w_keys w) st0 0%nat 1%nat ltac:(lia)) as Hloop.
    destruct (main_loop_sys (w_keys w) st0 0 1) as [t5 [[st p]|]].
    + destruct Hloop as (k & Hh & _ & _ & _ & -> & D1 & D2 & D3 & Hq).
      assert (P5 : held t5 (Heap (BlkResizedData 0) :: Heap (BlkResized 0) :: I4)
                   = Some (Heap (BlkResizedData k) :: Heap (BlkResized k) :: I4))
        by apply (Hh _ 0).
      assert (T5 : forall l, terminal t5 l = l) by (intros l; apply (Hh [] l)).
      rewrite Hr.
      rewrite (held_app t1), P1, (held_app t2), P2. cbn [app held]. fold I4.
      rewrite (held_app t5), P5.
      rewrite !terminal_app, T1, T2. cbn [app terminal]. rewrite ?terminal_app, ?T5.
      split.
      * assert (En : n = int_mul (int_mul (fb_width (fb st)) (fb_height (fb st)))
                               (fb_bpp (fb st))).
        { unfold n. rewrite D1, D2, D3, Hf0. reflexivity. }
        rewrite !app_assoc, held_app, <- !app_assoc.
        unfold I4, H4. rewrite En, epilogue_releases. reflexivity.
      * split; [reflexivity|]. right. split; [reflexivity|]. split; [lia | exact Hq].
    + destruct Hloop as (k & Hh & _ & Hk & Hmax & Hq).
      assert (P5 : held t5 (Heap (BlkResizedData 0) :: Heap (BlkResized 0) :: I4)
                   = Some (Heap (BlkResizedData k) :: Heap (BlkResized k) :: I4))
        by apply (Hh _ 0).
      assert (T5 : forall l, terminal t5 l = l) by (intros l; apply (Hh [] l)).
      rewrite Hr.
      split; [lia|]. split.
      * exists fd, n, k. split.
        -- rewrite (held_app t1), P1, (held_app t2), P2. cbn [app held]. fold I4.
           rewrite P5. reflexivity.
        -- split.
           ++ apply in_or_app. right. apply in_or_app. right.
              destruct Hk as [-> | Hk]; [cbn; auto|].
              cbn [app In]. auto.
           ++ intros j Hin.
              apply in_app_or in Hin. destruct Hin as [Hin | Hin]; [destruct (N1 j Hin)|].
              apply in_app_or in Hin. destruct Hin as [Hin | Hin]; [destruct (N2 j Hin)|].
              cbn [app In] in Hin.
              destruct Hin as [H | [H | [H | Hin]]]; try discriminate H.
              ** injection H as <-. lia.
              ** specialize (Hmax j Hin). lia.
      * rewrite !terminal_app, T1, T2. cbn [app terminal]. rewrite ?terminal_app, ?T5.
        split; [reflexivity | exact Hq].
  - unfold main_init in Hinit. fold s in Hinit.
    destruct (Image_resize_linear (w_alloc_struct w) (w_alloc_data w) im _ _) as [rz|];
      [discriminate|].
    destruct Hr as (Hr & _).
    rewrite (held_app t1), P1, (held_app t2), P2, held_app, (proj1 (Hr _ 0)).
    rewrite held_app, free_releases.
    rewrite !terminal_app, T1, T2, (proj2 (Hr [] _)).
    split; [apply destroy_releases|]. split; [reflexivity|]. left. reflexivity.
Qed.

(* ================================================================== *)
(** * Part IV: the properties of the design document                   *)
(* ================================================================== *)

(** ** Compositor *)

(** C1.  Drawing onto a device of at least 3 bytes per pixel: for every
    device pixel [(x, y)] that the placed image covers, byte [c] of that
    pixel in the shadow buffer becomes channel [img_bpp - 1 - c] of the
    source pixel [(x - x_offset, y - y_offset)], for each of the image's
    channels; so a pure-red source pixel [(255, 0, 0)] leaves the bytes
    [0, 0, 255] (blue, green, red).  The geometry is unchanged. *)
Theorem draw_image_reverses_channels fb img x_offset y_offset x y :
  fb_wf fb -> 3 <= fb_bpp fb -> img_wf img -> placed img x_offset y_offset ->
  visible fb img x_offset y_offset x y ->
  exists fb',
    framebuffer_draw_image (Some fb) x_offset y_offset (Some img) = Some fb'
    /\ fb_width fb' = fb_width fb /\ fb_height fb' = fb_height fb
    /\ fb_bpp fb' = fb_bpp fb
    /\ (forall c, 0 <= c < img_bpp img ->
          fb_byte fb' x y c
          = img_channel img (x - x_offset) (y - y_offset) (img_bpp img - 1 - c))
    /\ (img_channel img (x - x_offset) (y - y_offset) 0 = 255 ->
        img_channel img (x - x_offset) (y - y_offset) 1 = 0 ->
        img_channel img (x - x_offset) (y - y_offset) 2 = 0 ->
        fb_byte fb' x y 0 = 0 /\ fb_byte fb' x y 1 = 0 /\ fb_byte fb' x y 2 = 255).
Proof.
  intros Hfb Hbpp Himg Hpl Hvis.
  pose proof Hpl as (Hxo & Hyo & Hxs & Hys).
  destruct (screen_x_plain fb x_offset img Hxs) as [Exs Exe].
  destruct (screen_y_plain fb y_offset img Hys) as [Eys Eye].
  pose proof Hvis as [Vx Vy].
  exists (set_buffer fb (draw_rows fb x_offset y_offset img)).
  split.
  - unfold framebuffer_draw_image. rewrite Exs, Exe, Eys, Eye.
    replace (Z.max 0 x_offset >=? Z.min (fb_width fb) (x_offset + img_width img))
      with false by (symmetry; rewrite Z.geb_leb; apply Z.leb_gt; lia).
    replace (Z.max 0 y_offset >=? Z.min (fb_height fb) (y_offset + img_height img))
      with false by (symmetry; rewrite Z.geb_leb; apply Z.leb_gt; lia).
    replace (fb_bpp fb <? 3) with false by (symmetry; apply Z.ltb_ge; lia).
    reflexivity.
  - do 3 (split; [reflexivity|]).
    destruct (draw_rows_spec fb img x_offset y_offset Hfb Hbpp Himg Hpl) as (_ & V & _).
    + rewrite Exs, Exe. lia.
    + rewrite Eys, Eye. lia.
    + assert (Hch : forall c, 0 <= c < img_bpp img ->
                fb_byte (set_buffer fb (draw_rows fb x_offset y_offset img)) x y c
                = img_channel img (x - x_offset) (y - y_offset) (img_bpp img - 1 - c)).
      { intros c Hc. unfold fb_byte. cbn [buffer set_buffer fb_width fb_bpp].
        apply V; assumption. }
      split; [exact Hch|].
      intros R G Bl. destruct Himg as (_ & _ & Hib & _).
      rewrite !Hch by lia. rewrite Hib. cbn. auto.
Qed.

Lemma draw_image_reverses_channels_witness :
  fb_wf small_fb /\ 3 <= fb_bpp small_fb /\ img_wf tile2 /\ placed tile2 1 1
  /\ visible small_fb tile2 1 1 1 1
  /\ exists fb',
       framebuffer_draw_image (Some small_fb) 1 1 (Some tile2) = Some fb'
       /\ fb_width fb' = fb_width small_fb /\ fb_height fb' = fb_height small_fb
       /\ fb_bpp fb' = fb_bpp small_fb
       /\ (forall c, 0 <= c < img_bpp tile2 ->
             fb_byte fb' 1 1 c
             = img_channel tile2 (1 - 1) (1 - 1) (img_bpp tile2 - 1 - c))
       /\ (img_channel tile2 (1 - 1) (1 - 1) 0 = 255 ->
           img_channel tile2 (1 - 1) (1 - 1) 1 = 0 ->
           img_channel tile2 (1 - 1) (1 - 1) 2 = 0 ->
           fb_byte fb' 1 1 0 = 0 /\ fb_byte fb' 1 1 1 = 0 /\ fb_byte fb' 1 1 2 = 255).
Proof.
  assert (H1 : fb_wf small_fb) by (unfold fb_wf, INT_MAX; cbn; lia).
  assert (H2 : 3 <= fb_bpp small_fb) by (cbn; lia).
  assert (H3 : img_wf tile2) by (unfold img_wf, INT_MAX; cbn; lia).
  assert (H4 : placed tile2 1 1) by (unfold placed, in_int, INT_MIN, INT_MAX; cbn; lia).
  assert (H5 : visible small_fb tile2 1 1 1 1) by (unfold visible; cbn; lia).
  exact (conj H1 (conj H2 (conj H3 (conj H4 (conj H5
           (draw_image_reverses_channels small_fb tile2 1 1 1 1 H1 H2 H3 H4 H5)))))).
Defined.

(** C6.  When the placed image and the device do not intersect, in [x] or
    in [y], drawing returns the device as it was, so no byte of the shadow
    buffer changes, and it prints nothing, whatever the depth of the
    device: the test of the intersection comes before the one that reports
    an unsupported depth. *)
Theorem draw_image_outside_is_noop fb img x_offset y_offset :
  in_int x_offset -> in_int y_offset ->
  0 <= img_width img <= INT_MAX -> 0 <= img_height img <= INT_MAX ->
  0 <= fb_width fb -> 0 <= fb_height fb ->
  Z.min (fb_width fb) (x_offset + img_width img) <= Z.max 0 x_offset
  \/ Z.min (fb_height fb) (y_offset + img_height img) <= Z.max 0 y_offset ->
  framebuffer_draw_image (Some fb) x_offset y_offset (Some img) = Some fb
  /\ framebuffer_draw_image_io (Some fb) x_offset y_offset (Some img) = ([], Some fb).
Proof.
  intros Hxo Hyo Hw Hh HW HH Hempty.
  assert (Hend : forall off len lim, in_int off -> 0 <= len <= INT_MAX -> 0 <= lim ->
            let e := if int_add off len >? lim then lim else int_add off len in
            (off + len <= INT_MAX -> e = Z.min lim (off + len))
            /\ (INT_MAX < off + len -> e < 0)).
  { intros off len lim Ho Hl Hlim. unfold in_int, INT_MIN, INT_MAX in *. cbv zeta. split.
    - intros Hs. rewrite int_add_id by (unfold in_int, INT_MIN, INT_MAX; lia).
      destruct (Z.gtb_spec (off + len) lim); lia.
    - intros Hs. unfold int_add. rewrite wrap32_high by (unfold INT_MAX; lia).
      destruct (Z.gtb_spec (off + len - 2 ^ 32) lim); lia. }
  assert (Hstart : forall off, (if off <? 0 then 0 else off) = Z.max 0 off).
  { intros off. destruct (Z.ltb_spec off 0); lia. }
  unfold framebuffer_draw_image, framebuffer_draw_image_io,
    screen_x_start, screen_x_end, screen_y_start, screen_y_end.
  rewrite !Hstart.
  destruct (Hend x_offset (img_width img) (fb_width fb) Hxo Hw HW) as [X1 X2].
  destruct (Hend y_offset (img_height img) (fb_height fb) Hyo Hh HH) as [Y1 Y2].
  cbv zeta in X1, X2, Y1, Y2.
  set (xe := if int_add x_offset (img_width img) >? fb_width fb then fb_width fb
             else int_add x_offset (img_width img)) in *.
  set (ye := if int_add y_offset (img_height img) >? fb_height fb then fb_height fb
             else int_add y_offset (img_height img)) in *.
  assert (Hor : (Z.max 0 x_offset >=? xe) || (Z.max 0 y_offset >=? ye) = true).
  { apply orb_true_iff. rewrite !Z.geb_leb, !Z.leb_le.
    destruct Hempty as [He | He].
    - left. destruct (Z_le_gt_dec (x_offset + img_width img) INT_MAX); [rewrite X1 by lia|]; lia.
    - right. destruct (Z_le_gt_dec (y_offset + img_height img) INT_MAX); [rewrite Y1 by lia|]; lia. }
  rewrite Hor. split; reflexivity.
Qed.

Lemma draw_image_outside_is_noop_witness :
  in_int 12 /\ in_int 0
  /\ 0 <= img_width tile2 <= INT_MAX /\ 0 <= img_height tile2 <= INT_MAX
  /\ 0 <= fb_width low_fb /\ 0 <= fb_height low_fb
  /\ (Z.min (fb_width low_fb) (12 + img_width tile2) <= Z.max 0 12
      \/ Z.min (fb_height low_fb) (0 + img_height tile2) <= Z.max 0 0)
  /\ framebuffer_draw_image (Some low_fb) 12 0 (Some tile2) = Some low_fb
  /\ framebuffer_draw_image_io (Some low_fb) 12 0 (Some tile2) = ([], Some low_fb).
Proof.
  assert (H1 : in_int 12) by (unfold in_int, INT_MIN, INT_MAX; lia).
  assert (H2 : in_int 0) by (unfold in_int, INT_MIN, INT_MAX; lia).
  assert (H3 : 0 <= img_width tile2 <= INT_MAX) by (unfold INT_MAX; cbn; lia).
  assert (H4 : 0 <= img_height tile2 <= INT_MAX) by (unfold INT_MAX; cbn; lia).
  assert (H5 : 0 <= fb_width low_fb) by (cbn; lia).
  assert (H6 : 0 <= fb_height low_fb) by (cbn; lia).
  assert (H7 : Z.min (fb_width low_fb) (12 + img_width tile2) <= Z.max 0 12
               \/ Z.min (fb_height low_fb) (0 + img_height tile2) <= Z.max 0 0)
    by (left; cbn; lia).
  exact (conj H1 (conj H2 (conj H3 (conj H4 (conj H5 (conj H6 (conj H7
           (draw_image_outside_is_noop low_fb tile2 12 0 H1 H2 H3 H4 H5 H6 H7)))))))).
Defined.

(** ** Resampler *)







(** The bounds on the sizes matter.  Past [2^24] columns the sampled
    column can leave the row: in the row of [2^24 + 4] pixels resized to
    its own width, target column [2^24 + 3] converts to the float
    [2^24 + 4], and the read starts at the end of the source buffer. *)
Lemma resize_reads_past_wide_row :
  src_x wide_row 16777220 16777219 = img_width wide_row
  /\ Z.of_nat (length (img_data wide_row))
     <= int_add (src_index wide_row 16777220 1 16777219 0) 0.
Proof.
  assert (Sx : src_x wide_row 16777220 16777219 = 16777220).
  { unfold src_x, x_ratio. change (img_width wide_row) with 16777220.
    vm_compute. reflexivity. }
  assert (Sy : src_y wide_row 1 0 = 0).
  { unfold src_y, y_ratio. change (img_height wide_row) with 1.
    vm_compute. reflexivity. }
  split; [exact Sx|].
  unfold src_index. rewrite Sx, Sy.
  change (img_stride wide_row) with 50331660. change (img_bpp wide_row) with 3.
  change (img_data wide_row)
    with (map (fun j => if j <? 50331651 then 0 else 255) (seqZ 0 50331660)).
  rewrite length_map, length_seqZ.
  replace (int_add (int_add (int_mul 0 50331660) (int_mul 16777220 3)) 0)
    with 50331660 by (vm_compute; reflexivity).
  lia.
Qed.




(** ** Interaction loop *)

(** C3, as stated, fails at the first frame: a single-pixel image on a
    16x12 device starts at scale [12 * 0.8 = 9.6], above 5. *)
Lemma first_frame_scale_unclamped :
  exists st0,
    main_init wide_fb dot true (Some (fun _ => 0)) = Some st0
    /\ reachable st0 st0
    /\ ~ (F2Q (scale st0) <= 5)%Q.
Proof.
  eexists. split; [vm_compute; reflexivity|]. split; [constructor|].
  vm_compute. intros H. apply H. reflexivity.
Qed.

(** C3, as the code has it.  For an image of positive dimensions, in every
    state the loop reaches, the scale left by a turn that does not quit is
    a finite single-precision value between [0.1f] and [5.0f], hence within
    [0.1, 5.0]; the scale of the first frame is the unclamped fit scale. *)
Theorem scale_clamped_after_key fb0 img0 a_struct a_data st0 st i ev st' :
  0 < img_width img0 <= INT_MAX -> 0 < img_height img0 <= INT_MAX ->
  main_init fb0 img0 a_struct a_data = Some st0 ->
  reachable st0 st -> loop_body st i = (ev, Some st') ->
  in_scale_range (scale st')
  /\ ((1 # 10) <= F2Q (scale st') /\ F2Q (scale st') <= 5)%Q.
Proof.
  intros Hw Hh Hinit Hr Hb.
  destruct (main_init_good _ _ _ _ _ Hw Hh Hinit) as (Hg0 & _).
  destruct (reachable_good _ _ Hg0 Hr) as (Hg & _).
  destruct (loop_body_state _ _ _ _ Hb) as (s & Hk & Hs & _).
  assert (R : in_scale_range (scale st')).
  { rewrite Hs. apply clamp_scale_in_range. eapply key_scale_good; eassumption. }
  split; [exact R | apply in_scale_range_bounds; exact R].
Qed.

Lemma scale_clamped_after_key_witness :
  0 < img_width tile2 <= INT_MAX /\ 0 < img_height tile2 <= INT_MAX
  /\ main_init small_fb tile2 true (Some (fun _ => 0)) = Some tile2_start
  /\ reachable tile2_start tile2_start
  /\ loop_body tile2_start (press "+") = (tile2_plus_events, Some tile2_plus)
  /\ in_scale_range (scale tile2_plus)
  /\ ((1 # 10) <= F2Q (scale tile2_plus) /\ F2Q (scale tile2_plus) <= 5)%Q.
Proof.
  assert (H1 : 0 < img_width tile2 <= INT_MAX) by (unfold INT_MAX; cbn; lia).
  assert (H2 : 0 < img_height tile2 <= INT_MAX) by (unfold INT_MAX; cbn; lia).
  assert (H3 : main_init small_fb tile2 true (Some (fun _ => 0)) = Some tile2_start)
    by (vm_compute; reflexivity).
  assert (H4 : reachable tile2_start tile2_start) by constructor.
  assert (H5 : loop_body tile2_start (press "+") = (tile2_plus_events, Some tile2_plus))
    by (vm_compute; reflexivity).
  exact (conj H1 (conj H2 (conj H3 (conj H4 (conj H5
           (scale_clamped_after_key small_fb tile2 true (Some (fun _ => 0))
              tile2_start tile2_start (press "+") tile2_plus_events tile2_plus
              H1 H2 H3 H4 H5)))))).
Defined.

(** C4, as stated, fails when the base scale is outside the clamp bounds:
    from the base scale 9.6 of the single pixel on the 16x12 device, [+],
    [-], [r] leave the scale at 5.0. *)
Lemma reset_differs_from_base :
  exists st0,
    main_init wide_fb dot true (Some (fun _ => 0)) = Some st0
    /\ default_scale st0 = scale st0
    /\ scale (snd (main_loop [press "+"; press "-"; press "r"] st0)) <> scale st0.
Proof.
  eexists. split; [vm_compute; reflexivity|]. split; [reflexivity|].
  vm_compute. discriminate.
Qed.

(** C4, as the code has it.  The base scale is the scale of the first
    frame; after any finite sequence of [+] and [-], pressing [r] sets the
    scale to the base scale clamped to [0.1f, 5.0f], which is the base
    scale itself, bit for bit, whenever the base scale lies within those
    bounds. *)
Theorem reset_restores_clamped_base fb0 img0 a_struct a_data st0 ins ir :
  main_init fb0 img0 a_struct a_data = Some st0 ->
  Forall (fun i => key i = "+"%char \/ key i = "-"%char) ins ->
  key ir = "r"%char ->
  default_scale st0 = scale st0
  /\ scale (snd (main_loop (ins ++ [ir]) st0)) = clamp_scale (scale st0)
  /\ (in_scale_range (scale st0) ->
      scale (snd (main_loop (ins ++ [ir]) st0)) = scale st0).
Proof.
  intros Hinit Hins Hr.
  assert (Hd0 : default_scale st0 = scale st0).
  { unfold main_init in Hinit.
    destruct (Image_resize_linear _ _ _ _ _); [|discriminate].
    injection Hinit as <-. reflexivity. }
  assert (Hgen : forall st, scale (snd (main_loop (ins ++ [ir]) st))
                            = clamp_scale (default_scale st)).
  { induction Hins as [|i ins' Hi _ IH]; intros st.
    - cbn [app].
      destruct (loop_body_continues st ir) as (ev & st' & Hb).
      { unfold key_scale. rewrite Hr. cbn. discriminate. }
      rewrite (main_loop_cons _ _ _ _ _ Hb), main_loop_nil_scale.
      destruct (loop_body_state _ _ _ _ Hb) as (s & Hk & Hs & _).
      unfold key_scale in Hk. rewrite Hr in Hk. cbn in Hk. injection Hk as <-. exact Hs.
    - cbn [app].
      destruct (loop_body_continues st i) as (ev & st' & Hb).
      { unfold key_scale. destruct Hi as [-> | ->]; cbn; discriminate. }
      rewrite (main_loop_cons _ _ _ _ _ Hb), IH.
      destruct (loop_body_state _ _ _ _ Hb) as (s & _ & _ & Hd & _).
      rewrite Hd. reflexivity. }
  split; [exact Hd0|]. rewrite Hgen, Hd0. split; [reflexivity|].
  apply clamp_scale_fixed.
Qed.

Lemma reset_restores_clamped_base_witness :
  main_init small_fb tile2 true (Some (fun _ => 0)) = Some tile2_start
  /\ Forall (fun i => key i = "+"%char \/ key i = "-"%char) [press "+"; press "-"]
  /\ key (press "r") = "r"%char
  /\ default_scale tile2_start = scale tile2_start
  /\ scale (snd (main_loop ([press "+"; press "-"] ++ [press "r"]) tile2_start))
     = clamp_scale (scale tile2_start)
  /\ (in_scale_range (scale tile2_start) ->
      scale (snd (main_loop ([press "+"; press "-"] ++ [press "r"]) tile2_start))
      = scale tile2_start).
Proof.
  assert (H1 : main_init small_fb tile2 true (Some (fun _ => 0)) = Some tile2_start)
    by (vm_compute; reflexivity).
  assert (H2 : Forall (fun i => key i = "+"%char \/ key i = "-"%char)
                 [press "+"; press "-"]).
  { constructor; [left; reflexivity|]. constructor; [right; reflexivity|]. constructor. }
  assert (H3 : key (press "r") = "r"%char) by reflexivity.
  exact (conj H1 (conj H2 (conj H3
           (reset_restores_clamped_base small_fb tile2 true (Some (fun _ => 0))
              tile2_start [press "+"; press "-"] (press "r") H1 H2 H3)))).
Defined.

(** C5, as stated, fails for a small image: a 5x5 image on the 4x3 device
    starts at scale 0.48 (2x2 pixels), and the fifth [-] brings the scale
    to about 0.19, within the clamp bounds, where
    [(int) (5 * scale) = 0]: the loop calls the resize with width and
    height 0. *)
Lemma in_loop_resize_to_zero :
  exists st0,
    main_init small_fb tile5 true (Some (fun _ => 0)) = Some st0
    /\ img_width (resized st0) = 2
    /\ In (EvResize 0 0) (fst (main_loop (repeat (press "-") 5) st0)).
Proof.
  eexists. split; [vm_compute; reflexivity|]. split; [reflexivity|].
  vm_compute. repeat (first [left; reflexivity | right]).
Qed.

(** C5, as the code has it.  Whenever the source image is between 10 and
    429496720 pixels wide, every resize the loop calls gets a target width
    greater than 0, and whenever it is between 10 and 429496720 pixels
    high, a target height greater than 0. *)
Theorem in_loop_resize_target_positive fb0 img0 a_struct a_data st0 st i ev r w h :
  0 < img_width img0 <= INT_MAX -> 0 < img_height img0 <= INT_MAX ->
  main_init fb0 img0 a_struct a_data = Some st0 ->
  reachable st0 st -> loop_body st i = (ev, r) -> In (EvResize w h) ev ->
  (10 <= img_width img0 <= 429496720 -> 0 < w)
  /\ (10 <= img_height img0 <= 429496720 -> 0 < h).
Proof.
  intros Hw' Hh' Hinit Hr Hb Hin.
  destruct (main_init_good _ _ _ _ _ Hw' Hh' Hinit) as (Hg0 & _ & _ & Hi0).
  destruct (reachable_good _ _ Hg0 Hr) as (Hg & _ & Hi).
  destruct (loop_body_resize _ _ _ _ _ _ Hb Hin) as (s & Hk & -> & ->).
  assert (R : in_scale_range (clamp_scale s)).
  { apply clamp_scale_in_range. eapply key_scale_good; eassumption. }
  rewrite Hi, Hi0. unfold resized_width, resized_height.
  split; intros Hd; pose proof (scaled_dim_positive _ _ Hd R); lia.
Qed.

Lemma in_loop_resize_target_positive_witness :
  0 < img_width tile10 <= INT_MAX /\ 0 < img_height tile10 <= INT_MAX
  /\ main_init small_fb tile10 true (Some (fun _ => 0)) = Some tile10_start
  /\ reachable tile10_start tile10_start
  /\ loop_body tile10_start (press "+") = (tile10_plus_events, Some tile10_plus)
  /\ In (EvResize 2 2) tile10_plus_events
  /\ (10 <= img_width tile10 <= 429496720 -> 0 < 2)
  /\ (10 <= img_height tile10 <= 429496720 -> 0 < 2).
Proof.
  assert (H1 : 0 < img_width tile10 <= INT_MAX) by (unfold INT_MAX; cbn; lia).
  assert (H2 : 0 < img_height tile10 <= INT_MAX) by (unfold INT_MAX; cbn; lia).
  assert (H3 : main_init small_fb tile10 true (Some (fun _ => 0)) = Some tile10_start)
    by (vm_compute; reflexivity).
  assert (H4 : reachable tile10_start tile10_start) by constructor.
  assert (H5 : loop_body tile10_start (press "+")
               = (tile10_plus_events, Some tile10_plus)) by (vm_compute; reflexivity).
  assert (H6 : In (EvResize 2 2) tile10_plus_events)
    by (vm_compute; repeat (first [left; reflexivity | right])).
  exact (conj H1 (conj H2 (conj H3 (conj H4 (conj H5 (conj H6
           (in_loop_resize_target_positive small_fb tile10 true (Some (fun _ => 0))
              tile10_start tile10_start (press "+") tile10_plus_events
              (Some tile10_plus) 2 2 H1 H2 H3 H4 H5 H6))))))).
Defined.

(** The upper bound of C5 cannot be raised.  A width of 429496721
    converts to the float 429496736, whose product with [5.0f] rounds to
    [2^31], which no [int] holds: the conversion is undefined in C, and
    [int_of_f32] gives it the value of the x86 instruction, [INT_MIN].  On
    the 4x3 device the twenty-third [+] brings the scale of such an image
    to 5.0, and the loop calls the resize with that width. *)
Lemma in_loop_resize_past_int data :
  f32_mul (f32_of_int 429496721) f32_5_0 = S754_finite false 8388608 8
  /\ exists st0,
       main_init small_fb (strip data) true (Some (fun _ => 0)) = Some st0
       /\ In (EvResize INT_MIN 5) (fst (main_loop (repeat (press_oom "+") 23) st0)).
Proof.
  split; [vm_compute; reflexivity|].
  eexists. split; [vm_compute; reflexivity|].
  vm_compute. repeat (first [left; reflexivity | right]).
Qed.

(** C8, as stated, fails: an unrecognised key leaves the scale as it was,
    and between that keystroke and the next read the loop clears, draws
    and flushes again. *)
Lemma unchanged_scale_redraws :
  main_init small_fb tile2 true (Some (fun _ => 0)) = Some tile2_start
  /\ f32_eq (clamp_scale (scale tile2_start)) (prev_scale tile2_start) = true
  /\ fst (main_loop [press "x"; press "x"] tile2_start)
     = [EvClear; EvDraw 1 0 tile2; EvUpdate; EvGetchar "x";
        EvClear; EvDraw 1 0 tile2; EvUpdate; EvGetchar "x";
        EvClear; EvDraw 1 0 tile2; EvUpdate].
Proof.
  split; [vm_compute; reflexivity|]. split; vm_compute; reflexivity.
Qed.

(** C8, as the code has it.  When the clamped scale equals [prev_scale],
    the rest of the turn does nothing: no resample, nothing freed, the
    displayed image and the device unchanged.  The loop then starts its
    next turn, which clears, draws the same image at the same position and
    flushes before it reads the next keystroke. *)
Theorem unchanged_scale_skips_resample_only st i s :
  key_scale st (key i) = Some s ->
  f32_eq (clamp_scale s) (prev_scale st) = true ->
  exists st',
    handle_key st i = ([], Some st')
    /\ resized st' = resized st /\ fb st' = fb st
    /\ forall i', exists ev st'',
         loop_body st' i'
         = ([EvClear; EvDraw (pos_x st) (pos_y st) (resized st); EvUpdate;
             EvGetchar (key i')] ++ ev, st'').
Proof.
  intros Hk He. unfold handle_key. rewrite Hk, He.
  eexists. split; [reflexivity|]. split; [reflexivity|]. split; [reflexivity|].
  intros i'. unfold loop_body.
  match goal with |- context [draw_frame ?t] => set (st' := t) end.
  destruct (draw_frame st') as [ev1 st1] eqn:Ed.
  assert (Hev1 : ev1 = [EvClear; EvDraw (pos_x st) (pos_y st) (resized st); EvUpdate]).
  { unfold draw_frame in Ed. injection Ed as <- _. reflexivity. }
  destruct (handle_key st1 i') as [ev2 st2]. exists ev2, st2. subst ev1. reflexivity.
Qed.

Lemma unchanged_scale_skips_resample_only_witness :
  key_scale tile2_start (key (press "x")) = Some f32_1_2
  /\ f32_eq (clamp_scale f32_1_2) (prev_scale tile2_start) = true
  /\ exists st',
       handle_key tile2_start (press "x") = ([], Some st')
       /\ resized st' = resized tile2_start /\ fb st' = fb tile2_start
       /\ forall i', exists ev st'',
            loop_body st' i'
            = ([EvClear; EvDraw (pos_x tile2_start) (pos_y tile2_start)
                          (resized tile2_start); EvUpdate;
                EvGetchar (key i')] ++ ev, st'').
Proof.
  assert (H1 : key_scale tile2_start (key (press "x")) = Some f32_1_2)
    by (vm_compute; reflexivity).
  assert (H2 : f32_eq (clamp_scale f32_1_2) (prev_scale tile2_start) = true)
    by (vm_compute; reflexivity).
  exact (conj H1 (conj H2
           (unchanged_scale_skips_resample_only tile2_start (press "x") f32_1_2 H1 H2))).
Defined.

(** C9.  When the resample of a turn returns no image, because an
    allocation failed or because the byte count of the target does not fit
    an [int], the turn ends with the previously displayed image still in
    place and not freed, the loop goes on, and the next frame draws that
    same image; the only call of the turn, when the scale differs from
    [prev_scale], is that resize.  A later keystroke that changes the scale
    and whose resample succeeds replaces the image, freeing the old one. *)
Theorem failed_resample_keeps_image st i s :
  key_scale st (key i) = Some s ->
  Image_resize_linear (alloc_struct i) (alloc_data i) (img st)
    (resized_width (img st) (clamp_scale s))
    (resized_height (img st) (clamp_scale s)) = None ->
  exists ev st',
    handle_key st i = (ev, Some st')
    /\ resized st' = resized st /\ img st' = img st
    /\ (forall r, ~ In (EvFree r) ev)
    /\ (f32_eq (clamp_scale s) (prev_scale st) = false ->
        ev = [EvResize (resized_width (img st) (clamp_scale s))
                       (resized_height (img st) (clamp_scale s))])
    /\ fst (draw_frame st')
       = [EvClear; EvDraw (pos_x st) (pos_y st) (resized st); EvUpdate]
    /\ forall i' s' r',
         key_scale st' (key i') = Some s' ->
         f32_eq (clamp_scale s') (prev_scale st') = false ->
         Image_resize_linear (alloc_struct i') (alloc_data i') (img st)
           (resized_width (img st) (clamp_scale s'))
           (resized_height (img st) (clamp_scale s')) = Some r' ->
         exists ev' st'', handle_key st' i' = (ev', Some st'')
           /\ resized st'' = r' /\ In (EvFree (resized st)) ev'.
Proof.
  intros Hk Hnone.
  assert (Hnext : forall st', resized st' = resized st -> img st' = img st ->
            forall i' s' r',
              key_scale st' (key i') = Some s' ->
              f32_eq (clamp_scale s') (prev_scale st') = false ->
              Image_resize_linear (alloc_struct i') (alloc_data i') (img st)
                (resized_width (img st) (clamp_scale s'))
                (resized_height (img st) (clamp_scale s')) = Some r' ->
              exists ev' st'', handle_key st' i' = (ev', Some st'')
                /\ resized st'' = r' /\ In (EvFree (resized st)) ev').
  { intros st' Hr Hi i' s' r' Hk' He' Hres. unfold handle_key.
    rewrite Hk', He', Hi, Hres, Hr. eexists _, _. split; [reflexivity|].
    split; [reflexivity|]. cbn. auto. }
  unfold handle_key. rewrite Hk.
  destruct (f32_eq (clamp_scale s) (prev_scale st)).
  - eexists _, _. split; [reflexivity|]. cbn [resized img].
    split; [reflexivity|]. split; [reflexivity|]. split; [intros r []|].
    split; [discriminate|].
    split; [reflexivity|]. apply Hnext; reflexivity.
  - rewrite Hnone. eexists _, _. split; [reflexivity|]. cbn [resized img].
    split; [reflexivity|]. split; [reflexivity|].
    split; [intros r [H | []]; discriminate H|].
    split; [reflexivity|].
    split; [reflexivity|]. apply Hnext; reflexivity.
Qed.

Lemma failed_resample_keeps_image_witness :
  key_scale tile2_start (key (press_oom "+")) = Some (f32_mul f32_1_2 f32_1_2)
  /\ Image_resize_linear (alloc_struct (press_oom "+")) (alloc_data (press_oom "+"))
       (img tile2_start)
       (resized_width (img tile2_start) (clamp_scale (f32_mul f32_1_2 f32_1_2)))
       (resized_height (img tile2_start) (clamp_scale (f32_mul f32_1_2 f32_1_2))) = None
  /\ exists ev st',
       handle_key tile2_start (press_oom "+") = (ev, Some st')
       /\ resized st' = resized tile2_start /\ img st' = img tile2_start
       /\ (forall r, ~ In (EvFree r) ev)
       /\ (f32_eq (clamp_scale (f32_mul f32_1_2 f32_1_2)) (prev_scale tile2_start) = false ->
           ev = [EvResize
                   (resized_width (img tile2_start) (clamp_scale (f32_mul f32_1_2 f32_1_2)))
                   (resized_height (img tile2_start)
                      (clamp_scale (f32_mul f32_1_2 f32_1_2)))])
       /\ fst (draw_frame st')
          = [EvClear; EvDraw (pos_x tile2_start) (pos_y tile2_start)
                        (resized tile2_start); EvUpdate]
       /\ forall i' s' r',
            key_scale st' (key i') = Some s' ->
            f32_eq (clamp_scale s') (prev_scale st') = false ->
            Image_resize_linear (alloc_struct i') (alloc_data i') (img tile2_start)
              (resized_width (img tile2_start) (clamp_scale s'))
              (resized_height (img tile2_start) (clamp_scale s')) = Some r' ->
            exists ev' st'', handle_key st' i' = (ev', Some st'')
              /\ resized st'' = r' /\ In (EvFree (resized tile2_start)) ev'.
Proof.
  assert (H1 : key_scale tile2_start (key (press_oom "+"))
               = Some (f32_mul f32_1_2 f32_1_2)) by reflexivity.
  assert (H2 : Image_resize_linear (alloc_struct (press_oom "+"))
                 (alloc_data (press_oom "+")) (img tile2_start)
                 (resized_width (img tile2_start) (clamp_scale (f32_mul f32_1_2 f32_1_2)))
                 (resized_height (img tile2_start) (clamp_scale (f32_mul f32_1_2 f32_1_2)))
               = None) by (vm_compute; reflexivity).
  exact (conj H1 (conj H2
           (failed_resample_keeps_image tile2_start (press_oom "+")
              (f32_mul f32_1_2 f32_1_2) H1 H2))).
Defined.

(** A resample can return no image with both allocations granted: for a
    30000x30000 target the byte count wraps to a negative [int], a size no
    allocator satisfies. *)
Lemma resize_fails_on_wrapped_size :
  Image_resize_linear true (Some (fun _ => 0)) tile2 30000 30000 = None.
Proof. apply resize_negative_size. vm_compute. reflexivity. Qed.

(* ================================================================== *)
(** * Part V: further properties of the code                         *)
(* ================================================================== *)

(** ** Frames *)

(** X1.  [framebuffer_clear_color] on a device of at least three bytes a
    pixel writes [b], [g], [r] into bytes 0, 1 and 2 of every pixel of the
    shadow buffer and nothing else: the further bytes of each pixel, the
    length of the buffer, the geometry and the device mapping are as before. *)
Theorem clear_color_paints_every_pixel fb r g b :
  fb_wf fb -> 3 <= fb_bpp fb ->
  exists fb',
    framebuffer_clear_color (Some fb) r g b = Some fb'
    /\ fb_width fb' = fb_width fb /\ fb_height fb' = fb_height fb
    /\ fb_bpp fb' = fb_bpp fb /\ fbp fb' = fbp fb
    /\ length (buffer fb') = length (buffer fb)
    /\ forall x y, 0 <= x < fb_width fb -> 0 <= y < fb_height fb ->
         fb_byte fb' x y 0 = b /\ fb_byte fb' x y 1 = g /\ fb_byte fb' x y 2 = r
         /\ forall c, 3 <= c < fb_bpp fb -> fb_byte fb' x y c = fb_byte fb x y c.
Proof.
  intros Hfb Hb.
  destruct (clear_color_spec fb r g b Hfb Hb) as (buf & E & L & V).
  exists (set_buffer fb buf). split; [exact E|].
  do 4 (split; [reflexivity|]). split; [exact L|].
  intros x y Hx Hy. unfold fb_byte. cbn [buffer set_buffer fb_width fb_bpp].
  apply V; assumption.
Qed.

Lemma clear_color_paints_every_pixel_witness :
  fb_wf small_fb /\ 3 <= fb_bpp small_fb
  /\ exists fb',
       framebuffer_clear_color (Some small_fb) 10 20 30 = Some fb'
       /\ fb_width fb' = fb_width small_fb /\ fb_height fb' = fb_height small_fb
       /\ fb_bpp fb' = fb_bpp small_fb /\ fbp fb' = fbp small_fb
       /\ length (buffer fb') = length (buffer small_fb)
       /\ forall x y, 0 <= x < fb_width small_fb -> 0 <= y < fb_height small_fb ->
            fb_byte fb' x y 0 = 30 /\ fb_byte fb' x y 1 = 20 /\ fb_byte fb' x y 2 = 10
            /\ forall c, 3 <= c < fb_bpp small_fb ->
                 fb_byte fb' x y c = fb_byte small_fb x y c.
Proof.
  assert (H1 : fb_wf small_fb) by (unfold fb_wf, INT_MAX; cbn; lia).
  assert (H2 : 3 <= fb_bpp small_fb) by (cbn; lia).
  exact (conj H1 (conj H2 (clear_color_paints_every_pixel small_fb 10 20 30 H1 H2))).
Defined.

(** X2.  [framebuffer_update] copies the whole shadow buffer to the device
    mapping and leaves the shadow buffer and the geometry alone; a second
    update changes nothing. *)
Theorem update_copies_shadow fb :
  fb_wf fb -> 1 <= fb_bpp fb -> length (fbp fb) = length (buffer fb) ->
  exists fb',
    framebuffer_update (Some fb) = Some fb'
    /\ fbp fb' = buffer fb /\ buffer fb' = buffer fb
    /\ fb_width fb' = fb_width fb /\ fb_height fb' = fb_height fb
    /\ fb_bpp fb' = fb_bpp fb
    /\ framebuffer_update (Some fb') = Some fb'.
Proof.
  intros Hfb Hb Hl. eexists. split; [apply update_spec; assumption|].
  do 5 (split; [reflexivity|]).
  rewrite update_spec; [reflexivity | | assumption | reflexivity].
  destruct Hfb as (? & ? & ? & ? & ?). repeat split; assumption.
Qed.

Lemma update_copies_shadow_witness :
  fb_wf low_fb /\ 1 <= fb_bpp low_fb /\ length (fbp low_fb) = length (buffer low_fb)
  /\ exists fb',
       framebuffer_update (Some low_fb) = Some fb'
       /\ fbp fb' = buffer low_fb /\ buffer fb' = buffer low_fb
       /\ fb_width fb' = fb_width low_fb /\ fb_height fb' = fb_height low_fb
       /\ fb_bpp fb' = fb_bpp low_fb
       /\ framebuffer_update (Some fb') = Some fb'.
Proof.
  assert (H1 : fb_wf low_fb) by (unfold fb_wf, INT_MAX; cbn; lia).
  assert (H2 : 1 <= fb_bpp low_fb) by (cbn; lia).
  assert (H3 : length (fbp low_fb) = length (buffer low_fb)) by reflexivity.
  exact (conj H1 (conj H2 (conj H3 (update_copies_shadow low_fb H1 H2 H3)))).
Defined.

(** X3.  [framebuffer_draw_image] writes only the first three bytes of the
    pixels the placed image covers: every byte of a pixel it does not cover,
    the fourth and later bytes of a pixel it covers, the device mapping and
    the length of the shadow buffer are unchanged. *)
Theorem draw_image_keeps_other_bytes fb img x_offset y_offset :
  fb_wf fb -> 3 <= fb_bpp fb -> img_wf img -> placed img x_offset y_offset ->
  exists fb',
    framebuffer_draw_image (Some fb) x_offset y_offset (Some img) = Some fb'
    /\ fbp fb' = fbp fb /\ length (buffer fb') = length (buffer fb)
    /\ forall x y c,
         0 <= x < fb_width fb -> 0 <= y < fb_height fb -> 0 <= c < fb_bpp fb ->
         ~ visible fb img x_offset y_offset x y \/ 3 <= c ->
         fb_byte fb' x y c = fb_byte fb x y c.
Proof.
  intros Hfb Hb Himg Hpl.
  destruct (draw_image_spec fb img x_offset y_offset Hfb Hb Himg Hpl) as (buf & E & L & _ & U).
  exists (set_buffer fb buf). split; [exact E|]. split; [reflexivity|]. split; [exact L|].
  intros x y c Hx Hy Hc Hout. unfold fb_byte. cbn [buffer set_buffer fb_width fb_bpp].
  apply U. destruct Himg as (_ & _ & Hib & _).
  apply cell_not_drawn; try assumption; rewrite Hib; [lia | exact Hout].
Qed.

Lemma draw_image_keeps_other_bytes_witness :
  fb_wf small_fb /\ 3 <= fb_bpp small_fb /\ img_wf tile2 /\ placed tile2 (-1) 2
  /\ exists fb',
       framebuffer_draw_image (Some small_fb) (-1) 2 (Some tile2) = Some fb'
       /\ fbp fb' = fbp small_fb /\ length (buffer fb') = length (buffer small_fb)
       /\ forall x y c,
            0 <= x < fb_width small_fb -> 0 <= y < fb_height small_fb ->
            0 <= c < fb_bpp small_fb ->
            ~ visible small_fb tile2 (-1) 2 x y \/ 3 <= c ->
            fb_byte fb' x y c = fb_byte small_fb x y c.
Proof.
  assert (H1 : fb_wf small_fb) by (unfold fb_wf, INT_MAX; cbn; lia).
  assert (H2 : 3 <= fb_bpp small_fb) by (cbn; lia).
  assert (H3 : img_wf tile2) by (unfold img_wf, INT_MAX; cbn; lia).
  assert (H4 : placed tile2 (-1) 2) by (unfold placed, in_int, INT_MIN, INT_MAX; cbn; lia).
  exact (conj H1 (conj H2 (conj H3 (conj H4
           (draw_image_keeps_other_bytes small_fb tile2 (-1) 2 H1 H2 H3 H4))))).
Defined.

(** X4.  Every index [framebuffer_draw_image] computes stays inside its
    buffer, however the image is clipped by the screen: for each pixel and
    channel the three loops visit, the index written lies in the shadow
    buffer and the index read lies in the pixel buffer of the image. *)
Theorem draw_image_accesses_in_bounds fb img x_offset y_offset x y c :
  fb_wf fb -> 3 <= fb_bpp fb -> img_wf img -> placed img x_offset y_offset ->
  screen_x_start x_offset <= x < screen_x_end fb x_offset img ->
  screen_y_start y_offset <= y < screen_y_end fb y_offset img ->
  0 <= c < img_bpp img ->
  0 <= int_add (fb_index fb x y) c < Z.of_nat (length (buffer fb))
  /\ 0 <= int_sub (int_sub (int_add (img_index img x_offset y_offset x y) (img_bpp img)) 1) c
       < Z.of_nat (length (img_data img)).
Proof.
  intros Hfb Hb Himg Hpl Hx Hy Hc.
  pose proof Hpl as (Hxo & Hyo & Hxs & Hys).
  pose proof Hfb as (HW & HH & HB & Hmax & Hlen).
  pose proof Himg as (Hw & Hh & Hib & Hst & Himax & Hilen).
  destruct (screen_x_plain fb x_offset img Hxs) as [Exs Exe].
  destruct (screen_y_plain fb y_offset img Hys) as [Eys Eye].
  rewrite Exs, Exe in Hx. rewrite Eys, Eye in Hy.
  split.
  - unfold fb_index.
    destruct (row_major_plain (fb_width fb) (fb_height fb) (fb_bpp fb) x y c) as [E _];
      try lia.
    rewrite E, Hlen. apply cell_bounds; lia.
  - rewrite img_index_plain by (assumption || lia).
    rewrite Hilen. apply cell_bounds; lia.
Qed.

Lemma draw_image_accesses_in_bounds_witness :
  fb_wf small_fb /\ 3 <= fb_bpp small_fb /\ img_wf tile2 /\ placed tile2 (-1) 2
  /\ screen_x_start (-1) <= 0 < screen_x_end small_fb (-1) tile2
  /\ screen_y_start 2 <= 2 < screen_y_end small_fb 2 tile2
  /\ 0 <= 2 < img_bpp tile2
  /\ 0 <= int_add (fb_index small_fb 0 2) 2 < Z.of_nat (length (buffer small_fb))
  /\ 0 <= int_sub (int_sub (int_add (img_index tile2 (-1) 2 0 2) (img_bpp tile2)) 1) 2
       < Z.of_nat (length (img_data tile2)).
Proof.
  assert (H1 : fb_wf small_fb) by (unfold fb_wf, INT_MAX; cbn; lia).
  assert (H2 : 3 <= fb_bpp small_fb) by (cbn; lia).
  assert (H3 : img_wf tile2) by (unfold img_wf, INT_MAX; cbn; lia).
  assert (H4 : placed tile2 (-1) 2) by (unfold placed, in_int, INT_MIN, INT_MAX; cbn; lia).
  assert (H5 : screen_x_start (-1) <= 0 < screen_x_end small_fb (-1) tile2)
    by (vm_compute; split; [discriminate | reflexivity]).
  assert (H6 : screen_y_start 2 <= 2 < screen_y_end small_fb 2 tile2)
    by (vm_compute; split; [discriminate | reflexivity]).
  assert (H7 : 0 <= 2 < img_bpp tile2) by (cbn; lia).
  exact (conj H1 (conj H2 (conj H3 (conj H4 (conj H5 (conj H6 (conj H7
           (draw_image_accesses_in_bounds small_fb tile2 (-1) 2 0 2 2
              H1 H2 H3 H4 H5 H6 H7)))))))).
Defined.



(** X6.  On a device of one or two bytes a pixel a frame draws nothing:
    clearing and drawing both return early, the shadow buffer keeps its
    content, and the update copies exactly that content to the device. *)
Theorem frame_on_low_depth_device st :
  fb_wf (fb st) -> 1 <= fb_bpp (fb st) < 3 ->
  length (fbp (fb st)) = length (buffer (fb st)) ->
  buffer (fb (snd (draw_frame st))) = buffer (fb st)
  /\ fbp (fb (snd (draw_frame st))) = buffer (fb st).
Proof.
  intros Hfb Hb Hl. unfold draw_frame.
  assert (E1 : framebuffer_clear_color (Some (fb st)) 0 0 0 = Some (fb st)).
  { unfold framebuffer_clear_color.
    replace (fb_bpp (fb st) <? 3) with true by (symmetry; apply Z.ltb_lt; lia).
    reflexivity. }
  assert (E2 : framebuffer_draw_image (Some (fb st)) (pos_x st) (pos_y st) (Some (resized st))
               = Some (fb st)).
  { unfold framebuffer_draw_image.
    replace (fb_bpp (fb st) <? 3) with true by (symmetry; apply Z.ltb_lt; lia).
    destruct (_ || _); reflexivity. }
  rewrite E1, E2, update_spec by (assumption || lia).
  split; reflexivity.
Qed.

Lemma frame_on_low_depth_device_witness :
  fb_wf (fb low_start) /\ 1 <= fb_bpp (fb low_start) < 3
  /\ length (fbp (fb low_start)) = length (buffer (fb low_start))
  /\ buffer (fb (snd (draw_frame low_start))) = buffer (fb low_start)
  /\ fbp (fb (snd (draw_frame low_start))) = buffer (fb low_start).
Proof.
  assert (H1 : fb_wf (fb low_start)) by (unfold fb_wf, INT_MAX; cbn; lia).
  assert (H2 : 1 <= fb_bpp (fb low_start) < 3) by (cbn; lia).
  assert (H3 : length (fbp (fb low_start)) = length (buffer (fb low_start)))
    by reflexivity.
  exact (conj H1 (conj H2 (conj H3 (frame_on_low_depth_device low_start H1 H2 H3)))).
Defined.

(** X7.  The loop centres the image: the left and right margins, and the
    top and bottom margins, differ by at most one pixel; they are not
    negative when the image fits the screen and not positive when it is
    larger, so that an image too large is clipped evenly. *)
Theorem image_centred_within_one_pixel st :
  0 <= fb_width (fb st) <= INT_MAX -> 0 <= fb_height (fb st) <= INT_MAX ->
  0 <= img_width (resized st) <= INT_MAX -> 0 <= img_height (resized st) <= INT_MAX ->
  let left := pos_x st in
  let right := fb_width (fb st) - (pos_x st + img_width (resized st)) in
  let top := pos_y st in
  let bottom := fb_height (fb st) - (pos_y st + img_height (resized st)) in
  (-1 <= right - left <= 1 /\ -1 <= bottom - top <= 1)
  /\ (img_width (resized st) <= fb_width (fb st) -> 0 <= left <= right)
  /\ (fb_width (fb st) <= img_width (resized st) -> right <= left <= 0)
  /\ (img_height (resized st) <= fb_height (fb st) -> 0 <= top <= bottom)
  /\ (fb_height (fb st) <= img_height (resized st) -> bottom <= top <= 0).
Proof.
  intros HW HH Hw Hh. cbv zeta. unfold pos_x, pos_y.
  destruct (pos_plain _ _ HW Hw) as (-> & _ & _).
  destruct (pos_plain _ _ HH Hh) as (-> & _ & _).
  assert (Q : forall d, (0 <= d -> 0 <= Z.quot d 2 /\ d - 1 <= 2 * Z.quot d 2 <= d)
                        /\ (d <= 0 -> Z.quot d 2 <= 0 /\ d <= 2 * Z.quot d 2 <= d + 1)).
  { intros d. pose proof (Z.quot_rem' d 2) as E. split; intros Hd.
    - pose proof (Z.rem_bound_pos d 2 Hd ltac:(lia)). lia.
    - pose proof (Z.rem_bound_pos_neg d 2 ltac:(lia) Hd). lia. }
  destruct (Q (fb_width (fb st) - img_width (resized st))) as [X1 X2].
  destruct (Q (fb_height (fb st) - img_height (resized st))) as [Y1 Y2].
  assert (forall a b : Z, 0 <= a - b \/ a - b <= 0) as D by (intros; lia).
  destruct (D (fb_width (fb st)) (img_width (resized st)));
    destruct (D (fb_height (fb st)) (img_height (resized st))); lia.
Qed.

Lemma image_centred_within_one_pixel_witness :
  0 <= fb_width (fb tile2_start) <= INT_MAX /\ 0 <= fb_height (fb tile2_start) <= INT_MAX
  /\ 0 <= img_width (resized tile2_start) <= INT_MAX
  /\ 0 <= img_height (resized tile2_start) <= INT_MAX
  /\ let left := pos_x tile2_start in
     let right := fb_width (fb tile2_start)
                  - (pos_x tile2_start + img_width (resized tile2_start)) in
     let top := pos_y tile2_start in
     let bottom := fb_height (fb tile2_start)
                   - (pos_y tile2_start + img_height (resized tile2_start)) in
     (-1 <= right - left <= 1 /\ -1 <= bottom - top <= 1)
     /\ (img_width (resized tile2_start) <= fb_width (fb tile2_start) -> 0 <= left <= right)
     /\ (fb_width (fb tile2_start) <= img_width (resized tile2_start) -> right <= left <= 0)
     /\ (img_height (resized tile2_start) <= fb_height (fb tile2_start) -> 0 <= top <= bottom)
     /\ (fb_height (fb tile2_start) <= img_height (resized tile2_start) -> bottom <= top <= 0).
Proof.
  assert (H1 : 0 <= fb_width (fb tile2_start) <= INT_MAX) by (unfold INT_MAX; cbn; lia).
  assert (H2 : 0 <= fb_height (fb tile2_start) <= INT_MAX) by (unfold INT_MAX; cbn; lia).
  assert (H3 : 0 <= img_width (resized tile2_start) <= INT_MAX) by (unfold INT_MAX; cbn; lia).
  assert (H4 : 0 <= img_height (resized tile2_start) <= INT_MAX) by (unfold INT_MAX; cbn; lia).
  exact (conj H1 (conj H2 (conj H3 (conj H4
           (image_centred_within_one_pixel tile2_start H1 H2 H3 H4))))).
Defined.

(** ** Sampling *)



(** X9.  The resampler keeps the order of columns and rows: column 0 of the
    target reads column 0 of the source, and a later target column never
    reads an earlier source column; likewise for rows.  (Sources of at most
    [2^24] and targets of at most [2^23] columns and rows.) *)
Theorem resize_keeps_pixel_order src new_width new_height x x' y y' :
  0 < img_width src <= 2 ^ 24 -> 0 < img_height src <= 2 ^ 24 ->
  0 < new_width <= 2 ^ 23 -> 0 < new_height <= 2 ^ 23 ->
  0 <= x <= x' -> x' < new_width -> 0 <= y <= y' -> y' < new_height ->
  src_x src new_width 0 = 0 /\ src_y src new_height 0 = 0
  /\ src_x src new_width x <= src_x src new_width x'
  /\ src_y src new_height y <= src_y src new_height y'.
Proof.
  intros Hw Hh Hnw Hnh Hx Hx' Hy Hy'.
  assert (Z0 : forall a b, 0 < a <= 2 ^ 24 -> 0 < b <= 2 ^ 23 ->
             int_of_f32 (f32_mul (f32_of_int 0) (f32_div (f32_of_int a) (f32_of_int b))) = 0).
  { intros a b Ha Hb.
    destruct (ratio_rounded a b Ha ltac:(lia)) as (mr & er & Er & _).
    rewrite Er. reflexivity. }
  unfold src_x, src_y, x_ratio, y_ratio.
  split; [apply Z0; assumption|]. split; [apply Z0; assumption|].
  split; apply sampled_coord_mono; assumption.
Qed.

Lemma resize_keeps_pixel_order_witness :
  0 < img_width ramp14 <= 2 ^ 24 /\ 0 < img_height ramp14 <= 2 ^ 24
  /\ 0 < 46 <= 2 ^ 23 /\ 0 < 1 <= 2 ^ 23
  /\ 0 <= 22 <= 23 /\ 23 < 46 /\ 0 <= 0 <= 0 /\ 0 < 1
  /\ src_x ramp14 46 0 = 0 /\ src_y ramp14 1 0 = 0
  /\ src_x ramp14 46 22 <= src_x ramp14 46 23
  /\ src_y ramp14 1 0 <= src_y ramp14 1 0.
Proof.
  assert (H1 : 0 < img_width ramp14 <= 2 ^ 24) by (cbn; lia).
  assert (H2 : 0 < img_height ramp14 <= 2 ^ 24) by (cbn; lia).
  assert (H3 : 0 < 46 <= 2 ^ 23) by lia.
  assert (H4 : 0 < 1 <= 2 ^ 23) by lia.
  assert (H5 : 0 <= 22 <= 23) by lia.
  assert (H6 : 23 < 46) by lia.
  assert (H7 : 0 <= 0 <= 0) by lia.
  assert (H8 : 0 < 1) by lia.
  exact (conj H1 (conj H2 (conj H3 (conj H4 (conj H5 (conj H6 (conj H7 (conj H8
           (resize_keeps_pixel_order ramp14 46 1 22 23 0 0
              H1 H2 H3 H4 H5 H6 H7 H8))))))))).
Defined.

(** X10.  A resize to zero width or zero height whose allocations succeed
    returns an image without pixels, and drawing that image, at any offset,
    leaves the framebuffer as it is. *)
Theorem resize_to_empty_draws_nothing junk src new_width new_height fb x_offset y_offset :
  img_bpp src = 3 ->
  0 <= new_width -> new_width * 3 <= INT_MAX -> 0 <= new_height <= INT_MAX ->
  new_width = 0 \/ new_height = 0 ->
  in_int x_offset -> in_int y_offset ->
  exists r,
    Image_resize_linear true (Some junk) src new_width new_height = Some r
    /\ img_width r = new_width /\ img_height r = new_height /\ img_data r = []
    /\ framebuffer_draw_image (Some fb) x_offset y_offset (Some r) = Some fb.
Proof.
  intros Hb Hw Hw3 Hh Hz Hxo Hyo.
  assert (E : Image_resize_linear true (Some junk) src new_width new_height
              = Some {| img_width := new_width; img_height := new_height; img_bpp := 3;
                        img_stride := new_width * 3; img_data := [] |}).
  { unfold Image_resize_linear. cbn [negb]. rewrite Hb.
    rewrite (int_mul_id new_width 3) by (unfold in_int, INT_MIN, INT_MAX in *; lia).
    assert (Hsz : int_mul new_height (new_width * 3) = 0).
    { unfold int_mul.
      destruct Hz as [-> | ->]; [rewrite Z.mul_0_l, Z.mul_0_r | rewrite Z.mul_0_l];
        reflexivity. }
    rewrite Hsz. cbn [malloc Z.leb Z.compare seqZ].
    change (map junk (seqZ 0 0)) with (@nil Z).
    f_equal. f_equal. apply length_nil_inv.
    rewrite resize_rows_blit, length_blit. reflexivity. }
  eexists. split; [exact E|]. do 3 (split; [reflexivity|]).
  unfold framebuffer_draw_image, screen_x_start, screen_x_end, screen_y_start, screen_y_end.
  cbn [img_width img_height].
  assert (G : forall off lim, in_int off ->
            ((if off <? 0 then 0 else off)
             >=? (if int_add off 0 >? lim then lim else int_add off 0)) = true).
  { intros off lim Ho. rewrite int_add_id by (rewrite Z.add_0_r; exact Ho).
    rewrite Z.add_0_r, Z.geb_leb. apply Z.leb_le.
    destruct (Z.ltb_spec off 0); destruct (Z.gtb_spec off lim); lia. }
  destruct Hz as [-> | ->].
  - rewrite G by assumption. reflexivity.
  - rewrite (G y_offset) by assumption. rewrite orb_true_r. reflexivity.
Qed.

Lemma resize_to_empty_draws_nothing_witness :
  img_bpp tile5 = 3 /\ 0 <= 0 /\ 0 * 3 <= INT_MAX /\ 0 <= 0 <= INT_MAX
  /\ (0 = 0 \/ 0 = 0) /\ in_int 2 /\ in_int 1
  /\ exists r,
       Image_resize_linear true (Some (fun _ => 0)) tile5 0 0 = Some r
       /\ img_width r = 0 /\ img_height r = 0 /\ img_data r = []
       /\ framebuffer_draw_image (Some small_fb) 2 1 (Some r) = Some small_fb.
Proof.
  assert (H1 : img_bpp tile5 = 3) by reflexivity.
  assert (H2 : 0 <= 0) by lia.
  assert (H3 : 0 * 3 <= INT_MAX) by (unfold INT_MAX; lia).
  assert (H4 : 0 <= 0 <= INT_MAX) by (unfold INT_MAX; lia).
  assert (H5 : 0 = 0 \/ 0 = 0) by (left; reflexivity).
  assert (H6 : in_int 2) by (unfold in_int, INT_MIN, INT_MAX; lia).
  assert (H7 : in_int 1) by (unfold in_int, INT_MIN, INT_MAX; lia).
  exact (conj H1 (conj H2 (conj H3 (conj H4 (conj H5 (conj H6 (conj H7
           (resize_to_empty_draws_nothing (fun _ => 0) tile5 0 0 small_fb 2 1
              H1 H2 H3 H4 H5 H6 H7)))))))).
Defined.

(** ** Keys *)

(** X11.  The first frame fits the screen: for device and image dimensions
    of at most [2^24], the image [main] shows first is no wider and no higher
    than the device, and its position is not negative. *)
Theorem first_frame_fits_screen fb0 img0 a_struct a_data st0 :
  0 < fb_width fb0 <= 2 ^ 24 -> 0 < fb_height fb0 <= 2 ^ 24 ->
  0 < img_width img0 <= 2 ^ 24 -> 0 < img_height img0 <= 2 ^ 24 ->
  main_init fb0 img0 a_struct a_data = Some st0 ->
  0 <= img_width (resized st0) <= fb_width fb0
  /\ 0 <= img_height (resized st0) <= fb_height fb0
  /\ 0 <= pos_x st0 /\ 0 <= pos_y st0.
Proof.
  intros HW HH Hw Hh Hinit.
  destruct (main_init_fields _ _ _ _ _ Hinit) as (Hfb & _ & Hs & _ & Ew & Eh).
  assert (B : 0 <= resized_width img0 (scale st0) <= fb_width fb0
              /\ 0 <= resized_height img0 (scale st0) <= fb_height fb0).
  { rewrite Hs. unfold resized_width, resized_height, fit_scale.
    destruct (ratio_rounded _ _ HW Hw) as (m1 & e1 & E1 & V1 & L1 & U1).
    destruct (ratio_rounded _ _ HH Hh) as (m2 & e2 & E2 & V2 & L2 & U2).
    rewrite E1, E2.
    pose proof (ratio_lower _ _ _ _ (proj1 HW) Hw L1) as R1.
    pose proof (ratio_lower _ _ _ _ (proj1 HH) Hh L2) as R2.
    pose proof (f32_lt_pos m1 e1 m2 e2 V1 V2) as Hlt.
    assert (Qw : (0 <= inject_Z (img_width img0))%Q)
      by (apply Qlt_le_weak, inject_Z_pos; lia).
    assert (Qh : (0 <= inject_Z (img_height img0))%Q)
      by (apply Qlt_le_weak, inject_Z_pos; lia).
    set (S1 := (inject_Z (Zpos m1) * pow2 e1)%Q) in *.
    set (S2 := (inject_Z (Zpos m2) * pow2 e2)%Q) in *.
    destruct (f32_lt (S754_finite false m1 e1) (S754_finite false m2 e2)).
    - split; apply shrunk_dim_fits; try assumption. fold S1.
      assert (0 <= (S2 - S1) * inject_Z (img_height img0))%Q
        by (apply Qmult_le_0_compat; lra).
      lra.
    - split; apply shrunk_dim_fits; try assumption. fold S2.
      assert (0 <= (S1 - S2) * inject_Z (img_width img0))%Q
        by (apply Qmult_le_0_compat; lra).
      lra. }
  rewrite <- Ew, <- Eh in B. destruct B as [Bw Bh].
  split; [exact Bw|]. split; [exact Bh|].
  unfold pos_x, pos_y. rewrite Hfb.
  destruct (pos_plain (fb_width fb0) (img_width (resized st0))) as (-> & _);
    [unfold INT_MAX; lia | unfold INT_MAX; lia |].
  destruct (pos_plain (fb_height fb0) (img_height (resized st0))) as (-> & _);
    [unfold INT_MAX; lia | unfold INT_MAX; lia |].
  split; apply Z.quot_pos; lia.
Qed.

Lemma first_frame_fits_screen_witness :
  0 < fb_width small_fb <= 2 ^ 24 /\ 0 < fb_height small_fb <= 2 ^ 24
  /\ 0 < img_width tile10 <= 2 ^ 24 /\ 0 < img_height tile10 <= 2 ^ 24
  /\ main_init small_fb tile10 true (Some (fun _ => 0)) = Some tile10_start
  /\ 0 <= img_width (resized tile10_start) <= fb_width small_fb
  /\ 0 <= img_height (resized tile10_start) <= fb_height small_fb
  /\ 0 <= pos_x tile10_start /\ 0 <= pos_y tile10_start.
Proof.
  assert (H1 : 0 < fb_width small_fb <= 2 ^ 24) by (cbn; lia).
  assert (H2 : 0 < fb_height small_fb <= 2 ^ 24) by (cbn; lia).
  assert (H3 : 0 < img_width tile10 <= 2 ^ 24) by (cbn; lia).
  assert (H4 : 0 < img_height tile10 <= 2 ^ 24) by (cbn; lia).
  assert (H5 : main_init small_fb tile10 true (Some (fun _ => 0)) = Some tile10_start)
    by (vm_compute; reflexivity).
  exact (conj H1 (conj H2 (conj H3 (conj H4 (conj H5
           (first_frame_fits_screen small_fb tile10 true (Some (fun _ => 0)) tile10_start
              H1 H2 H3 H4 H5)))))).
Defined.

(** X12.  [+] on a scale within the clamp bounds never lowers it: the new
    scale is 5.0, or it lies between 1.19 and 1.21 times the old one. *)
Theorem zoom_in_step st i ev st' :
  in_scale_range (scale st) -> key i = "+"%char ->
  loop_body st i = (ev, Some st') ->
  (F2Q (scale st) <= F2Q (scale st'))%Q
  /\ (scale st' = f32_5_0
      \/ ((119 # 100) * F2Q (scale st) <= F2Q (scale st')
          /\ F2Q (scale st') <= (121 # 100) * F2Q (scale st))%Q).
Proof.
  intros Hr Hk Hb.
  destruct (loop_body_state _ _ _ _ Hb) as (s & Hs & -> & _).
  unfold key_scale in Hs. rewrite Hk in Hs. cbn in Hs. injection Hs as <-.
  apply zoom_in_scale. exact Hr.
Qed.

Lemma zoom_in_step_witness :
  in_scale_range (scale tile2_start) /\ key (press "+") = "+"%char
  /\ loop_body tile2_start (press "+") = (tile2_plus_events, Some tile2_plus)
  /\ (F2Q (scale tile2_start) <= F2Q (scale tile2_plus))%Q
  /\ (scale tile2_plus = f32_5_0
      \/ ((119 # 100) * F2Q (scale tile2_start) <= F2Q (scale tile2_plus)
          /\ F2Q (scale tile2_plus) <= (121 # 100) * F2Q (scale tile2_start))%Q).
Proof.
  assert (H1 : in_scale_range (scale tile2_start)).
  { repeat split; try reflexivity; vm_compute; discriminate. }
  assert (H2 : key (press "+") = "+"%char) by reflexivity.
  assert (H3 : loop_body tile2_start (press "+") = (tile2_plus_events, Some tile2_plus))
    by (vm_compute; reflexivity).
  exact (conj H1 (conj H2 (conj H3
           (zoom_in_step tile2_start (press "+") tile2_plus_events tile2_plus H1 H2 H3)))).
Defined.

(** X13.  [-] on a scale within the clamp bounds never raises it: the new
    scale is 0.1f, or the old one lies between 1.19 and 1.21 times the new
    one. *)
Theorem zoom_out_step st i ev st' :
  in_scale_range (scale st) -> key i = "-"%char ->
  loop_body st i = (ev, Some st') ->
  (F2Q (scale st') <= F2Q (scale st))%Q
  /\ (scale st' = f32_0_1
      \/ ((119 # 100) * F2Q (scale st') <= F2Q (scale st)
          /\ F2Q (scale st) <= (121 # 100) * F2Q (scale st'))%Q).
Proof.
  intros Hr Hk Hb.
  destruct (loop_body_state _ _ _ _ Hb) as (s & Hs & -> & _).
  unfold key_scale in Hs. rewrite Hk in Hs. cbn in Hs. injection Hs as <-.
  apply zoom_out_scale. exact Hr.
Qed.

Lemma zoom_out_step_witness :
  in_scale_range (scale tile2_plus) /\ key (press "-") = "-"%char
  /\ loop_body tile2_plus (press "-") = (tile2_back_events, Some tile2_back)
  /\ (F2Q (scale tile2_back) <= F2Q (scale tile2_plus))%Q
  /\ (scale tile2_back = f32_0_1
      \/ ((119 # 100) * F2Q (scale tile2_back) <= F2Q (scale tile2_plus)
          /\ F2Q (scale tile2_plus) <= (121 # 100) * F2Q (scale tile2_back))%Q).
Proof.
  assert (H1 : in_scale_range (scale tile2_plus)).
  { repeat split; try reflexivity; vm_compute; discriminate. }
  assert (H2 : key (press "-") = "-"%char) by reflexivity.
  assert (H3 : loop_body tile2_plus (press "-") = (tile2_back_events, Some tile2_back))
    by (vm_compute; reflexivity).
  exact (conj H1 (conj H2 (conj H3
           (zoom_out_step tile2_plus (press "-") tile2_back_events tile2_back H1 H2 H3)))).
Defined.

(** X14.  Every resample starts from the original image.  In a turn that
    does not quit, either the image shown is kept and nothing is freed, or
    the image shown before is freed and the new one is the resize of the
    image loaded at start, at the dimensions of the new scale. *)
Theorem resample_starts_from_original fb0 img0 a_struct a_data st0 st i ev st' :
  main_init fb0 img0 a_struct a_data = Some st0 -> reachable st0 st ->
  loop_body st i = (ev, Some st') ->
  img st' = img0
  /\ ((resized st' = resized st /\ forall r, ~ In (EvFree r) ev)
      \/ (In (EvFree (resized st)) ev
          /\ Image_resize_linear (alloc_struct i) (alloc_data i) img0
               (resized_width img0 (scale st')) (resized_height img0 (scale st'))
             = Some (resized st'))).
Proof.
  intros Hinit Hreach Hb.
  destruct (main_init_fields _ _ _ _ _ Hinit) as (_ & Hi0 & _).
  pose proof (reachable_img _ _ Hreach) as Hi. rewrite Hi0 in Hi.
  destruct (loop_body_state _ _ _ _ Hb) as (s & _ & _ & _ & Hi').
  split; [congruence|].
  destruct (loop_body_resample _ _ _ _ Hb) as [Hkeep | [Hin Hres]].
  - left. exact Hkeep.
  - right. rewrite Hi in Hres. split; assumption.
Qed.

Lemma resample_starts_from_original_witness :
  main_init small_fb tile2 true (Some (fun _ => 0)) = Some tile2_start
  /\ reachable tile2_start tile2_start
  /\ loop_body tile2_start (press "+") = (tile2_plus_events, Some tile2_plus)
  /\ img tile2_plus = tile2
  /\ ((resized tile2_plus = resized tile2_start
       /\ forall r, ~ In (EvFree r) tile2_plus_events)
      \/ (In (EvFree (resized tile2_start)) tile2_plus_events
          /\ Image_resize_linear (alloc_struct (press "+")) (alloc_data (press "+")) tile2
               (resized_width tile2 (scale tile2_plus))
               (resized_height tile2 (scale tile2_plus))
             = Some (resized tile2_plus))).
Proof.
  assert (H1 : main_init small_fb tile2 true (Some (fun _ => 0)) = Some tile2_start)
    by (vm_compute; reflexivity).
  assert (H2 : reachable tile2_start tile2_start) by constructor.
  assert (H3 : loop_body tile2_start (press "+") = (tile2_plus_events, Some tile2_plus))
    by (vm_compute; reflexivity).
  exact (conj H1 (conj H2 (conj H3
           (resample_starts_from_original small_fb tile2 true (Some (fun _ => 0))
              tile2_start tile2_start (press "+") tile2_plus_events tile2_plus
              H1 H2 H3)))).
Defined.

(** X15.  [q] ends the loop: the keystrokes after a [q] are not read, and
    the events end with the read of [q] followed by the release of the
    original image and of the image shown last. *)
Theorem quit_ends_the_loop ins iq rest st :
  key iq = "q"%char ->
  main_loop (ins ++ iq :: rest) st = main_loop (ins ++ [iq]) st
  /\ exists pre,
       fst (main_loop (ins ++ [iq]) st)
       = pre ++ [EvGetchar "q"; EvFree (img st);
                 EvFree (resized (snd (main_loop (ins ++ [iq]) st)))].
Proof.
  intros Hq. revert st. induction ins as [|i ins IH]; intros st.
  - cbn [app main_loop]. rewrite loop_body_quit by exact Hq. split; [reflexivity|].
    exists (fst (draw_frame st)). cbn [fst snd]. rewrite Hq, <- app_assoc. reflexivity.
  - cbn [app main_loop].
    destruct (loop_body st i) as [ev [st'|]] eqn:Hb.
    + destruct (IH st') as (E & pre & Hpre). rewrite E. split; [reflexivity|].
      destruct (loop_body_state _ _ _ _ Hb) as (s & _ & _ & _ & Hi).
      destruct (main_loop (ins ++ [iq]) st') as [ev' st''].
      cbn [fst snd] in *. exists (ev ++ pre). rewrite Hpre, Hi, <- app_assoc. reflexivity.
    + split; [reflexivity|].
      pose proof (loop_body_breaks _ _ _ Hb) as Hkq.
      assert (Hev : ev = fst (draw_frame st) ++ [EvGetchar "q"]).
      { rewrite (loop_body_quit st i Hkq), Hkq in Hb. congruence. }
      exists (fst (draw_frame st)). cbn [fst snd].
      rewrite Hev, <- app_assoc. reflexivity.
Qed.

Lemma quit_ends_the_loop_witness :
  key (press "q") = "q"%char
  /\ main_loop ([press "+"] ++ press "q" :: [press "-"]) tile2_start
     = main_loop ([press "+"] ++ [press "q"]) tile2_start
  /\ exists pre,
       fst (main_loop ([press "+"] ++ [press "q"]) tile2_start)
       = pre ++ [EvGetchar "q"; EvFree (img tile2_start);
                 EvFree (resized (snd (main_loop ([press "+"] ++ [press "q"]) tile2_start)))].
Proof.
  assert (H1 : key (press "q") = "q"%char) by reflexivity.
  exact (conj H1 (quit_ends_the_loop [press "+"] (press "q") [press "-"] tile2_start H1)).
Defined.

(** X16.  Once a key has been handled, a key other than [r], [+], [-] and
    [q] is ignored: the scale lies within the bounds and equals
    [prev_scale], so the turn redraws the frame and neither resamples nor
    frees. *)
Theorem unrecognised_key_is_ignored fb0 img0 a_struct a_data st0 st i1 ev1 st1 i2 :
  0 < img_width img0 <= INT_MAX -> 0 < img_height img0 <= INT_MAX ->
  main_init fb0 img0 a_struct a_data = Some st0 -> reachable st0 st ->
  loop_body st i1 = (ev1, Some st1) ->
  other_key (key i2) ->
  in_scale_range (scale st1) /\ prev_scale st1 = scale st1
  /\ loop_body st1 i2
     = ([EvClear; EvDraw (pos_x st1) (pos_y st1) (resized st1); EvUpdate;
         EvGetchar (key i2)],
        Some (snd (draw_frame st1))).
Proof.
  intros Hw Hh Hinit Hreach Hb Hk.
  destruct (main_init_good _ _ _ _ _ Hw Hh Hinit) as (Hg0 & _).
  destruct (main_init_fields _ _ _ _ _ Hinit) as (_ & _ & _ & Hp0 & _).
  assert (P0 : good (prev_scale st0)) by (rewrite Hp0; apply Hg0).
  destruct (reachable_prev_good _ _ Hg0 P0 Hreach) as (Hg & Hp).
  destruct (turn_settles_scales _ _ _ _ Hg Hp Hb) as (Hin & Heq).
  split; [exact Hin|]. split; [exact Heq|].
  rewrite loop_body_unfold.
  rewrite handle_key_other; [reflexivity | exact Hin | exact Heq | exact Hk].
Qed.

Lemma unrecognised_key_is_ignored_witness :
  0 < img_width tile2 <= INT_MAX /\ 0 < img_height tile2 <= INT_MAX
  /\ main_init small_fb tile2 true (Some (fun _ => 0)) = Some tile2_start
  /\ reachable tile2_start tile2_start
  /\ loop_body tile2_start (press "+") = (tile2_plus_events, Some tile2_plus)
  /\ other_key (key (press "x"))
  /\ in_scale_range (scale tile2_plus) /\ prev_scale tile2_plus = scale tile2_plus
  /\ loop_body tile2_plus (press "x")
     = ([EvClear; EvDraw (pos_x tile2_plus) (pos_y tile2_plus) (resized tile2_plus);
         EvUpdate; EvGetchar (key (press "x"))],
        Some (snd (draw_frame tile2_plus))).
Proof.
  assert (H1 : 0 < img_width tile2 <= INT_MAX) by (unfold INT_MAX; cbn; lia).
  assert (H2 : 0 < img_height tile2 <= INT_MAX) by (unfold INT_MAX; cbn; lia).
  assert (H3 : main_init small_fb tile2 true (Some (fun _ => 0)) = Some tile2_start)
    by (vm_compute; reflexivity).
  assert (H4 : reachable tile2_start tile2_start) by constructor.
  assert (H5 : loop_body tile2_start (press "+") = (tile2_plus_events, Some tile2_plus))
    by (vm_compute; reflexivity).
  assert (H6 : other_key (key (press "x"))) by (repeat split; discriminate).
  exact (conj H1 (conj H2 (conj H3 (conj H4 (conj H5 (conj H6
           (unrecognised_key_is_ignored small_fb tile2 true (Some (fun _ => 0))
              tile2_start tile2_start (press "+") tile2_plus_events tile2_plus (press "x")
              H1 H2 H3 H4 H5 H6))))))).
Defined.

(** X17.  The image shown after a resample is well formed: for an
    original image of 10 to [2^24] pixels a side whose enlargement by five
    fits an [int], every image the loop puts in place of another has
    positive dimensions of at most [5 * size + 5], three channels, rows of
    [3 * width] bytes and [height * width * 3] bytes in all. *)
Theorem resampled_image_well_formed fb0 img0 a_struct a_data st0 st i ev st' :
  img_bpp img0 = 3 ->
  10 <= img_width img0 <= 2 ^ 24 -> 10 <= img_height img0 <= 2 ^ 24 ->
  (5 * img_width img0 + 5) * (5 * img_height img0 + 5) * 3 <= INT_MAX ->
  main_init fb0 img0 a_struct a_data = Some st0 -> reachable st0 st ->
  loop_body st i = (ev, Some st') ->
  In (EvFree (resized st)) ev ->
  img_wf (resized st')
  /\ 1 <= img_width (resized st') <= 5 * img_width img0 + 5
  /\ 1 <= img_height (resized st') <= 5 * img_height img0 + 5.
Proof.
  intros Hb3 Hw Hh Hfit Hinit Hreach Hb Hfree.
  assert (Hw' : 0 < img_width img0 <= INT_MAX) by (unfold INT_MAX; lia).
  assert (Hh' : 0 < img_height img0 <= INT_MAX) by (unfold INT_MAX; lia).
  destruct (main_init_good _ _ _ _ _ Hw' Hh' Hinit) as (Hg0 & _ & _ & Hi0).
  destruct (reachable_good _ _ Hg0 Hreach) as (Hg & _ & Hi). rewrite Hi0 in Hi.
  destruct (loop_body_state _ _ _ _ Hb) as (s & Hk & Hs & _).
  assert (Hr : in_scale_range (scale st')).
  { rewrite Hs. apply clamp_scale_in_range. eapply key_scale_good; eassumption. }
  destruct (loop_body_resample _ _ _ _ Hb) as [[_ Hno] | [_ Hres]];
    [exfalso; exact (Hno _ Hfree)|].
  rewrite Hi in Hres.
  pose proof (scaled_dim_bounds _ _ Hw Hr) as Bw.
  pose proof (scaled_dim_bounds _ _ Hh Hr) as Bh.
  fold (resized_width img0 (scale st')) in Bw.
  fold (resized_height img0 (scale st')) in Bh.
  set (nw := resized_width img0 (scale st')) in *.
  set (nh := resized_height img0 (scale st')) in *.
  assert (Hprod : 0 <= nw * nh <= (5 * img_width img0 + 5) * (5 * img_height img0 + 5))
    by (apply mul_le_box; lia).
  assert (Hfit' : nw * nh * 3 <= INT_MAX) by lia.
  assert (Hnw : 0 < nw) by lia. assert (Hnh : 0 < nh) by lia.
  destruct (resize_pixels _ _ _ _ _ _ Hnw Hnh Hb3 Hfit' Hres)
    as (E1 & E2 & E3 & E4 & E5 & _).
  split; [|rewrite E1, E2; lia].
  unfold img_wf. rewrite E1, E2, E3, E4, E5. repeat split; lia.
Qed.

Lemma resampled_image_well_formed_witness :
  img_bpp tile10 = 3
  /\ 10 <= img_width tile10 <= 2 ^ 24 /\ 10 <= img_height tile10 <= 2 ^ 24
  /\ (5 * img_width tile10 + 5) * (5 * img_height tile10 + 5) * 3 <= INT_MAX
  /\ main_init small_fb tile10 true (Some (fun _ => 0)) = Some tile10_start
  /\ reachable tile10_start tile10_start
  /\ loop_body tile10_start (press "+") = (tile10_plus_events, Some tile10_plus)
  /\ In (EvFree (resized tile10_start)) tile10_plus_events
  /\ img_wf (resized tile10_plus)
  /\ 1 <= img_width (resized tile10_plus) <= 5 * img_width tile10 + 5
  /\ 1 <= img_height (resized tile10_plus) <= 5 * img_height tile10 + 5.
Proof.
  assert (H1 : img_bpp tile10 = 3) by reflexivity.
  assert (H2 : 10 <= img_width tile10 <= 2 ^ 24) by (cbn; lia).
  assert (H3 : 10 <= img_height tile10 <= 2 ^ 24) by (cbn; lia).
  assert (H4 : (5 * img_width tile10 + 5) * (5 * img_height tile10 + 5) * 3 <= INT_MAX)
    by (vm_compute; discriminate).
  assert (H5 : main_init small_fb tile10 true (Some (fun _ => 0)) = Some tile10_start)
    by (vm_compute; reflexivity).
  assert (H6 : reachable tile10_start tile10_start) by constructor.
  assert (H7 : loop_body tile10_start (press "+") = (tile10_plus_events, Some tile10_plus))
    by (vm_compute; reflexivity).
  assert (H8 : In (EvFree (resized tile10_start)) tile10_plus_events)
    by (vm_compute; auto 10).
  exact (conj H1 (conj H2 (conj H3 (conj H4 (conj H5 (conj H6 (conj H7 (conj H8
           (resampled_image_well_formed small_fb tile10 true (Some (fun _ => 0))
              tile10_start tile10_start (press "+") tile10_plus_events tile10_plus
              H1 H2 H3 H4 H5 H6 H7 H8))))))))).
Defined.

(** X18.  The zoom saturates: at the largest scale [+], and at the
    smallest scale [-], leave the state as it is; the turn redraws the frame
    and neither resamples nor frees. *)
Theorem zoom_saturates st i :
  prev_scale st = scale st ->
  (scale st = f32_5_0 /\ key i = "+"%char) \/ (scale st = f32_0_1 /\ key i = "-"%char) ->
  loop_body st i
  = ([EvClear; EvDraw (pos_x st) (pos_y st) (resized st); EvUpdate; EvGetchar (key i)],
     Some (snd (draw_frame st))).
Proof.
  intros Hp Hcase. rewrite loop_body_unfold.
  assert (Hs1 : scale (snd (draw_frame st)) = scale st) by reflexivity.
  assert (Hp1 : prev_scale (snd (draw_frame st)) = scale st) by exact Hp.
  assert (Hev1 : fst (draw_frame st)
                 = [EvClear; EvDraw (pos_x st) (pos_y st) (resized st); EvUpdate])
    by reflexivity.
  rewrite Hev1.
  set (st1 := snd (draw_frame st)) in *. clearbody st1.
  assert (Hk : handle_key st1 i = ([], Some st1)).
  { unfold handle_key, key_scale. rewrite Hp1, Hs1.
    destruct Hcase as [[E ->] | [E ->]]; rewrite E in *;
      cbn [Ascii.eqb Bool.eqb].
    - replace (clamp_scale (f32_mul f32_5_0 f32_1_2)) with f32_5_0
        by (vm_compute; reflexivity).
      replace (f32_eq f32_5_0 f32_5_0) with true by (vm_compute; reflexivity).
      destruct st1. cbn in *. subst. reflexivity.
    - replace (clamp_scale (f32_div f32_0_1 f32_1_2)) with f32_0_1
        by (vm_compute; reflexivity).
      replace (f32_eq f32_0_1 f32_0_1) with true by (vm_compute; reflexivity).
      destruct st1. cbn in *. subst. reflexivity. }
  rewrite Hk. reflexivity.
Qed.

Lemma zoom_saturates_witness :
  prev_scale tile2_max = scale tile2_max
  /\ ((scale tile2_max = f32_5_0 /\ key (press "+") = "+"%char)
      \/ (scale tile2_max = f32_0_1 /\ key (press "+") = "-"%char))
  /\ loop_body tile2_max (press "+")
     = ([EvClear; EvDraw (pos_x tile2_max) (pos_y tile2_max) (resized tile2_max);
         EvUpdate; EvGetchar (key (press "+"))],
        Some (snd (draw_frame tile2_max))).
Proof.
  assert (H1 : prev_scale tile2_max = scale tile2_max) by reflexivity.
  assert (H2 : (scale tile2_max = f32_5_0 /\ key (press "+") = "+"%char)
               \/ (scale tile2_max = f32_0_1 /\ key (press "+") = "-"%char))
    by (left; split; reflexivity).
  exact (conj H1 (conj H2 (zoom_saturates tile2_max (press "+") H1 H2))).
Defined.

(** ** System calls *)

(** X19.  When every call succeeds and the reported geometry fits an
    [int], [framebuffer_create] returns a structure of that geometry, with
    [bits_per_pixel / 8] bytes a pixel and a mapping and a shadow buffer of
    [width * height * bpp] bytes each: what [fb_wf] asks. *)
Theorem framebuffer_create_establishes_wf d fd vinfo map_bytes junk :
  dev_alloc d = true -> dev_open d = Some fd -> dev_vinfo d = Some vinfo ->
  dev_mmap d = Some map_bytes -> dev_alloc_buffer d = Some junk ->
  0 <= xres vinfo <= INT_MAX -> 0 <= yres vinfo <= INT_MAX ->
  8 <= bits_per_pixel vinfo < 2 ^ 32 ->
  xres vinfo * yres vinfo * (bits_per_pixel vinfo / 8) <= INT_MAX ->
  exists t fb,
    framebuffer_create d = (t, Some (fd, fb))
    /\ fb_wf fb /\ length (fbp fb) = length (buffer fb)
    /\ fb_width fb = xres vinfo /\ fb_height fb = yres vinfo
    /\ fb_bpp fb = bits_per_pixel vinfo / 8 /\ 1 <= fb_bpp fb
    /\ fbp fb = map map_bytes (seqZ 0 (xres vinfo * yres vinfo * (bits_per_pixel vinfo / 8)))
    /\ buffer fb = map junk (seqZ 0 (xres vinfo * yres vinfo * (bits_per_pixel vinfo / 8))).
Proof.
  intros Ha Ho Hv Hm Hb Hx Hy Hbits Hfit.
  set (B := bits_per_pixel vinfo / 8) in *.
  assert (HB : 1 <= B < 2 ^ 29).
  { unfold B. split.
    - apply Z.div_le_lower_bound; lia.
    - apply Z.div_lt_upper_bound; lia. }
  assert (Hxy : 0 <= xres vinfo * yres vinfo) by (apply Z.mul_nonneg_nonneg; lia).
  assert (Hxy' : xres vinfo * yres vinfo * 1 <= xres vinfo * yres vinfo * B)
    by (apply Z.mul_le_mono_nonneg_l; lia).
  assert (Hn : 0 <= xres vinfo * yres vinfo * B) by (apply Z.mul_nonneg_nonneg; lia).
  unfold framebuffer_create. rewrite Ha, Ho, Hv, Hm, Hb. cbn [negb]. cbv zeta. fold B.
  rewrite !wrap32_id by (unfold in_int, INT_MIN, INT_MAX in *; lia).
  rewrite (int_mul_id (xres vinfo)) by (unfold in_int, INT_MIN, INT_MAX in *; lia).
  rewrite int_mul_id by (unfold in_int, INT_MIN, INT_MAX in *; lia).
  unfold mmap, malloc.
  replace (0 <=? xres vinfo * yres vinfo * B) with true by (symmetry; apply Z.leb_le; lia).
  eexists. eexists. split; [reflexivity|].
  cbn [fbp buffer fb_width fb_height fb_bpp].
  assert (L : forall f : Z -> Z,
            Z.of_nat (length (map f (seqZ 0 (xres vinfo * yres vinfo * B))))
            = xres vinfo * yres vinfo * B).
  { intros f. rewrite length_map, length_seqZ. lia. }
  split.
  - unfold fb_wf. cbn [fb_width fb_height fb_bpp buffer]. rewrite L.
    repeat split; try lia.
  - split; [rewrite !length_map; reflexivity|]. repeat split; lia.
Qed.

Lemma framebuffer_create_establishes_wf_witness :
  dev_alloc demo_device = true /\ dev_open demo_device = Some 3
  /\ dev_vinfo demo_device = Some {| xres := 4; yres := 3; bits_per_pixel := 32 |}
  /\ dev_mmap demo_device = Some (fun _ => 0)
  /\ dev_alloc_buffer demo_device = Some (fun _ => 0)
  /\ 0 <= 4 <= INT_MAX /\ 0 <= 3 <= INT_MAX /\ 8 <= 32 < 2 ^ 32
  /\ 4 * 3 * (32 / 8) <= INT_MAX
  /\ exists t fb,
       framebuffer_create demo_device = (t, Some (3, fb))
       /\ fb_wf fb /\ length (fbp fb) = length (buffer fb)
       /\ fb_width fb = 4 /\ fb_height fb = 3
       /\ fb_bpp fb = 32 / 8 /\ 1 <= fb_bpp fb
       /\ fbp fb = map (fun _ => 0) (seqZ 0 (4 * 3 * (32 / 8)))
       /\ buffer fb = map (fun _ => 0) (seqZ 0 (4 * 3 * (32 / 8))).
Proof.
  assert (H1 : dev_alloc demo_device = true) by reflexivity.
  assert (H2 : dev_open demo_device = Some 3) by reflexivity.
  assert (H3 : dev_vinfo demo_device
               = Some {| xres := 4; yres := 3; bits_per_pixel := 32 |}) by reflexivity.
  assert (H4 : dev_mmap demo_device = Some (fun _ => 0)) by reflexivity.
  assert (H5 : dev_alloc_buffer demo_device = Some (fun _ => 0)) by reflexivity.
  assert (H6 : 0 <= 4 <= INT_MAX) by (unfold INT_MAX; lia).
  assert (H7 : 0 <= 3 <= INT_MAX) by (unfold INT_MAX; lia).
  assert (H8 : 8 <= 32 < 2 ^ 32) by lia.
  assert (H9 : 4 * 3 * (32 / 8) <= INT_MAX) by (vm_compute; discriminate).
  exact (conj H1 (conj H2 (conj H3 (conj H4 (conj H5 (conj H6 (conj H7 (conj H8 (conj H9
           (framebuffer_create_establishes_wf demo_device 3
              {| xres := 4; yres := 3; bits_per_pixel := 32 |} (fun _ => 0) (fun _ => 0)
              H1 H2 H3 H4 H5 H6 H7 H8 H9)))))))))).
Defined.

(** X20.  [framebuffer_create] does not leak: when it fails, at whichever
    step, it has released all it had acquired; when it succeeds it holds the
    structure, the descriptor, the mapping and the shadow buffer, the two
    buffers have the size mapped, and [framebuffer_destroy] releases exactly
    what is held. *)
Theorem framebuffer_create_destroy_balanced d :
  match framebuffer_create d with
  | (t, None) => held t [] = Some []
  | (t, Some (fd, fb)) =>
      held t []
      = Some [Heap BlkBuffer;
              Mapping (int_mul (int_mul (fb_width fb) (fb_height fb)) (fb_bpp fb));
              Descriptor fd; Heap BlkFb]
      /\ held (t ++ framebuffer_destroy (Some (fd, fb))) [] = Some []
      /\ Z.of_nat (length (fbp fb))
         = int_mul (int_mul (fb_width fb) (fb_height fb)) (fb_bpp fb)
      /\ length (buffer fb) = length (fbp fb)
  end.
Proof.
  pose proof (create_cases d) as H.
  destruct (framebuffer_create d) as [t [[fd f]|]].
  - cbv zeta in H. destruct H as (Hh & Hn & Lm & Lb & _).
    split; [apply (Hh [] 0)|]. split.
    + rewrite held_app. destruct (Hh [] 0) as [-> _]. apply destroy_releases.
    + split; [exact Lm | lia].
  - apply (H [] 0).
Qed.

(** X21.  [Image_load] fails only when its allocation or the decoder
    fails, and then holds nothing.  The image it returns has three channels,
    rows of [3 * width] bytes, the dimensions and pixels of the decoder, is
    well formed when the decoder's output is, and [Image_free] releases its
    two blocks. *)
Theorem image_load_free_balanced a_struct decoded :
  match Image_load a_struct decoded with
  | (t, None) => (a_struct = false \/ decoded = None) /\ held t [] = Some []
  | (t, Some im) =>
      held t [] = Some [Heap BlkImageData; Heap BlkImage]
      /\ held (t ++ Image_free BlkImage BlkImageData (Some im)) [] = Some []
      /\ img_bpp im = 3 /\ img_stride im = int_mul (img_width im) 3
      /\ decoded = Some (img_width im, img_height im, img_data im)
      /\ (0 < img_width im -> 0 < img_height im ->
          img_width im * img_height im * 3 <= INT_MAX ->
          Z.of_nat (length (img_data im)) = img_height im * img_width im * 3 ->
          img_wf im)
  end.
Proof.
  pose proof (load_cases a_struct decoded) as H.
  destruct (Image_load a_struct decoded) as [t [im|]].
  - destruct H as (Hh & w & h & data & Hd & ->).
    cbn [img_bpp img_stride img_width img_height img_data].
    split; [apply (Hh [] 0)|]. split.
    + rewrite held_app. destruct (Hh [] 0) as [-> _]. apply free_releases.
    + do 3 (split; [auto|]).
      intros Hw Hhh Hfit Hlen. unfold img_wf.
      cbn [img_bpp img_stride img_width img_height img_data].
      assert (w * 1 <= w * h) by (apply Z.mul_le_mono_nonneg_l; lia).
      rewrite int_mul_id by (unfold in_int, INT_MIN, INT_MAX in *; lia).
      repeat split; try lia.
  - destruct H as (Hc & Hh). split; [exact Hc | apply (Hh [] 0)].
Qed.

(** X22.  Whenever [main] returns, it holds nothing: every block,
    descriptor and mapping it acquired has been released, and nothing was
    released that was not held, the blocks of each call of
    [Image_resize_linear] being resources of their own, so that freeing a
    resampled image twice, or one never allocated, would be a release of
    what is not held; the terminal flags are those found at start; and the
    value returned is 1, or 0 after a [q] was read. *)
Theorem main_returns_clean w t code :
  main w = (t, Some code) ->
  held t [] = Some [] /\ terminal t (w_lflag w) = w_lflag w
  /\ (code = 1
      \/ (code = 0 /\ 3 <= argc w /\ exists i, In i (w_keys w) /\ key i = "q"%char)).
Proof.
  intros H. pose proof (main_cases w) as C. rewrite H in C. exact C.
Qed.

Lemma main_returns_clean_witness :
  main (demo_world [press "+"; press "q"]) = (demo_quit_calls, Some 0)
  /\ held demo_quit_calls [] = Some []
  /\ terminal demo_quit_calls (w_lflag (demo_world [press "+"; press "q"]))
     = w_lflag (demo_world [press "+"; press "q"])
  /\ (0 = 1
      \/ (0 = 0 /\ 3 <= argc (demo_world [press "+"; press "q"])
          /\ exists i, In i (w_keys (demo_world [press "+"; press "q"]))
                       /\ key i = "q"%char)).
Proof.
  assert (H1 : main (demo_world [press "+"; press "q"]) = (demo_quit_calls, Some 0))
    by (vm_compute; reflexivity).
  exact (conj H1 (main_returns_clean (demo_world [press "+"; press "q"])
                    demo_quit_calls 0 H1)).
Defined.

(** X23.  While [main] waits for a key it holds the framebuffer structure,
    the descriptor, the mapping, the shadow buffer, the two blocks of the
    original image and the two blocks of one resampled image, whatever keys
    it has read.  That image is the one the latest successful call of
    [Image_resize_linear] returned: its pixel buffer was allocated, and no
    call of a higher number allocated one; the images of the earlier calls
    have been freed.  No [q] was read, and the terminal has the flags of
    [raw_lflag]. *)
Theorem main_holds_one_resample w t :
  main w = (t, None) ->
  3 <= argc w
  /\ (exists fd n k,
        held t []
        = Some [Heap (BlkResizedData k); Heap (BlkResized k); Heap BlkImageData;
                Heap BlkImage; Heap BlkBuffer; Mapping n; Descriptor fd; Heap BlkFb]
        /\ In (Acquire (Heap (BlkResizedData k))) t
        /\ forall j, In (Acquire (Heap (BlkResizedData j))) t -> (j <= k)%nat)
  /\ terminal t (w_lflag w) = raw_lflag (w_lflag w)
  /\ Forall (fun i => key i <> "q"%char) (w_keys w).
Proof.
  intros H. pose proof (main_cases w) as C. rewrite H in C. exact C.
Qed.

Lemma main_holds_one_resample_witness :
  main (demo_world [press "+"]) = (demo_wait_calls, None)
  /\ 3 <= argc (demo_world [press "+"])
  /\ (exists fd n k,
        held demo_wait_calls []
        = Some [Heap (BlkResizedData k); Heap (BlkResized k); Heap BlkImageData;
                Heap BlkImage; Heap BlkBuffer; Mapping n; Descriptor fd; Heap BlkFb]
        /\ In (Acquire (Heap (BlkResizedData k))) demo_wait_calls
        /\ forall j, In (Acquire (Heap (BlkResizedData j))) demo_wait_calls -> (j <= k)%nat)
  /\ terminal demo_wait_calls (w_lflag (demo_world [press "+"]))
     = raw_lflag (w_lflag (demo_world [press "+"]))
  /\ Forall (fun i => key i <> "q"%char) (w_keys (demo_world [press "+"])).
Proof.
  assert (H1 : main (demo_world [press "+"]) = (demo_wait_calls, None))
    by (vm_compute; reflexivity).
  exact (conj H1 (main_holds_one_resample (demo_world [press "+"]) demo_wait_calls H1)).
Defined.

(** X24.  The flags [main] sets for the loop differ from the flags it
    found in two bits only, those of [ICANON] and [ECHO] (bits 1 and 3),
    which are cleared. *)
Theorem raw_lflag_clears_two_bits lflag n :
  0 <= n ->
  Z.testbit (raw_lflag lflag) n
  = Z.testbit lflag n && negb ((n =? 1) || (n =? 3)).
Proof.
  intros Hn. unfold raw_lflag, ICANON, ECHO.
  rewrite Z.land_spec, Z.lnot_spec by exact Hn.
  f_equal. f_equal. change (Z.lor 2 8) with 10.
  destruct (Z.eq_dec n 0) as [-> | ?]; [reflexivity|].
  destruct (Z.eq_dec n 1) as [-> | ?]; [reflexivity|].
  destruct (Z.eq_dec n 2) as [-> | ?]; [reflexivity|].
  destruct (Z.eq_dec n 3) as [-> | ?]; [reflexivity|].
  rewrite Z.bits_above_log2 by (change (Z.log2 10) with 3; lia).
  symmetry. apply orb_false_iff. split; apply Z.eqb_neq; lia.
Qed.

Lemma raw_lflag_clears_two_bits_witness :
  0 <= 3
  /\ Z.testbit (raw_lflag 35387) 3 = Z.testbit 35387 3 && negb ((3 =? 1) || (3 =? 3)).
Proof.
  assert (H1 : 0 <= 3) by lia.
  exact (conj H1 (raw_lflag_clears_two_bits 35387 3 H1)).
Defined.

(** ** Memory accesses *)

(** X25.  [framebuffer_clear_color] stays inside the shadow buffer: for
    every index [i] its loop reaches (a multiple of [bpp] below the screen
    size, on a device of at least three bytes a pixel) the three bytes
    written, [i], [i + 1] and [i + 2], lie in the buffer, and the step
    [i + bpp] neither overflows nor passes the screen size. *)
Theorem clear_color_accesses_in_bounds fb i :
  fb_wf fb -> 3 <= fb_bpp fb ->
  0 <= i < int_mul (int_mul (fb_width fb) (fb_height fb)) (fb_bpp fb) ->
  i mod fb_bpp fb = 0 ->
  0 <= i < Z.of_nat (length (buffer fb))
  /\ 0 <= int_add i 1 < Z.of_nat (length (buffer fb))
  /\ 0 <= int_add i 2 < Z.of_nat (length (buffer fb))
  /\ int_add i (fb_bpp fb) = i + fb_bpp fb
  /\ i + fb_bpp fb <= int_mul (int_mul (fb_width fb) (fb_height fb)) (fb_bpp fb).
Proof.
  intros Hfb Hb Hi Hm. pose proof Hfb as (HW & HH & HB & Hmax & Hlen).
  rewrite screensize_plain in * by (assumption || lia).
  set (B := fb_bpp fb) in *. set (n := fb_width fb * fb_height fb) in *.
  assert (Hlen' : Z.of_nat (length (buffer fb)) = n * B) by (unfold n, B; lia).
  assert (Ei : i = B * (i / B)) by (apply Z.div_exact; [lia | exact Hm]).
  assert (Hq : i / B < n).
  { apply Z.div_lt_upper_bound; lia. }
  assert (Hstep : i + B <= n * B).
  { rewrite Ei at 1. replace (B * (i / B) + B) with ((i / B + 1) * B) by ring.
    apply Z.mul_le_mono_nonneg_r; lia. }
  rewrite !int_add_id by (unfold in_int, INT_MIN, INT_MAX in *; lia).
  rewrite Hlen'. lia.
Qed.

Lemma clear_color_accesses_in_bounds_witness :
  fb_wf small_fb /\ 3 <= fb_bpp small_fb
  /\ 0 <= 44 < int_mul (int_mul (fb_width small_fb) (fb_height small_fb)) (fb_bpp small_fb)
  /\ 44 mod fb_bpp small_fb = 0
  /\ 0 <= 44 < Z.of_nat (length (buffer small_fb))
  /\ 0 <= int_add 44 1 < Z.of_nat (length (buffer small_fb))
  /\ 0 <= int_add 44 2 < Z.of_nat (length (buffer small_fb))
  /\ int_add 44 (fb_bpp small_fb) = 44 + fb_bpp small_fb
  /\ 44 + fb_bpp small_fb
     <= int_mul (int_mul (fb_width small_fb) (fb_height small_fb)) (fb_bpp small_fb).
Proof.
  assert (H1 : fb_wf small_fb) by (unfold fb_wf, INT_MAX; cbn; lia).
  assert (H2 : 3 <= fb_bpp small_fb) by (cbn; lia).
  assert (H3 : 0 <= 44 < int_mul (int_mul (fb_width small_fb) (fb_height small_fb))
                                 (fb_bpp small_fb))
    by (vm_compute; split; [discriminate | reflexivity]).
  assert (H4 : 44 mod fb_bpp small_fb = 0) by reflexivity.
  exact (conj H1 (conj H2 (conj H3 (conj H4
           (clear_color_accesses_in_bounds small_fb 44 H1 H2 H3 H4))))).
Defined.

(** X26.  For a 3-channel source and positive target dimensions whose
    byte count fits an [int], [new_width * new_height * 3 <= INT_MAX],
    [Image_resize_linear] writes inside the buffer it allocates: for every
    pixel and channel its loops visit, the index written is
    [(y * new_width + x) * 3 + c], below the length of the new pixel
    buffer. *)
Theorem resize_writes_in_bounds a_struct a_data src new_width new_height r x y c :
  img_bpp src = 3 -> 0 < new_width -> 0 < new_height ->
  new_width * new_height * 3 <= INT_MAX ->
  Image_resize_linear a_struct a_data src new_width new_height = Some r ->
  0 <= x < new_width -> 0 <= y < new_height -> 0 <= c < img_bpp src ->
  img_bpp r = 3 /\ img_stride r = new_width * 3
  /\ int_add (dst_index (img_stride r) (img_bpp r) x y) c = (y * new_width + x) * 3 + c
  /\ 0 <= int_add (dst_index (img_stride r) (img_bpp r) x y) c
       < Z.of_nat (length (img_data r)).
Proof.
  intros Hb Hw Hh Hfit Hres Hx Hy Hc.
  destruct (resize_pixels _ _ _ _ _ _ Hw Hh Hb Hfit Hres) as (_ & _ & E3 & E4 & E5 & _).
  split; [exact E3|]. split; [exact E4|].
  rewrite E3, E4, E5. unfold dst_index.
  assert (E : int_add (int_add (int_mul y (new_width * 3)) (int_mul x 3)) c
              = cell new_width 3 x y c).
  { apply (strided_plain new_width new_height 3); lia. }
  rewrite E. split; [reflexivity|].
  apply cell_bounds; lia.
Qed.

Lemma resize_writes_in_bounds_witness :
  img_bpp ramp14 = 3 /\ 0 < 46 /\ 0 < 1 /\ 46 * 1 * 3 <= INT_MAX
  /\ Image_resize_linear true (Some (fun _ => 0)) ramp14 46 1 = Some ramp14_to_46
  /\ 0 <= 45 < 46 /\ 0 <= 0 < 1 /\ 0 <= 2 < img_bpp ramp14
  /\ img_bpp ramp14_to_46 = 3 /\ img_stride ramp14_to_46 = 46 * 3
  /\ int_add (dst_index (img_stride ramp14_to_46) (img_bpp ramp14_to_46) 45 0) 2
     = (0 * 46 + 45) * 3 + 2
  /\ 0 <= int_add (dst_index (img_stride ramp14_to_46) (img_bpp ramp14_to_46) 45 0) 2
       < Z.of_nat (length (img_data ramp14_to_46)).
Proof.
  assert (H1 : img_bpp ramp14 = 3) by reflexivity.
  assert (H2 : 0 < 46) by lia.
  assert (H3 : 0 < 1) by lia.
  assert (H4 : 46 * 1 * 3 <= INT_MAX) by (unfold INT_MAX; lia).
  assert (H5 : Image_resize_linear true (Some (fun _ => 0)) ramp14 46 1 = Some ramp14_to_46)
    by (vm_compute; reflexivity).
  assert (H6 : 0 <= 45 < 46) by lia.
  assert (H7 : 0 <= 0 < 1) by lia.
  assert (H8 : 0 <= 2 < img_bpp ramp14) by (cbn; lia).
  exact (conj H1 (conj H2 (conj H3 (conj H4 (conj H5 (conj H6 (conj H7 (conj H8
           (resize_writes_in_bounds true (Some (fun _ => 0)) ramp14 46 1 ramp14_to_46
              45 0 2 H1 H2 H3 H4 H5 H6 H7 H8))))))))).
Defined.
